(** * texttract-mint: extraction orchestrator, metadata store and handlers

    A shallow embedding of the TypeScript sources
      - lib/aws/textract.ts             (module [Textract])
      - lib/aws/s3.ts                   (module [S3])
      - lib/database/mongodb.ts and
        lib/storage/mongodb-metadata.ts (modules [Store] and [Catalog])
      - app/api/search/route.ts         (module [SearchRoute])
      - app/api/upload/process/route.ts (module [ProcessRoute])
      - app/api/upload/presigned-url/route.ts (module [UploadRoute])
      - app/api/pdfs/route.ts           (module [ListRoute])
    and the properties of the specification that concern them.

    A JavaScript string is a sequence of UTF-16 code units. The sources are
    modelled on [string], which holds the strings whose code units are below
    256; on these the functions of [Js] are the functions of JavaScript.
    The module [Utf16] holds all strings, for the one computation of the
    sources whose outcome differs above 255, the preview of a match, and
    for the lower-casing and the trimming it rests on. Thrown [Error]
    objects are modelled by their [name] and [message], and every call that
    leaves the process (the OCR service, the object store, the database,
    the clock, the timer) by an explicit world that is threaded through the
    code. *)

From Stdlib Require Import String Ascii List ZArith QArith Qround Qminmax Bool Lia Lqa Arith.
From Stdlib Require Import DecimalString Sorted Permutation.
Import ListNotations.

Local Open Scope string_scope.
Local Open Scope list_scope.
Local Open Scope Z_scope.

(** ** JavaScript values used by the sources *)

Module Js.

(** A thrown [Error]: the sources inspect [name] and [message] only. *)
Record Error := mkError { name : string; message : string }.

Definition newError (msg : string) : Error := mkError "Error" msg.
Definition newTypeError (msg : string) : Error := mkError "TypeError" msg.

(** The outcome of an expression that may throw. *)
Inductive Result (A : Type) : Type :=
| Ok (a : A)
| Throw (e : Error).
Arguments Ok {A} a.
Arguments Throw {A} e.

(** Truthiness of a possibly-undefined string: [undefined] and the empty
    string are falsy. *)
Definition truthy (s : option string) : bool :=
  match s with
  | Some (String _ _) => true
  | _ => false
  end.

(** [s || d] on possibly-undefined strings. *)
Definition orElse (s : option string) (d : string) : string :=
  if truthy s then match s with Some v => v | None => d end else d.

(** [String.prototype.length], as an integer. *)
Definition len (s : string) : Z := Z.of_nat (String.length s).

(** [String.prototype.toLowerCase] on code units below 256: the letters
    [A]-[Z] and the capital letters of Latin-1 (U+00C0-U+00DE but the
    multiplication sign U+00D7) have their lower-case letter 32 places
    further; every other code unit of that range is kept. *)
Definition lowerChar (c : ascii) : ascii :=
  let n := nat_of_ascii c in
  if ((65 <=? n)%nat && (n <=? 90)%nat)
     || ((192 <=? n)%nat && (n <=? 222)%nat && negb (n =? 215)%nat)
  then ascii_of_nat (n + 32) else c.

Fixpoint toLowerCase (s : string) : string :=
  match s with
  | EmptyString => EmptyString
  | String c r => String (lowerChar c) (toLowerCase r)
  end.

(** [s.startsWith(p)]. *)
Fixpoint startsWith (p s : string) : bool :=
  match p, s with
  | EmptyString, _ => true
  | String a p', String b s' => Ascii.eqb a b && startsWith p' s'
  | String _ _, EmptyString => false
  end.

(** [s.indexOf(p)]: the least position at which [p] occurs, or [-1].
    [i] is the position of [s] inside the string being scanned. *)
Fixpoint indexOfFrom (p s : string) (i : Z) : Z :=
  if startsWith p s then i
  else match s with
       | EmptyString => -1
       | String _ s' => indexOfFrom p s' (i + 1)
       end.

Definition indexOf (s p : string) : Z := indexOfFrom p s 0.

(** [s.includes(p)]. *)
Definition includes (s p : string) : bool := negb (indexOf s p =? -1).

(** [s.substring(a, b)]: both arguments are clamped to [0, length] and
    swapped when out of order. *)
Definition clamp (s : string) (i : Z) : Z := Z.max 0 (Z.min i (len s)).

Definition substring (s : string) (a b : Z) : string :=
  let lo := Z.min (clamp s a) (clamp s b) in
  let hi := Z.max (clamp s a) (clamp s b) in
  String.substring (Z.to_nat lo) (Z.to_nat (hi - lo)) s.

(** White space and line terminators removed by [String.prototype.trim],
    among the code units below 256: tab, line feed, vertical tab, form
    feed, carriage return, space and the no-break space U+00A0. *)
Definition isSpace (c : ascii) : bool :=
  let n := nat_of_ascii c in
  ((9 <=? n)%nat && (n <=? 13)%nat) || (n =? 32)%nat || (n =? 160)%nat.

Fixpoint trimStart (s : string) : string :=
  match s with
  | String c r => if isSpace c then trimStart r else s
  | EmptyString => EmptyString
  end.

(** [trimEnd] keeps a character when it is not a space or when something
    is kept after it. *)
Fixpoint trimEnd (s : string) : string :=
  match s with
  | EmptyString => EmptyString
  | String c r =>
      match trimEnd r with
      | EmptyString => if isSpace c then EmptyString else String c EmptyString
      | r' => String c r'
      end
  end.

Definition trim (s : string) : string := trimEnd (trimStart s).

(** [Array.prototype.join(sep)] on an array of strings. *)
Fixpoint join (sep : string) (xs : list string) : string :=
  match xs with
  | [] => EmptyString
  | [x] => x
  | x :: rest => x ++ sep ++ join sep rest
  end.

(** The line feed character, ["\n"]. *)
Definition LF : string := String (ascii_of_nat 10) EmptyString.

End Js.

Import Js.

(** ** lib/aws/textract.ts *)

Module Textract.

(** The fields of a Textract [Block] that the code reads. *)
Record Block := mkBlock { BlockType : option string; Text : option string }.

(** The fields of a [GetDocumentTextDetection] response that the code
    reads. *)
Record GetResponse := mkGetResponse {
  JobStatus : option string;
  Blocks : option (list Block);
  NextToken : option string
}.

(** What lies outside the process: [process.env], the OCR service and the
    timing of the calls. [sendGet n] is the service's answer to the [n]-th
    [GetDocumentTextDetection] call of the run; [getLatency n] is the time
    that call takes and [timerLag k] the lateness of the [k]-th timer. *)
Record Env := mkEnv {
  AWS_REGION : option string;
  AWS_ACCESS_KEY_ID : option string;
  AWS_SECRET_ACCESS_KEY : option string;
  AWS_S3_BUCKET_NAME : option string;
  sendStart : string -> string -> Result (option string);
  startLatency : Z;
  sendGet : nat -> string -> option string -> Result GetResponse;
  getLatency : nat -> Z;
  timerLag : nat -> Z
}.

(** The mutable state a run reads and writes: the clock ([Date.now()], in
    milliseconds), the module-level [textractClient] singleton, the number
    of [GetDocumentTextDetection] calls made and the delays passed to
    [setTimeout], oldest first. *)
Record World := mkWorld {
  now : Z;
  textractClient : bool;
  calls : nat;
  waits : list Q
}.

(** Computations over the world that may throw; [None] is a loop that was
    cut off by lack of fuel. *)
Definition M (A : Type) : Type := World -> option (Result A * World).

Definition ret {A} (a : A) : M A := fun w => Some (Ok a, w).
Definition throw {A} (e : Error) : M A := fun w => Some (Throw e, w).
Definition outOfFuel {A} : M A := fun _ => None.

Definition bind {A B} (m : M A) (k : A -> M B) : M B :=
  fun w =>
    match m w with
    | None => None
    | Some (Ok a, w') => k a w'
    | Some (Throw e, w') => Some (Throw e, w')
    end.

Definition tryCatch {A} (m : M A) (h : Error -> M A) : M A :=
  fun w =>
    match m w with
    | None => None
    | Some (Ok a, w') => Some (Ok a, w')
    | Some (Throw e, w') => h e w'
    end.

Notation "x <- m ;; k" := (bind m (fun x => k))
  (at level 61, m at next level, right associativity).
Notation "m ;;; k" := (bind m (fun _ => k))
  (at level 61, right associativity).

(** [Date.now()]. *)
Definition dateNow : M Z := fun w => Some (Ok (now w), w).

(** [await new Promise(resolve => setTimeout(resolve, ms))]: the timer
    truncates the delay to whole milliseconds and fires no earlier. *)
Definition sleep (env : Env) (ms : Q) : M unit :=
  fun w =>
    Some (Ok tt,
          mkWorld (now w + Qfloor ms + timerLag env (length (waits w)))
                  (textractClient w) (calls w) (waits w ++ [ms])).

(** [client.send(new GetDocumentTextDetectionCommand({JobId, NextToken}))]. *)
Definition sendGetCommand (env : Env) (jobId : string) (tok : option string)
  : M GetResponse :=
  fun w =>
    Some (sendGet env (calls w) jobId tok,
          mkWorld (now w + getLatency env (calls w))
                  (textractClient w) (S (calls w)) (waits w)).

(** [client.send(new StartDocumentTextDetectionCommand(...))]. *)
Definition sendStartCommand (env : Env) (bucket key : string)
  : M (option string) :=
  fun w =>
    Some (sendStart env bucket key,
          mkWorld (now w + startLatency env)
                  (textractClient w) (calls w) (waits w)).

Definition getTextractClient (env : Env) : M unit :=
  fun w =>
    if textractClient w then Some (Ok tt, w)
    else if negb (truthy (AWS_REGION env))
            || negb (truthy (AWS_ACCESS_KEY_ID env))
            || negb (truthy (AWS_SECRET_ACCESS_KEY env))
    then Some (Throw (newError "Missing AWS credentials. Please set AWS_REGION, AWS_ACCESS_KEY_ID, and AWS_SECRET_ACCESS_KEY environment variables."), w)
    else Some (Ok tt, mkWorld (now w) true (calls w) (waits w)).

Definition startTextExtraction (env : Env) (s3Key : string) : M string :=
  tryCatch
    (let bucket := AWS_S3_BUCKET_NAME env in
     (if truthy bucket then ret tt
      else throw (newError "AWS_S3_BUCKET_NAME environment variable is not set")) ;;;
     getTextractClient env ;;;
     JobId <- sendStartCommand env (orElse bucket "") s3Key ;;
     if truthy JobId then ret (orElse JobId "")
     else throw (newError "No JobId returned from StartDocumentTextDetection"))
    (fun error =>
       if String.eqb (name error) "ThrottlingException" then
         throw (newError "AWS Textract is throttled. Please try again later.")
       else if String.eqb (name error) "DocumentTooLargeException" then
         throw (newError "PDF document is too large for Textract processing.")
       else if String.eqb (name error) "InvalidS3ObjectException" then
         throw (newError "Invalid S3 object. Please check the bucket and key.")
       else
         throw (newError ("Failed to start text extraction: " ++ message error))).

(** The object [getTextExtractionStatus] resolves to. *)
Record StatusResult := mkStatusResult {
  status : string;
  blocks : option (list Block);
  nextToken : option string
}.

Definition getTextExtractionStatus (env : Env) (jobId : string)
  : M StatusResult :=
  tryCatch
    (getTextractClient env ;;;
     response <- sendGetCommand env jobId None ;;
     ret (mkStatusResult (orElse (JobStatus response) "UNKNOWN")
                         (Blocks response) (NextToken response)))
    (fun error =>
       throw (newError ("Failed to get text extraction status: "
                        ++ message error))).

Definition isLine (block : Block) : bool :=
  match BlockType block with
  | Some t => String.eqb t "LINE"
  | None => false
  end.

(** [blocks] is [None] when the caller passes a falsy value. *)
Definition extractTextFromBlocks (blocks : option (list Block)) : string :=
  match blocks with
  | None => ""
  | Some bs =>
      join LF (map (fun block => orElse (Text block) "") (filter isLine bs))
  end.

(** The local variables of [processDocument] that the poll loop updates. *)
Record Locals := mkLocals {
  l_status : string;
  l_allBlocks : list Block;
  l_nextToken : option string;
  l_pollCount : Z;
  l_backoffMs : Q
}.

Definition maxBackoffMs : Q := 30000 # 1.
Definition timeoutMs : Z := 5 * 60 * 1000.

Definition concatBlocks (acc : list Block) (bs : option (list Block))
  : list Block :=
  match bs with
  | Some l => acc ++ l
  | None => acc
  end.

(** The inner [while (nextToken)] loop. *)
Fixpoint pageLoop (fuel : nat) (env : Env) (jobId : string) (l : Locals)
  : M Locals :=
  if truthy (l_nextToken l) then
    match fuel with
    | O => outOfFuel
    | S fuel' =>
        getTextractClient env ;;;
        response <- sendGetCommand env jobId (l_nextToken l) ;;
        pageLoop fuel' env jobId
          (mkLocals (l_status l)
                    (concatBlocks (l_allBlocks l) (Blocks response))
                    (NextToken response)
                    (l_pollCount l) (l_backoffMs l))
    end
  else ret l.

(** The outer [while (status === "IN_PROGRESS")] loop. *)
Fixpoint pollLoop (fuel : nat) (env : Env) (jobId : string) (startTime : Z)
  (l : Locals) : M Locals :=
  if String.eqb (l_status l) "IN_PROGRESS" then
    match fuel with
    | O => outOfFuel
    | S fuel' =>
        t <- dateNow ;;
        if t - startTime >? timeoutMs then
          throw (newError "Text extraction timed out after 5 minutes. Document may be too large.")
        else
          sleep env (l_backoffMs l) ;;;
          result <- getTextExtractionStatus env jobId ;;
          l' <- pageLoop fuel env jobId
                  (mkLocals (status result)
                            (concatBlocks (l_allBlocks l) (blocks result))
                            (nextToken result)
                            (l_pollCount l + 1)
                            (Qmin (l_backoffMs l * (3 # 2)) maxBackoffMs)) ;;
          pollLoop fuel' env jobId startTime l'
    end
  else ret l.

Definition processDocument (fuel : nat) (env : Env) (s3Key : string)
  : M string :=
  tryCatch
    (jobId <- startTextExtraction env s3Key ;;
     startTime <- dateNow ;;
     l <- pollLoop fuel env jobId startTime
            (mkLocals "IN_PROGRESS" [] None 0 (2000 # 1)) ;;
     if String.eqb (l_status l) "FAILED" then
       throw (newError "Textract job failed. Please check the PDF and try again.")
     else
       ret (extractTextFromBlocks (Some (l_allBlocks l))))
    (fun error =>
       throw (newError ("Failed to process document: " ++ message error))).

End Textract.

(** ** lib/database/mongodb.ts and lib/storage/mongodb-metadata.ts *)

Module Store.

(** ["processing" | "completed" | "failed"]. *)
Inductive Status := processing | completed | failed.

Definition Status_eqb (a b : Status) : bool :=
  match a, b with
  | processing, processing | completed, completed | failed, failed => true
  | _, _ => false
  end.

Record PDFMetadata := mkPDFMetadata {
  id : string;
  filename : string;
  extractedText : string;
  uploadedAt : string;
  textractJobId : option string;
  status : Status
}.

(** [PDFMetadataDocument]: the fields of [PDFMetadata] and the driver's
    [_id]. *)
Record PDFMetadataDocument := mkDocument {
  _id : option N;
  fields : PDFMetadata
}.

(** [Partial<PDFMetadata>]: a field is [Some] when the caller supplies
    it. *)
Record Partial := mkPartial {
  p_id : option string;
  p_filename : option string;
  p_extractedText : option string;
  p_uploadedAt : option string;
  p_textractJobId : option string;
  p_status : option Status
}.

(** The two matching mechanisms of the database server, which the sources
    only name: [textMatch q t] is the [$text] operator ([$search: q]) on a
    document whose [extractedText] is [t]; [regexCompile q] is the
    predicate of [$regex: q] with [$options: "i"], or [None] when the
    server refuses [q] as a pattern. *)
Record Engine := mkEngine {
  textMatch : string -> string -> bool;
  regexCompile : string -> option (string -> bool)
}.

(** The database as the process sees it: [process.env.MONGODB_URI], the
    outcome of [new MongoClient(MONGODB_URI)] (the driver parses the
    connection string in the constructor and throws on one it cannot
    read), the outcome of [client.connect()], the module-level [client] and
    [db] singletons, whether the collection has its text index, and the
    documents of the [pdf_metadata] collection in natural order. *)
Record Db := mkDb {
  MONGODB_URI : option string;
  constructOutcome : Result unit;
  connectOutcome : Result unit;
  client : bool;
  db : bool;
  textIndex : bool;
  documents : list PDFMetadataDocument
}.

Definition getConnectionString (d : Db) : Result string :=
  if truthy (MONGODB_URI d) then Ok (orElse (MONGODB_URI d) "")
  else Throw (newError "Missing MongoDB connection string. Please set MONGODB_URI environment variable.").

Definition getMongoClient (d : Db) : Result unit * Db :=
  if client d then (Ok tt, d)
  else
    match getConnectionString d with
    | Throw error =>
        (Throw (newError ("Failed to connect to MongoDB: " ++ message error)), d)
    | Ok _ =>
        match constructOutcome d with
        | Throw error =>
            (* the constructor threw: [client] is not assigned *)
            (Throw (newError ("Failed to connect to MongoDB: " ++ message error)), d)
        | Ok _ =>
            (* [client] is assigned before [connect()] is awaited *)
            let d' := mkDb (MONGODB_URI d) (constructOutcome d) (connectOutcome d)
                           true (db d) (textIndex d) (documents d) in
            match connectOutcome d with
            | Ok _ => (Ok tt, d')
            | Throw error =>
                (Throw (newError ("Failed to connect to MongoDB: " ++ message error)), d')
            end
        end
    end.

Definition getDatabase (d : Db) : Result unit * Db :=
  if db d then (Ok tt, d)
  else
    match getMongoClient d with
    | (Ok _, d') =>
        (Ok tt, mkDb (MONGODB_URI d') (constructOutcome d') (connectOutcome d')
                     (client d') true (textIndex d') (documents d'))
    | (Throw e, d') => (Throw e, d')
    end.

(** [getCollection] and [getMetadataCollection]. *)
Definition getMetadataCollection (d : Db) : Result unit * Db := getDatabase d.

Definition withDocuments (d : Db) (docs : list PDFMetadataDocument) : Db :=
  mkDb (MONGODB_URI d) (constructOutcome d) (connectOutcome d) (client d) (db d)
       (textIndex d) docs.

(** [const { id: _, ...updateFields } = updates]. *)
Definition omitId (updates : Partial) : Partial :=
  mkPartial None (p_filename updates) (p_extractedText updates)
            (p_uploadedAt updates) (p_textractJobId updates) (p_status updates).

Definition pick {A} (new : option A) (old : A) : A :=
  match new with Some v => v | None => old end.

(** [{ $set: updateFields }] applied to one document. *)
Definition applySet (updateFields : Partial) (doc : PDFMetadataDocument)
  : PDFMetadataDocument :=
  let m := fields doc in
  mkDocument (_id doc)
    (mkPDFMetadata
       (pick (p_id updateFields) (id m))
       (pick (p_filename updateFields) (filename m))
       (pick (p_extractedText updateFields) (extractedText m))
       (pick (p_uploadedAt updateFields) (uploadedAt m))
       (match p_textractJobId updateFields with
        | Some j => Some j
        | None => textractJobId m
        end)
       (pick (p_status updateFields) (status m))).

(** [collection.findOneAndUpdate({ id }, update, { returnDocument: "after" })]:
    the first document whose [id] is the given one is updated and returned;
    without one the collection is left alone and the result is [null]. *)
Fixpoint findOneAndUpdate (i : string) (update : PDFMetadataDocument -> PDFMetadataDocument)
  (docs : list PDFMetadataDocument)
  : option PDFMetadataDocument * list PDFMetadataDocument :=
  match docs with
  | [] => (None, [])
  | doc :: rest =>
      if String.eqb (id (fields doc)) i then (Some (update doc), update doc :: rest)
      else let (r, rest') := findOneAndUpdate i update rest in (r, doc :: rest')
  end.

Definition wrap {A} (prefix : string) (r : Result A) : Result A :=
  match r with
  | Ok a => Ok a
  | Throw error => Throw (newError (prefix ++ message error))
  end.

(** Every operation of the driver needs the server: on a client whose
    connection cannot be established it throws the connection error. *)
Definition serverReached (d : Db) : Result unit := connectOutcome d.

Definition updatePDFMetadata (i : string) (updates : Partial) (d : Db)
  : Result (option PDFMetadata) * Db :=
  match getMetadataCollection d with
  | (Throw e, d') =>
      (wrap "Failed to update PDF metadata in MongoDB: " (Throw e), d')
  | (Ok _, d') =>
      let updateFields := omitId updates in
      match serverReached d' with
      | Throw e =>
          (wrap "Failed to update PDF metadata in MongoDB: " (Throw e), d')
      | Ok _ =>
          let (result, docs') :=
            findOneAndUpdate i (applySet updateFields) (documents d') in
          match result with
          | None => (Ok None, withDocuments d' docs')
          | Some r => (Ok (Some (fields r)), withDocuments d' docs')
          end
      end
  end.

Definition isCompleted (doc : PDFMetadataDocument) : bool :=
  Status_eqb (status (fields doc)) completed.

(** [collection.find({ $and: [{ status: "completed" }, { $text: { $search: query } }] })]:
    the server refuses a [$text] query on a collection without a text
    index. *)
Definition findText (eng : Engine) (query : string) (d : Db)
  : Result (list PDFMetadataDocument) :=
  match serverReached d with
  | Throw e => Throw e
  | Ok _ =>
      if textIndex d then
        Ok (filter (fun doc => isCompleted doc
                               && textMatch eng query (extractedText (fields doc)))
                   (documents d))
      else Throw (mkError "MongoServerError" "text index required for $text query")
  end.

(** [collection.find({ $and: [{ status: "completed" },
    { extractedText: { $regex: query, $options: "i" } }] })]. *)
Definition findRegex (eng : Engine) (query : string) (d : Db)
  : Result (list PDFMetadataDocument) :=
  match serverReached d with
  | Throw e => Throw e
  | Ok _ =>
      match regexCompile eng query with
      | Some test =>
          Ok (filter (fun doc => isCompleted doc
                                 && test (extractedText (fields doc)))
                     (documents d))
      | None => Throw (mkError "MongoServerError" "Regular expression is invalid")
      end
  end.

Definition searchMetadata (eng : Engine) (query : string) (d : Db)
  : Result (list PDFMetadata) * Db :=
  match getMetadataCollection d with
  | (Throw e, d') =>
      (wrap "Failed to search metadata in MongoDB: " (Throw e), d')
  | (Ok _, d') =>
      (* first try text search; a failure leaves [documents] empty *)
      let documents0 :=
        match findText eng query d' with
        | Ok docs => docs
        | Throw textSearchError => []
        end in
      (* if text search returned no results, try regex search *)
      let documents1 :=
        if Z.of_nat (length documents0) =? 0 then findRegex eng query d'
        else Ok documents0 in
      match documents1 with
      | Ok docs => (Ok (map fields docs), d')
      | Throw e =>
          (wrap "Failed to search metadata in MongoDB: " (Throw e), d')
      end
  end.

End Store.

(** ** app/api/search/route.ts *)

Module SearchRoute.

Record SearchResult := mkSearchResult {
  id : string;
  filename : string;
  uploadedAt : string;
  matchPreview : string;
  extractedText : string
}.

(** The preview computed in the callback of [results.map]: up to 50
    characters on each side of the first match. On [string] lower-casing
    keeps every position; [Utf16.previewOf] is the same computation on all
    strings. *)
Definition previewOf (query text : string) : string :=
  let lowerText := toLowerCase text in
  let lowerQuery := toLowerCase query in
  let matchIndex := indexOf lowerText lowerQuery in
  if negb (matchIndex =? -1) then
    let start := Z.max 0 (matchIndex - 50) in
    let end_ := Z.min (len text) (matchIndex + len query + 50) in
    substring text start end_
  else "".

Definition formatResult (query : string) (result : Store.PDFMetadata)
  : SearchResult :=
  mkSearchResult (Store.id result) (Store.filename result)
                 (Store.uploadedAt result)
                 (previewOf query (Store.extractedText result))
                 (Store.extractedText result).

(** [NextResponse.json(body, { status })]. *)
Inductive Response :=
| BadRequest (error : string)
| Found (query : string) (results : list SearchResult) (totalResults : Z)
| ServerError (error : string).

(** What a request leaves behind: the response, the queries handed to
    [searchMetadata] (oldest first) and the database. *)
Record Outcome := mkOutcome {
  response : Response;
  storeQueries : list string;
  dbAfter : Store.Db
}.

(** [GET]. [query] is [searchParams.get("q")], [None] for [null];
    [sortResults] is the in-place [formattedResults.sort(...)], whose order
    depends on the platform's date parsing. *)
Definition GET (eng : Store.Engine)
  (sortResults : string -> list SearchResult -> list SearchResult)
  (query : option string) (d : Store.Db) : Outcome :=
  if negb (truthy query) || (len (trim (orElse query "")) <? 2) then
    mkOutcome (BadRequest "Query must be at least 2 characters") [] d
  else
    let q := orElse query "" in
    match Store.searchMetadata eng q d with
    | (Ok results, d') =>
        let formattedResults := sortResults q (map (formatResult q) results) in
        mkOutcome (Found q formattedResults (Z.of_nat (length formattedResults)))
                  [q] d'
    | (Throw error, d') =>
        mkOutcome (ServerError (message error)) [q] d'
    end.

End SearchRoute.

(** ** app/api/upload/process/route.ts *)

Module ProcessRoute.

(** The two properties read from the parsed request body. *)
Record Body := mkBody { b_id : option string; b_s3Key : option string }.

(** What the handler calls: [payload] is what the first [request.json()]
    resolves or rejects with, [processDocument] the outcome of the
    extraction for a key, [sendDelete] the outcome of the body of
    [deleteFromS3]. [bodyless] tells that the request came without body
    ([request.body] is [null]): [payload] is then the error of parsing the
    empty input. It is read only when [payload] is an error, since a body
    that parses was sent. *)
Record Env := mkEnv {
  payload : Result Body;
  bodyless : bool;
  processDocument : string -> Result string;
  sendDelete : string -> Result unit
}.

(** The state the handler changes: whether the body stream of the request
    has been read, the database, the keys deleted from the object store and
    the lines written to the console. *)
Record World := mkWorld {
  bodyUsed : bool;
  db : Store.Db;
  deleted : list string;
  console : list string
}.

Definition H (A : Type) : Type := World -> Result A * World.

Definition ret {A} (a : A) : H A := fun w => (Ok a, w).
Definition bind {A B} (m : H A) (k : A -> H B) : H B :=
  fun w =>
    match m w with
    | (Ok a, w') => k a w'
    | (Throw e, w') => (Throw e, w')
    end.
Definition catch {A} (m : H A) (h : Error -> H A) : H A :=
  fun w =>
    match m w with
    | (Ok a, w') => (Ok a, w')
    | (Throw e, w') => h e w'
    end.

Notation "x <- m ;; k" := (bind m (fun x => k))
  (at level 61, m at next level, right associativity).
Notation "m ;;; k" := (bind m (fun _ => k))
  (at level 61, right associativity).

Definition log (line : string) : H unit :=
  fun w => (Ok tt, mkWorld (bodyUsed w) (db w) (deleted w) (console w ++ [line])).

(** [request.json()]: the body of a request is a stream that can be read
    once; reading it again rejects with a [TypeError]. A request without
    body has no stream to consume: it is never marked as read, and every
    [json()] parses the empty input and rejects with the same error. *)
Definition requestJson (env : Env) : H Body :=
  fun w =>
    if bodyUsed w then
      (Throw (newTypeError "Body is unusable: Body has already been read"), w)
    else
      match payload env with
      | Ok body => (Ok body, mkWorld true (db w) (deleted w) (console w))
      | Throw error =>
          if bodyless env then (Throw error, w)
          else (Throw error, mkWorld true (db w) (deleted w) (console w))
      end.

Definition awaitProcessDocument (env : Env) (s3Key : string) : H string :=
  fun w => (processDocument env s3Key, w).

Definition deleteFromS3 (env : Env) (key : string) : H unit :=
  fun w =>
    match sendDelete env key with
    | Ok _ => (Ok tt, mkWorld (bodyUsed w) (db w) (deleted w ++ [key]) (console w))
    | Throw error =>
        (Throw (newError ("Failed to delete file from S3: " ++ message error)), w)
    end.

Definition updatePDFMetadata (i : string) (updates : Store.Partial)
  : H (option Store.PDFMetadata) :=
  fun w =>
    let (r, d') := Store.updatePDFMetadata i updates (db w) in
    (r, mkWorld (bodyUsed w) d' (deleted w) (console w)).

Inductive Response :=
| BadRequest (error : string)
| Success (id : string) (extractedTextLength : Z)
| ServerError (error : string).

(** The [try] block of [POST]. *)
Definition tryBlock (env : Env) : H Response :=
  body <- requestJson env ;;
  let id := b_id body in
  let s3Key := b_s3Key body in
  if negb (truthy id) || negb (truthy s3Key) then
    ret (BadRequest "Missing id or s3Key")
  else
    extractedText <- awaitProcessDocument env (orElse s3Key "") ;;
    catch (deleteFromS3 env (orElse s3Key "") ;;;
           log ("Deleted temporary PDF from S3: " ++ orElse s3Key ""))
          (fun deleteError =>
             log ("Failed to delete PDF from S3: " ++ message deleteError)) ;;;
    updatePDFMetadata (orElse id "")
      (Store.mkPartial None None (Some extractedText) None None
                       (Some Store.completed)) ;;;
    ret (Success (orElse id "") (len extractedText)).

(** The [catch (error)] block of [POST]. *)
Definition catchBlock (env : Env) (error : Error) : H Response :=
  log ("Error processing document: " ++ message error) ;;;
  body <- requestJson env ;;
  let id := b_id body in
  let s3Key := b_s3Key body in
  (if truthy id then
     catch (updatePDFMetadata (orElse id "")
              (Store.mkPartial None None None None None (Some Store.failed)) ;;;
            ret tt)
           (fun err => log ("Failed to update metadata: " ++ message err))
   else ret tt) ;;;
  (if truthy s3Key then
     catch (deleteFromS3 env (orElse s3Key ""))
           (fun deleteError =>
              log ("Failed to delete PDF from S3 after error: "
                   ++ message deleteError))
   else ret tt) ;;;
  ret (ServerError (message error)).

(** How the promise returned by [POST] settles. *)
Inductive Settled :=
| Resolved (r : Response)
| Rejected (e : Error).

Definition POST (env : Env) (w : World) : Settled * World :=
  match tryBlock env w with
  | (Ok r, w') => (Resolved r, w')
  | (Throw error, w1) =>
      match catchBlock env error w1 with
      | (Ok r, w') => (Resolved r, w')
      | (Throw e, w') => (Rejected e, w')
      end
  end.

End ProcessRoute.

(** ** Notions of the specification *)

Module Spec.

Import Textract.

(** Assembly of the final text as the specification words it: the
    fragments are taken in arrival order, a fragment that is not a text
    line is dropped, and a newline stands between a line and the lines
    that follow it. *)
Fixpoint assembleText (fragments : list Block) : string :=
  match fragments with
  | [] => ""
  | fragment :: later =>
      if isLine fragment then
        if existsb isLine later
        then orElse (Text fragment) "" ++ LF ++ assembleText later
        else orElse (Text fragment) ""
      else assembleText later
  end.

(** The backoff schedule: base 2000 ms, factor 1.5, cap 30000 ms. *)
Fixpoint backoffSchedule (k : nat) : Q :=
  match k with
  | O => 2000 # 1
  | S k' => Qmin (backoffSchedule k' * (3 # 2)) (30000 # 1)
  end.

(** A computation that sets no timer. *)
Definition keepsWaits {A} (m : M A) : Prop :=
  forall w r w', m w = Some (r, w') -> waits w' = waits w.

(** The error the poll loop throws when the ceiling is exceeded. *)
Definition timedOut : Error :=
  newError "Text extraction timed out after 5 minutes. Document may be too large.".

(** [p] occurs in [s] at position [i]. *)
Definition occursAt (p s : string) (i : Z) : Prop :=
  exists before after, s = (before ++ p ++ after)%string /\ len before = i.

(** [p] occurs in [s] when case is ignored. *)
Definition occursIgnoringCase (p s : string) : Prop :=
  exists i, occursAt (toLowerCase p) (toLowerCase s) i.

End Spec.

(** ** A fragment of the server's pattern language

  Patterns made of ordinary characters and of [.], matched anywhere in the
  subject without regard to case. Every other pattern is outside this
  fragment and is reported as refused. *)

Module Regex.

Inductive Atom := Lit (c : ascii) | AnyChar.

(** The characters with a special meaning in a pattern. *)
Definition isMeta (c : ascii) : bool :=
  existsb (Ascii.eqb c)
    (list_ascii_of_string "\^$.|?*+()[]{}").

Fixpoint plain (q : string) : bool :=
  match q with
  | EmptyString => true
  | String c r => negb (isMeta c) && plain r
  end.

Fixpoint parse (q : string) : option (list Atom) :=
  match q with
  | EmptyString => Some []
  | String c r =>
      match parse r with
      | None => None
      | Some atoms =>
          if Ascii.eqb c "." then Some (AnyChar :: atoms)
          else if isMeta c then None
          else Some (Lit c :: atoms)
      end
  end.

Definition atomMatches (a : Atom) (x : ascii) : bool :=
  match a with
  | Lit c => Ascii.eqb (lowerChar c) (lowerChar x)
  | AnyChar => negb (Ascii.eqb x (ascii_of_nat 10))
  end.

Fixpoint matchesHere (atoms : list Atom) (s : string) : bool :=
  match atoms, s with
  | [], _ => true
  | a :: atoms', String x s' => atomMatches a x && matchesHere atoms' s'
  | _ :: _, EmptyString => false
  end.

Fixpoint search (atoms : list Atom) (s : string) : bool :=
  if matchesHere atoms s then true
  else match s with
       | EmptyString => false
       | String _ s' => search atoms s'
       end.

Definition compile (q : string) : option (string -> bool) :=
  option_map search (parse q).

(** What every pattern language in use guarantees: a pattern without
    special characters is accepted and matches the subjects that contain
    it, case ignored. *)
Definition literalOnPlain (regexCompile : string -> option (string -> bool))
  : Prop :=
  forall q, plain q = true ->
    exists test,
      regexCompile q = Some test
      /\ forall t, test t = true <-> Spec.occursIgnoringCase q t.

End Regex.

(** ** Sample inputs *)

Module Sample.

(** Words of a text: maximal runs of letters and digits, in lower case. *)
Definition isWordChar (c : ascii) : bool :=
  let n := nat_of_ascii (lowerChar c) in
  ((97 <=? n)%nat && (n <=? 122)%nat) || ((48 <=? n)%nat && (n <=? 57)%nat).

Fixpoint wordsFrom (current : string) (s : string) : list string :=
  match s with
  | EmptyString => match current with EmptyString => [] | _ => [current] end
  | String c r =>
      if isWordChar c
      then wordsFrom (current ++ String (lowerChar c) EmptyString) r
      else match current with
           | EmptyString => wordsFrom EmptyString r
           | _ => current :: wordsFrom EmptyString r
           end
  end.

Definition words (s : string) : list string := wordsFrom EmptyString s.

(** A text index that matches a document when it shares a word with the
    query. *)
Definition wordMatch (query text : string) : bool :=
  existsb (fun w => existsb (String.eqb w) (words text)) (words query).

Definition engine : Store.Engine := Store.mkEngine wordMatch Regex.compile.

Definition record (i name text : string) (s : Store.Status)
  : Store.PDFMetadataDocument :=
  Store.mkDocument None
    (Store.mkPDFMetadata i name text "2024-01-01T00:00:00.000Z" None s).

Definition database (docs : list Store.PDFMetadataDocument) : Store.Db :=
  Store.mkDb (Some "mongodb://localhost:27017/pdf_extractor") (Ok tt) (Ok tt)
             true true true docs.

Definition library : Store.Db :=
  database
    [ record "d1" "a.pdf" "abc" Store.completed;
      record "d2" "b.pdf" "say Hello World example" Store.completed;
      record "d3" "c.pdf" "Hello World draft" Store.processing;
      record "d4" "d.pdf" "" Store.failed ].

Definition line (t : string) : Textract.Block :=
  Textract.mkBlock (Some "LINE") (Some t).

Definition page : Textract.Block := Textract.mkBlock (Some "PAGE") None.

(** A service whose [n]-th answer is [answers n]. *)
Definition service (answers : nat -> Textract.GetResponse) : Textract.Env :=
  Textract.mkEnv (Some "us-east-1") (Some "key") (Some "secret")
    (Some "bucket") (fun _ _ => Ok (Some "job-1")) 120
    (fun n _ _ => Ok (answers n)) (fun _ => 80) (fun _ => 1).


(** In progress for ever, with a one-line page at every poll. *)
Definition stuck : Textract.Env :=
  service (fun _ =>
    Textract.mkGetResponse (Some "IN_PROGRESS") (Some [line "partial"]) None).


Definition world0 : Textract.World := Textract.mkWorld 1000 false 0 [].

(** A request for document [d3] whose extraction fails. *)
Definition failingRequest : ProcessRoute.Env :=
  ProcessRoute.mkEnv
    (Ok (ProcessRoute.mkBody (Some "d3") (Some "temp-pdfs/1-c.pdf"))) false
    (fun _ => Throw (newError "Failed to process document: Textract job failed. Please check the PDF and try again."))
    (fun _ => Ok tt).

Definition freshRequest : ProcessRoute.World :=
  ProcessRoute.mkWorld false library [] [].

End Sample.

(** ** What a run receives and requests *)

Module Transcript.

Import Textract.

(** The blocks of the answers to the calls [a], [a + 1], ..., [b - 1], in
    that order. *)
Definition received (reply : nat -> GetResponse) (a b : nat) : list Block :=
  flat_map (fun n => concatBlocks [] (Blocks (reply n))) (seq a (b - a)).

(** The answer to the call [n] opens a chain of continuation pages that
    the answer to the call [m] closes: the answers from [n] up to [m - 1]
    carry a token and the answer [m] carries none. *)
Definition chain (reply : nat -> GetResponse) (n m : nat) : Prop :=
  (n <= m)%nat
  /\ (forall i, (n <= i < m)%nat -> truthy (NextToken (reply i)) = true)
  /\ truthy (NextToken (reply m)) = false.

(** The calls that ask for the status, when [first] is the first of them:
    the call that follows the pages of a status poll is the next status
    poll. Of these positions a run reaches the ones below its number of
    calls. *)
Inductive pollAt (reply : nat -> GetResponse) (first : nat) : nat -> Prop :=
| pollAt_first : pollAt reply first first
| pollAt_next n m :
    pollAt reply first n -> chain reply n m -> pollAt reply first (S m).

(** The whole milliseconds of [m] consecutive delays of the schedule, from
    the [k]-th on. *)
Fixpoint requested (k m : nat) : Z :=
  match m with
  | O => 0
  | S m' => Qfloor (Spec.backoffSchedule k) + requested (S k) m'
  end.

End Transcript.

(** ** More sample inputs *)

Module Scenario.

(** A service that refuses the submission with the given error. *)
Definition refusing (e : Error) : Textract.Env :=
  Textract.mkEnv (Some "us-east-1") (Some "key") (Some "secret")
    (Some "bucket") (fun _ _ => Throw e) 120
    (fun n _ _ => Ok (Textract.mkGetResponse (Some "SUCCEEDED") None None))
    (fun _ => 80) (fun _ => 1).

Definition throttled : Textract.Env :=
  refusing (mkError "ThrottlingException" "Rate exceeded").

(** One poll in progress, then FAILED. *)
Definition failing : Textract.Env :=
  Sample.service (fun n =>
    match n with
    | 0%nat => Textract.mkGetResponse (Some "IN_PROGRESS") None None
    | _ => Textract.mkGetResponse (Some "FAILED")
             (Some [Sample.line "half"]) None
    end).

(** A first poll in progress that already carries a line, then a
    succeeded poll of two pages. *)
Definition paged : Textract.Env :=
  Sample.service (fun n =>
    match n with
    | 0%nat => Textract.mkGetResponse (Some "IN_PROGRESS")
                 (Some [Sample.line "one"]) None
    | 1%nat => Textract.mkGetResponse (Some "SUCCEEDED")
                 (Some [Sample.page; Sample.line "two"]) (Some "t1")
    | _ => Textract.mkGetResponse None (Some [Sample.line "three"]) None
    end).

Definition ready : Textract.World := Textract.mkWorld 1000 true 0 [].

(** The answers of [Sample.stuck]. *)
Definition partialAnswers : nat -> Textract.GetResponse :=
  fun _ =>
    Textract.mkGetResponse (Some "IN_PROGRESS") (Some [Sample.line "partial"])
      None.

(** A service and timers without any delay of their own. *)
Definition instant (answers : nat -> Textract.GetResponse) : Textract.Env :=
  Textract.mkEnv (Some "us-east-1") (Some "key") (Some "secret")
    (Some "bucket") (fun _ _ => Ok (Some "job-1")) 0
    (fun n _ _ => Ok (answers n)) (fun _ => 0) (fun _ => 0).

(** Fourteen polls in progress, each with a line, the last of them answered
    274343 ms after the submission; the fifteenth poll, answered at
    304343 ms, reports the job as succeeded. *)
Definition lateSuccess : Textract.Env :=
  instant (fun n =>
    if (n <? 14)%nat
    then Textract.mkGetResponse (Some "IN_PROGRESS")
           (Some [Sample.line "partial"]) None
    else Textract.mkGetResponse (Some "SUCCEEDED")
           (Some [Sample.line "last"]) None).

(** A job in progress whose every answer announces a further page. *)
Definition endless : Textract.Env :=
  instant (fun _ =>
    Textract.mkGetResponse (Some "IN_PROGRESS") (Some [Sample.line "page"])
      (Some "more")).

(** A database whose server cannot be reached, before any connection. *)
Definition unreachable : Store.Db :=
  Store.mkDb (Some "mongodb://localhost:27017/pdf_extractor") (Ok tt)
             (Throw (mkError "MongoNetworkError" "connect ECONNREFUSED"))
             false false true (Store.documents Sample.library).

(** A request sent without body, and one whose body is not JSON. *)
Definition withoutBody : ProcessRoute.Env :=
  ProcessRoute.mkEnv (Throw (mkError "SyntaxError" "Unexpected end of JSON input"))
    true (fun _ => Ok "text") (fun _ => Ok tt).

Definition notJson : ProcessRoute.Env :=
  ProcessRoute.mkEnv (Throw (mkError "SyntaxError" "Unexpected token h in JSON at position 0"))
    false (fun _ => Ok "text") (fun _ => Ok tt).

(** A connection string without scheme, which the constructor of the
    client refuses. *)
Definition malformed : Store.Db :=
  Store.mkDb (Some "localhost")
             (Throw (mkError "MongoParseError" "Invalid scheme, expected connection string to start with mongodb:// or mongodb+srv://"))
             (Ok tt) false false true (Store.documents Sample.library).

(** The library in a collection that has no text index. *)
Definition unindexed : Store.Db :=
  Store.mkDb (Some "mongodb://localhost:27017/pdf_extractor") (Ok tt) (Ok tt)
             false false false (Store.documents Sample.library).

End Scenario.

(** ** State and errors, for the modules below *)

Module Eff.

(** A computation over a state [W] that returns or throws. *)
Definition E (W A : Type) : Type := W -> Result A * W.

Definition ret {W A} (a : A) : E W A := fun w => (Ok a, w).
Definition throw {W A} (e : Error) : E W A := fun w => (Throw e, w).

Definition bind {W A B} (m : E W A) (k : A -> E W B) : E W B :=
  fun w =>
    match m w with
    | (Ok a, w') => k a w'
    | (Throw e, w') => (Throw e, w')
    end.

Definition tryCatch {W A} (m : E W A) (h : Error -> E W A) : E W A :=
  fun w =>
    match m w with
    | (Ok a, w') => (Ok a, w')
    | (Throw e, w') => h e w'
    end.

Notation "x <- m ;; k" := (bind m (fun x => k))
  (at level 61, m at next level, right associativity).
Notation "m ;;; k" := (bind m (fun _ => k))
  (at level 61, right associativity).

End Eff.

(** ** lib/aws/s3.ts *)

Module S3.

Import Eff.

(** The commands the module builds, with the fields it sets. *)
Inductive Command :=
| PutObjectCommand (Bucket Key : string) (Body : option string) (ContentType : string)
| GetObjectCommand (Bucket Key : string)
| DeleteObjectCommand (Bucket Key : string).

(** What leaves the module: a command handed to the presigner with its
    [expiresIn], or a command sent to the service. *)
Inductive Event :=
| Signed (command : Command) (expiresIn : Z)
| Sent (command : Command).

(** [process.env], the presigner and the service. *)
Record Env := mkEnv {
  AWS_REGION : option string;
  AWS_ACCESS_KEY_ID : option string;
  AWS_SECRET_ACCESS_KEY : option string;
  AWS_S3_BUCKET_NAME : option string;
  getSignedUrl : Command -> Z -> Result string;
  send : Command -> Result unit
}.

(** The module-level [s3Client] singleton and the events so far, oldest
    first. *)
Record World := mkWorld {
  s3Client : bool;
  events : list Event
}.

Definition getS3Client (env : Env) : E World unit :=
  fun w =>
    if s3Client w then (Ok tt, w)
    else if negb (truthy (AWS_REGION env))
            || negb (truthy (AWS_ACCESS_KEY_ID env))
            || negb (truthy (AWS_SECRET_ACCESS_KEY env))
    then (Throw (newError "Missing AWS credentials. Please set AWS_REGION, AWS_ACCESS_KEY_ID, and AWS_SECRET_ACCESS_KEY environment variables."), w)
    else (Ok tt, mkWorld true (events w)).

(** [getSignedUrl(client, command, { expiresIn })]. *)
Definition sign (env : Env) (command : Command) (expiresIn : Z) : E World string :=
  fun w =>
    (getSignedUrl env command expiresIn,
     mkWorld (s3Client w) (events w ++ [Signed command expiresIn])).

(** [client.send(command)]. *)
Definition sendCommand (env : Env) (command : Command) : E World unit :=
  fun w => (send env command, mkWorld (s3Client w) (events w ++ [Sent command])).

(** The bucket name, or the error of a missing one. *)
Definition getBucket (env : Env) : E World string :=
  if truthy (AWS_S3_BUCKET_NAME env) then ret (orElse (AWS_S3_BUCKET_NAME env) "")
  else throw (newError "AWS_S3_BUCKET_NAME environment variable is not set").

Definition rethrow {A} (prefix : string) (error : Error) : E World A :=
  throw (newError (prefix ++ message error)).

Record PresignedUpload := mkPresignedUpload {
  url : string;
  key : string;
  bucket : string
}.

Definition generatePresignedUploadUrl (env : Env) (key contentType : string)
  : E World PresignedUpload :=
  tryCatch
    (bucket <- getBucket env ;;
     getS3Client env ;;;
     url <- sign env (PutObjectCommand bucket key None contentType) 300 ;;
     ret (mkPresignedUpload url key bucket))
    (rethrow "Failed to generate presigned upload URL: ").

Definition generatePresignedDownloadUrl (env : Env) (key : string)
  : E World string :=
  tryCatch
    (bucket <- getBucket env ;;
     getS3Client env ;;;
     url <- sign env (GetObjectCommand bucket key) 3600 ;;
     ret url)
    (rethrow "Failed to generate presigned download URL: ").

Definition uploadToS3 (env : Env) (key body contentType : string)
  : E World unit :=
  tryCatch
    (bucket <- getBucket env ;;
     getS3Client env ;;;
     sendCommand env (PutObjectCommand bucket key (Some body) contentType))
    (rethrow "Failed to upload file to S3: ").

Definition deleteFromS3 (env : Env) (key : string) : E World unit :=
  tryCatch
    (bucket <- getBucket env ;;
     getS3Client env ;;;
     sendCommand env (DeleteObjectCommand bucket key))
    (rethrow "Failed to delete file from S3: ").

End S3.

(** ** lib/storage/mongodb-metadata.ts: writing and listing *)

Module Catalog.

(** The collection with what the server keeps besides the documents: whether
    the unique index on [id] exists, and the next [_id] the driver gives to
    an inserted document. *)
Record Server := mkServer {
  base : Store.Db;
  idIndex : bool;
  nextObjectId : N
}.

Definition withBase (s : Server) (d : Store.Db) : Server :=
  mkServer d (idIndex s) (nextObjectId s).

Definition ids (docs : list Store.PDFMetadataDocument) : list string :=
  map (fun doc => Store.id (Store.fields doc)) docs.

Fixpoint distinct (l : list string) : bool :=
  match l with
  | [] => true
  | x :: rest => negb (existsb (String.eqb x) rest) && distinct rest
  end.

Definition withTextIndex (d : Store.Db) : Store.Db :=
  Store.mkDb (Store.MONGODB_URI d) (Store.constructOutcome d)
             (Store.connectOutcome d) (Store.client d)
             (Store.db d) true (Store.documents d).

(** [ensureIndexes]: the five [createIndex] calls sit in one [try] whose
    [catch] only logs. The first call builds the unique index on [id],
    which the server refuses while two documents share an [id]; the calls
    after it, the text index among them, are then skipped. *)
Definition ensureIndexes (s : Server) : Server :=
  match Store.getMetadataCollection (base s) with
  | (Throw _, d') => withBase s d'
  | (Ok _, d') =>
      match Store.serverReached d' with
      | Throw _ => withBase s d'
      | Ok _ =>
          if idIndex s || distinct (ids (Store.documents d')) then
            mkServer (withTextIndex d') true (nextObjectId s)
          else withBase s d'
      end
  end.

(** [collection.insertOne(document)]: the driver gives the document its
    [_id]; the server refuses a second document with the same [id] when the
    unique index exists. *)
Definition insertOne (document : Store.PDFMetadata) (s : Server)
  : Result unit * Server :=
  match Store.serverReached (base s) with
  | Throw e => (Throw e, s)
  | Ok _ =>
      if idIndex s
         && existsb (String.eqb (Store.id document))
                    (ids (Store.documents (base s)))
      then (Throw (mkError "MongoServerError" "E11000 duplicate key error collection: pdf_metadata index: id_1"), s)
      else
        (Ok tt,
         mkServer
           (Store.withDocuments (base s)
              (Store.documents (base s)
               ++ [Store.mkDocument (Some (nextObjectId s)) document]))
           (idIndex s) (N.succ (nextObjectId s)))
  end.

(** [collection.insertMany(documents)], ordered: the documents are inserted
    one after the other and the first refusal ends the operation, the
    documents before it staying inserted. *)
Fixpoint insertMany (documents : list Store.PDFMetadata) (s : Server)
  : Result unit * Server :=
  match documents with
  | [] => (Ok tt, s)
  | document :: rest =>
      match insertOne document s with
      | (Ok _, s') => insertMany rest s'
      | (Throw e, s') => (Throw e, s')
      end
  end.

(** [collection.deleteMany({})]. *)
Definition deleteMany (s : Server) : Result unit * Server :=
  match Store.serverReached (base s) with
  | Throw e => (Throw e, s)
  | Ok _ => (Ok tt, withBase s (Store.withDocuments (base s) []))
  end.

(** [collection.find({}).toArray()]. *)
Definition findAll (s : Server) : Result (list Store.PDFMetadataDocument) :=
  match Store.serverReached (base s) with
  | Throw e => Throw e
  | Ok _ => Ok (Store.documents (base s))
  end.

(** [.sort({ uploadedAt: -1 })]: the documents by decreasing [uploadedAt],
    strings being compared character by character; documents with the same
    [uploadedAt] are kept here in their stored order. *)
Fixpoint insertDesc (doc : Store.PDFMetadataDocument)
  (sorted : list Store.PDFMetadataDocument) : list Store.PDFMetadataDocument :=
  match sorted with
  | [] => [doc]
  | x :: rest =>
      if String.leb (Store.uploadedAt (Store.fields x))
                    (Store.uploadedAt (Store.fields doc))
      then doc :: x :: rest
      else x :: insertDesc doc rest
  end.

Definition sortByUploadedAtDesc (docs : list Store.PDFMetadataDocument)
  : list Store.PDFMetadataDocument :=
  fold_right (fun doc sorted => insertDesc doc sorted) [] docs.

(** [later] is not uploaded after [earlier]: the order of a listing. *)
Definition notAfter (earlier later : Store.PDFMetadataDocument) : Prop :=
  String.leb (Store.uploadedAt (Store.fields later))
             (Store.uploadedAt (Store.fields earlier)) = true.

Definition addPDFMetadata (metadata : Store.PDFMetadata) (s : Server)
  : Result Store.PDFMetadata * Server :=
  match Store.getMetadataCollection (base s) with
  | (Throw e, d') =>
      (Store.wrap "Failed to add PDF metadata to MongoDB: " (Throw e), withBase s d')
  | (Ok _, d') =>
      let s1 := ensureIndexes (withBase s d') in
      let document :=
        Store.mkPDFMetadata (Store.id metadata) (Store.filename metadata)
          (Store.extractedText metadata) (Store.uploadedAt metadata)
          (Store.textractJobId metadata) (Store.status metadata) in
      match insertOne document s1 with
      | (Ok _, s2) => (Ok metadata, s2)
      | (Throw e, s2) =>
          (Store.wrap "Failed to add PDF metadata to MongoDB: " (Throw e), s2)
      end
  end.

Definition loadMetadata (s : Server)
  : Result (list Store.PDFMetadata) * Server :=
  match Store.getMetadataCollection (base s) with
  | (Throw e, d') =>
      (Store.wrap "Failed to load metadata from MongoDB: " (Throw e), withBase s d')
  | (Ok _, d') =>
      let s1 := ensureIndexes (withBase s d') in
      match findAll s1 with
      | Ok documents => (Ok (map Store.fields documents), s1)
      | Throw e =>
          (Store.wrap "Failed to load metadata from MongoDB: " (Throw e), s1)
      end
  end.

Definition saveMetadata (metadata : list Store.PDFMetadata) (s : Server)
  : Result unit * Server :=
  match Store.getMetadataCollection (base s) with
  | (Throw e, d') =>
      (Store.wrap "Failed to save metadata to MongoDB: " (Throw e), withBase s d')
  | (Ok _, d') =>
      let s1 := ensureIndexes (withBase s d') in
      match deleteMany s1 with
      | (Throw e, s2) =>
          (Store.wrap "Failed to save metadata to MongoDB: " (Throw e), s2)
      | (Ok _, s2) =>
          if 0 <? Z.of_nat (length metadata) then
            match insertMany metadata s2 with
            | (Ok _, s3) => (Ok tt, s3)
            | (Throw e, s3) =>
                (Store.wrap "Failed to save metadata to MongoDB: " (Throw e), s3)
            end
          else (Ok tt, s2)
      end
  end.

Definition getAllMetadata (s : Server)
  : Result (list Store.PDFMetadata) * Server :=
  match Store.getMetadataCollection (base s) with
  | (Throw e, d') =>
      (Store.wrap "Failed to get all metadata from MongoDB: " (Throw e), withBase s d')
  | (Ok _, d') =>
      match findAll (withBase s d') with
      | Ok documents =>
          (Ok (map Store.fields (sortByUploadedAtDesc documents)), withBase s d')
      | Throw e =>
          (Store.wrap "Failed to get all metadata from MongoDB: " (Throw e),
           withBase s d')
      end
  end.

End Catalog.

(** ** app/api/pdfs/route.ts *)

Module ListRoute.

(** An entry of the listing: the record without its text. *)
Record Pdf := mkPdf {
  id : string;
  filename : string;
  uploadedAt : string;
  status : Store.Status
}.

Inductive Response :=
| Listing (pdfs : list Pdf) (total : Z)
| ServerError (error : string).

Definition GET (s : Catalog.Server) : Response * Catalog.Server :=
  match Catalog.getAllMetadata s with
  | (Ok allMetadata, s') =>
      let completedPdfs :=
        map (fun pdf => mkPdf (Store.id pdf) (Store.filename pdf)
                              (Store.uploadedAt pdf) (Store.status pdf))
            (filter (fun pdf => Store.Status_eqb (Store.status pdf) Store.completed)
                    allMetadata) in
      (Listing completedPdfs (Z.of_nat (length completedPdfs)), s')
  | (Throw error, s') => (ServerError (message error), s')
  end.

End ListRoute.

(** ** app/api/upload/presigned-url/route.ts *)

Module UploadRoute.

(** The two properties read from the parsed request body, each absent or a
    string; a body giving them another type of value is outside the model. *)
Record Body := mkBody { b_filename : option string; b_contentType : option string }.

(** What the handler reads from outside: the parsed body, [Date.now()] when
    the key is built, [new Date().toISOString()] when the record is built,
    [randomUUID()], and the environment of the S3 module. *)
Record Env := mkEnv {
  payload : Result Body;
  dateNow : Z;
  isoNow : string;
  randomUUID : string;
  s3 : S3.Env
}.

Record World := mkWorld {
  storage : S3.World;
  server : Catalog.Server
}.

(** [/[^a-zA-Z0-9.-]/] does not match the character. *)
Definition isKept (c : ascii) : bool :=
  let n := nat_of_ascii c in
  ((97 <=? n)%nat && (n <=? 122)%nat)
  || ((65 <=? n)%nat && (n <=? 90)%nat)
  || ((48 <=? n)%nat && (n <=? 57)%nat)
  || (n =? 46)%nat || (n =? 45)%nat.

(** [filename.replace(/[^a-zA-Z0-9.-]/g, "_")]. *)
Fixpoint replaceUnsafe (s : string) : string :=
  match s with
  | EmptyString => EmptyString
  | String c r => String (if isKept c then c else "_"%char) (replaceUnsafe r)
  end.

Definition sanitize (filename : string) : string :=
  toLowerCase (replaceUnsafe filename).

(** The decimal digits of an integer, as a template literal prints it. *)
Definition decimal (n : Z) : string := NilZero.string_of_int (Z.to_int n).

Definition s3KeyOf (now : Z) (filename : string) : string :=
  "temp-pdfs/" ++ decimal now ++ "-" ++ sanitize filename.

Inductive Response :=
| BadRequest (error : string)
| Created (id uploadUrl s3Key bucket : string)
| ServerError (error : string).

Definition POST (env : Env) (w : World) : Response * World :=
  match payload env with
  | Throw error => (ServerError (message error), w)
  | Ok body =>
      let filename := b_filename body in
      let contentType := b_contentType body in
      if negb (truthy filename) || negb (truthy contentType) then
        (BadRequest "Missing filename or contentType", w)
      else if negb (String.eqb (orElse contentType "") "application/pdf") then
        (BadRequest "Only PDF files are allowed", w)
      else
        let s3Key := s3KeyOf (dateNow env) (orElse filename "") in
        match S3.generatePresignedUploadUrl (s3 env) s3Key (orElse contentType "")
                (storage w) with
        | (Throw error, st) => (ServerError (message error), mkWorld st (server w))
        | (Ok presigned, st) =>
            let id := randomUUID env in
            match Catalog.addPDFMetadata
                    (Store.mkPDFMetadata id (orElse filename "") "" (isoNow env)
                                         None Store.processing)
                    (server w) with
            | (Throw error, sv) => (ServerError (message error), mkWorld st sv)
            | (Ok _, sv) =>
                (Created id (S3.url presigned) s3Key (S3.bucket presigned),
                 mkWorld st sv)
            end
        end
  end.

End UploadRoute.

(** ** Sample inputs for the modules above *)

Module Shelf.

Definition s3 : S3.Env :=
  S3.mkEnv (Some "us-east-1") (Some "key") (Some "secret") (Some "bucket")
    (fun _ _ => Ok "https://bucket.s3.amazonaws.com/signed")
    (fun _ => Ok tt).

(** The same without bucket name. *)
Definition s3NoBucket : S3.Env :=
  S3.mkEnv (Some "us-east-1") (Some "key") (Some "secret") None
    (fun _ _ => Ok "https://bucket.s3.amazonaws.com/signed")
    (fun _ => Ok tt).

Definition idle : S3.World := S3.mkWorld false [].

Definition dated (i name date : string) (s : Store.Status)
  : Store.PDFMetadataDocument :=
  Store.mkDocument None (Store.mkPDFMetadata i name "text" date None s).

(** Three records with distinct ids, on a server without indexes. *)
Definition server : Catalog.Server :=
  Catalog.mkServer
    (Store.mkDb (Some "mongodb://localhost:27017/pdf_extractor") (Ok tt) (Ok tt)
       false false false
       [ dated "a" "a.pdf" "2024-01-02T00:00:00.000Z" Store.completed;
         dated "b" "b.pdf" "2024-03-01T00:00:00.000Z" Store.processing;
         dated "c" "c.pdf" "2024-02-01T00:00:00.000Z" Store.completed ])
    false 7.

Definition fresh (i : string) : Store.PDFMetadata :=
  Store.mkPDFMetadata i "new.pdf" "" "2024-04-01T00:00:00.000Z" None
                      Store.processing.

Definition upload (name type : option string) : UploadRoute.Env :=
  UploadRoute.mkEnv (Ok (UploadRoute.mkBody name type)) 1700000000000
    "2023-11-14T22:13:20.000Z" "7f9c2e0a-0000-4000-8000-000000000001" s3.

Definition world : UploadRoute.World := UploadRoute.mkWorld idle server.

End Shelf.

(** ** Shapes of strings *)

Module Shape.

(** Every character of [s] satisfies [p]. *)
Fixpoint allChars (p : ascii -> bool) (s : string) : bool :=
  match s with
  | EmptyString => true
  | String c r => p c && allChars p r
  end.

(** A lower-case letter, a digit, a dot, a hyphen or an underscore. *)
Definition isKeyChar (c : ascii) : bool :=
  let n := nat_of_ascii c in
  ((97 <=? n)%nat && (n <=? 122)%nat)
  || ((48 <=? n)%nat && (n <=? 57)%nat)
  || (n =? 46)%nat || (n =? 45)%nat || (n =? 95)%nat.

(** The entry of the listing for a record. *)
Definition entryOf (m : Store.PDFMetadata) : ListRoute.Pdf :=
  ListRoute.mkPdf (Store.id m) (Store.filename m) (Store.uploadedAt m)
                  (Store.status m).

(** The record the upload handler creates. *)
Definition pending (id filename uploadedAt : string) : Store.PDFMetadata :=
  Store.mkPDFMetadata id filename "" uploadedAt None Store.processing.

End Shape.

(** ** Strings of UTF-16 code units

    A JavaScript string is a sequence of UTF-16 code units. The module
    [Js] keeps the strings whose code units are below 256, on which its
    functions are exact; this module keeps every code unit, for the
    functions of the sources whose outcome depends on the code units above:
    lower-casing, trimming and, through them, the preview of a match. *)

Module Utf16.

Definition ustring := list N.

(** A string of code units below 256, among all strings. *)
Definition ofString (s : string) : ustring :=
  map N_of_ascii (list_ascii_of_string s).

(** [String.prototype.length]. *)
Definition len (s : ustring) : Z := Z.of_nat (length s).

(** [s.startsWith(p)]. *)
Fixpoint startsWith (p s : ustring) : bool :=
  match p, s with
  | [], _ => true
  | a :: p', b :: s' => N.eqb a b && startsWith p' s'
  | _ :: _, [] => false
  end.

(** [s.indexOf(p)]: the least position at which [p] occurs, or [-1]. *)
Fixpoint indexOfFrom (p s : ustring) (i : Z) : Z :=
  if startsWith p s then i
  else match s with
       | [] => -1
       | _ :: s' => indexOfFrom p s' (i + 1)
       end.

Definition indexOf (s p : ustring) : Z := indexOfFrom p s 0.

(** [s.substring(a, b)]: both arguments are clamped to [0, length] and
    swapped when out of order. *)
Definition clamp (s : ustring) (i : Z) : Z := Z.max 0 (Z.min i (len s)).

Definition substring (s : ustring) (a b : Z) : ustring :=
  let lo := Z.min (clamp s a) (clamp s b) in
  let hi := Z.max (clamp s a) (clamp s b) in
  firstn (Z.to_nat (hi - lo)) (skipn (Z.to_nat lo) s).

(** The white space and the line terminators of ECMAScript, which
    [String.prototype.trim] removes: tab, line feed, vertical tab, form
    feed, carriage return, space, no-break space, U+1680, U+2000-U+200A,
    U+2028, U+2029, U+202F, U+205F, U+3000 and U+FEFF. *)
Definition isSpace (c : N) : bool :=
  (((9 <=? c) && (c <=? 13)) || (c =? 32) || (c =? 160) || (c =? 5760)
   || ((8192 <=? c) && (c <=? 8202)) || (c =? 8232) || (c =? 8233)
   || (c =? 8239) || (c =? 8287) || (c =? 12288) || (c =? 65279))%N.

Fixpoint trimStart (s : ustring) : ustring :=
  match s with
  | c :: r => if isSpace c then trimStart r else s
  | [] => []
  end.

Fixpoint trimEnd (s : ustring) : ustring :=
  match s with
  | [] => []
  | c :: r =>
      match trimEnd r with
      | [] => if isSpace c then [] else [c]
      | r' => c :: r'
      end
  end.

Definition trim (s : ustring) : ustring := trimEnd (trimStart s).

(** The lower case of one code unit, for the code units below 256 and for
    U+0130, the capital I with a dot above, whose lower case is two code
    units: [i] and the combining dot U+0307. *)
Definition lowerUnit (c : N) : ustring :=
  (if ((65 <=? c) && (c <=? 90))
      || ((192 <=? c) && (c <=? 222) && negb (c =? 215))
   then [c + 32]
   else if c =? 304 then [105; 775]
   else [c])%N.

(** [String.prototype.toLowerCase] on the strings whose code units are
    below 256 or U+0130. On other strings the engine's function does more
    (other alphabets, the final sigma, surrogate pairs): the properties
    take the engine's function as a parameter, and this one stands for it
    on such strings only. *)
Definition toLowerCaseLatin (s : ustring) : ustring := flat_map lowerUnit s.

(** What the engine's [toLowerCase] does on the strings of [Js]. *)
Definition agreesBelow256 (toLowerCase : ustring -> ustring) : Prop :=
  forall s : string, toLowerCase (ofString s) = ofString (Js.toLowerCase s).

(** The preview computed in the callback of [results.map] of the search
    handler, on any string; [toLowerCase] is the engine's
    [String.prototype.toLowerCase]. The positions are those of the
    lower-cased text, the lengths those of the text and the query. *)
Definition previewOf (toLowerCase : ustring -> ustring) (query text : ustring)
  : ustring :=
  let lowerText := toLowerCase text in
  let lowerQuery := toLowerCase query in
  let matchIndex := indexOf lowerText lowerQuery in
  if negb (matchIndex =? -1) then
    let start := Z.max 0 (matchIndex - 50) in
    let end_ := Z.min (len text) (matchIndex + len query + 50) in
    substring text start end_
  else [].

(** [p] occurs in [s] at position [i]. *)
Definition occursAt (p s : ustring) (i : Z) : Prop :=
  exists before after, s = before ++ p ++ after /\ len before = i.

(** [p] occurs in [s] at position [i] when case is ignored: the part of [s]
    of the length of [p] at that position has the lower case of [p], [fold]
    giving the lower case of a code unit. *)
Definition occursFoldedAt (fold : N -> N) (p s : ustring) (i : Z) : Prop :=
  exists before part after,
    s = before ++ part ++ after /\ len before = i
    /\ map fold part = map fold p.

(** [piece] is the part of [s] from position [a] up to position [b]. *)
Definition sliceOf (s : ustring) (a b : Z) (piece : ustring) : Prop :=
  exists before after,
    s = before ++ piece ++ after /\ len before = a /\ a + len piece = b.

(** [count] capital I with dot above, then the word [needle]. *)
Definition dotted (count : nat) : ustring :=
  repeat 304%N count ++ ofString "needle".

(** The lower case of a code unit below 256. *)
Definition foldBelow256 (c : N) : N :=
  (if ((65 <=? c) && (c <=? 90))
      || ((192 <=? c) && (c <=? 222) && negb (c =? 215))
   then c + 32 else c)%N.

End Utf16.

(** * Properties *)

(** ** Strings *)

Section StringFacts.

Lemma append_assoc (a b c : string) :
  ((a ++ b) ++ c = a ++ (b ++ c))%string.
Proof. induction a as [|x a IH]; simpl; [reflexivity | now rewrite IH]. Qed.

Lemma append_nil_r (a : string) : (a ++ "")%string = a.
Proof. induction a as [|x a IH]; simpl; [reflexivity | now rewrite IH]. Qed.

Lemma length_append (a b : string) :
  String.length (a ++ b) = (String.length a + String.length b)%nat.
Proof. induction a as [|x a IH]; simpl; [reflexivity | now rewrite IH]. Qed.

Lemma len_append (a b : string) : len (a ++ b) = len a + len b.
Proof. unfold len. rewrite length_append. lia. Qed.

Lemma len_nonneg (a : string) : 0 <= len a.
Proof. unfold len. lia. Qed.

Lemma len_cons (c : ascii) (a : string) : len (String c a) = 1 + len a.
Proof. unfold len. simpl String.length. lia. Qed.

Lemma toLowerCase_append (a b : string) :
  toLowerCase (a ++ b) = (toLowerCase a ++ toLowerCase b)%string.
Proof. induction a as [|x a IH]; simpl; [reflexivity | now rewrite IH]. Qed.

Lemma length_toLowerCase (a : string) :
  String.length (toLowerCase a) = String.length a.
Proof. induction a as [|x a IH]; simpl; [reflexivity | now rewrite IH]. Qed.

End StringFacts.

(** ** Text assembly *)

Section TextAssembly.

Import Textract Spec.

Lemma join_cons2 (sep x y : string) (rest : list string) :
  join sep (x :: y :: rest) = (x ++ sep ++ join sep (y :: rest))%string.
Proof. reflexivity. Qed.

Lemma filter_nil_existsb {A} (f : A -> bool) (l : list A) :
  filter f l = [] <-> existsb f l = false.
Proof.
  induction l as [|a l IH]; simpl.
  - tauto.
  - destruct (f a); simpl; [split; discriminate | exact IH].
Qed.

Lemma extractTextFromBlocks_assemble (bs : list Block) :
  extractTextFromBlocks (Some bs) = assembleText bs.
Proof.
  unfold extractTextFromBlocks.
  induction bs as [|b bs IH]; simpl; [reflexivity|].
  destruct (isLine b) eqn:Hb; [|exact IH].
  destruct (existsb isLine bs) eqn:He.
  - destruct (filter isLine bs) as [|c cs] eqn:Hf.
    + apply filter_nil_existsb in Hf. congruence.
    + cbn [map]. rewrite join_cons2. cbn [map] in IH. now rewrite IH.
  - apply filter_nil_existsb in He. now rewrite He.
Qed.

(** A fragment that is not a text line leaves the assembled text as it
    is, wherever it arrives. *)
Lemma extractTextFromBlocks_skip (before after : list Block) (b : Block) :
  isLine b = false ->
  extractTextFromBlocks (Some (before ++ b :: after))
  = extractTextFromBlocks (Some (before ++ after)).
Proof.
  intros Hb. unfold extractTextFromBlocks.
  rewrite !filter_app. simpl. now rewrite Hb.
Qed.

(** C6: the assembled text is made of the [Text] of the fragments of type
    LINE and of nothing else, in arrival order, with one newline between
    two consecutive lines; a fragment of another kind changes nothing; the
    lines "Hello" and "World" give "Hello", a newline, "World". *)
Theorem extractTextFromBlocks_lines_only :
  (forall bs : list Block,
      extractTextFromBlocks (Some bs) = assembleText bs)
  /\ (forall (before after : list Block) (b : Block),
         BlockType b <> Some "LINE" ->
         extractTextFromBlocks (Some (before ++ b :: after))
         = extractTextFromBlocks (Some (before ++ after)))
  /\ (forall (before after : list Block),
         existsb isLine before = true -> existsb isLine after = true ->
         extractTextFromBlocks (Some (before ++ after))
         = (extractTextFromBlocks (Some before) ++ LF
            ++ extractTextFromBlocks (Some after))%string)
  /\ (forall t : string,
         extractTextFromBlocks (Some [mkBlock (Some "LINE") (Some t)]) = t)
  /\ extractTextFromBlocks
       (Some [mkBlock (Some "LINE") (Some "Hello");
              mkBlock (Some "LINE") (Some "World")])
     = ("Hello" ++ LF ++ "World")%string.
Proof.
  split; [exact extractTextFromBlocks_assemble|].
  split.
  { intros before after b Hb. apply extractTextFromBlocks_skip.
    unfold isLine. destruct (BlockType b) as [t|]; [|reflexivity].
    destruct (String.eqb_spec t "LINE"); [subst; congruence | reflexivity]. }
  split.
  { intros before after Hbefore Hafter.
    rewrite !extractTextFromBlocks_assemble.
    induction before as [|b before IH]; [discriminate|].
    simpl in *. destruct (isLine b) eqn:Hb.
    - rewrite existsb_app.
      destruct (existsb isLine before) eqn:Hrest; simpl.
      + rewrite IH by reflexivity.
        now rewrite !append_assoc.
      + rewrite Hafter.
        assert (Hnone : forall l, existsb isLine l = false ->
                   assembleText (l ++ after) = assembleText after).
        { clear. induction l as [|x l IHl]; simpl; [reflexivity|].
          destruct (isLine x); simpl; [discriminate | exact IHl]. }
        now rewrite Hnone.
    - simpl in Hbefore. now apply IH. }
  split.
  { intros t. destruct t; reflexivity. }
  reflexivity.
Qed.

Lemma extractTextFromBlocks_lines_only_witness :
  extractTextFromBlocks (Some ([Sample.line "Hello"] ++ Sample.page :: [Sample.line "World"]))
  = extractTextFromBlocks (Some ([Sample.line "Hello"] ++ [Sample.line "World"])).
Proof.
  apply (proj1 (proj2 extractTextFromBlocks_lines_only)).
  simpl. discriminate.
Defined.

End TextAssembly.

(** ** Runs of the orchestrator *)

Section MonadFacts.

Import Textract Spec.

Lemma bind_Some {A B} (m : M A) (k : A -> M B) w r w' :
  bind m k w = Some (r, w') ->
  (exists a w1, m w = Some (Ok a, w1) /\ k a w1 = Some (r, w'))
  \/ (exists e, m w = Some (Throw e, w') /\ r = Throw e).
Proof.
  unfold bind. destruct (m w) as [[[a|e] w1]|]; intros H.
  - left. eauto.
  - right. inversion H; subst. eauto.
  - discriminate.
Qed.

Lemma tryCatch_Some {A} (m : M A) (h : Error -> M A) w r w' :
  tryCatch m h w = Some (r, w') ->
  (exists a, m w = Some (Ok a, w') /\ r = Ok a)
  \/ (exists e w1, m w = Some (Throw e, w1) /\ h e w1 = Some (r, w')).
Proof.
  unfold tryCatch. destruct (m w) as [[[a|e] w1]|]; intros H.
  - left. inversion H; subst. eauto.
  - right. eauto.
  - discriminate.
Qed.

Lemma keepsWaits_ret {A} (a : A) : keepsWaits (ret a).
Proof. intros w r w' H. inversion H; reflexivity. Qed.

Lemma keepsWaits_throw {A} (e : Error) : keepsWaits (@throw A e).
Proof. intros w r w' H. inversion H; reflexivity. Qed.

Lemma keepsWaits_bind {A B} (m : M A) (k : A -> M B) :
  keepsWaits m -> (forall a, keepsWaits (k a)) -> keepsWaits (bind m k).
Proof.
  intros Hm Hk w r w' H.
  destruct (bind_Some _ _ _ _ _ H) as [(a & w1 & H1 & H2) | (e & H1 & _)].
  - rewrite (Hk _ _ _ _ H2). eapply Hm; eauto.
  - eapply Hm; eauto.
Qed.

Lemma keepsWaits_tryCatch {A} (m : M A) (h : Error -> M A) :
  keepsWaits m -> (forall e, keepsWaits (h e)) -> keepsWaits (tryCatch m h).
Proof.
  intros Hm Hh w r w' H.
  destruct (tryCatch_Some _ _ _ _ _ H) as [(a & H1 & _) | (e & w1 & H1 & H2)].
  - eapply Hm; eauto.
  - rewrite (Hh _ _ _ _ H2). eapply Hm; eauto.
Qed.

Lemma keepsWaits_getTextractClient env : keepsWaits (getTextractClient env).
Proof.
  intros w r w'. unfold getTextractClient.
  destruct (textractClient w); [intros H; inversion H; reflexivity|].
  destruct (_ || _); intros H; inversion H; reflexivity.
Qed.

Lemma keepsWaits_sendGetCommand env jobId tok :
  keepsWaits (sendGetCommand env jobId tok).
Proof. intros w r w' H. inversion H; reflexivity. Qed.

Lemma keepsWaits_sendStartCommand env bucket key :
  keepsWaits (sendStartCommand env bucket key).
Proof. intros w r w' H. inversion H; reflexivity. Qed.

Lemma keepsWaits_dateNow : keepsWaits dateNow.
Proof. intros w r w' H. inversion H; reflexivity. Qed.

Create HintDb waits.

Hint Resolve keepsWaits_ret keepsWaits_throw keepsWaits_getTextractClient
  keepsWaits_sendGetCommand keepsWaits_sendStartCommand keepsWaits_dateNow
  : waits.

Lemma keepsWaits_startTextExtraction env s3Key :
  keepsWaits (startTextExtraction env s3Key).
Proof.
  unfold startTextExtraction.
  apply keepsWaits_tryCatch.
  - repeat (apply keepsWaits_bind; [|intros ?]); auto with waits.
    + destruct (truthy _); auto with waits.
    + destruct (truthy _); auto with waits.
  - intros e. repeat (destruct (String.eqb _ _)); auto with waits.
Qed.

Lemma keepsWaits_getTextExtractionStatus env jobId :
  keepsWaits (getTextExtractionStatus env jobId).
Proof.
  unfold getTextExtractionStatus.
  apply keepsWaits_tryCatch; [|auto with waits].
  repeat (apply keepsWaits_bind; [|intros ?]); auto with waits.
Qed.

Lemma keepsWaits_pageLoop fuel env jobId l :
  keepsWaits (pageLoop fuel env jobId l).
Proof.
  revert l. induction fuel as [|fuel IH]; intros l; simpl.
  - destruct (truthy _); [intros w r w' H; discriminate | auto with waits].
  - destruct (truthy _); [|auto with waits].
    repeat (apply keepsWaits_bind; [|intros ?]); auto with waits.
Qed.

(** The page loop changes neither the status nor the backoff. *)
Lemma pageLoop_locals fuel env jobId l w l' w' :
  pageLoop fuel env jobId l w = Some (Ok l', w') ->
  l_status l' = l_status l /\ l_backoffMs l' = l_backoffMs l
  /\ l_pollCount l' = l_pollCount l /\ truthy (l_nextToken l') = false.
Proof.
  revert l w. induction fuel as [|fuel IH]; intros l w; simpl.
  - destruct (truthy (l_nextToken l)) eqn:Ht; [discriminate|].
    intros H. inversion H; subst. auto.
  - destruct (truthy (l_nextToken l)) eqn:Ht.
    + intros H.
      destruct (bind_Some _ _ _ _ _ H) as [(a & w1 & _ & H2) | (e & _ & He)];
        [|discriminate].
      destruct (bind_Some _ _ _ _ _ H2) as [(resp & w2 & _ & H3) | (e & _ & He)];
        [|discriminate].
      apply IH in H3. simpl in H3. exact H3.
    + intros H. inversion H; subst. auto.
Qed.

(** One turn of each loop. *)
Lemma pollLoop_S fuel env jobId startTime l :
  pollLoop (S fuel) env jobId startTime l =
  if String.eqb (l_status l) "IN_PROGRESS" then
    t <- dateNow ;;
    if t - startTime >? timeoutMs then
      throw (newError "Text extraction timed out after 5 minutes. Document may be too large.")
    else
      sleep env (l_backoffMs l) ;;;
      result <- getTextExtractionStatus env jobId ;;
      l' <- pageLoop (S fuel) env jobId
              (mkLocals (status result)
                        (concatBlocks (l_allBlocks l) (blocks result))
                        (nextToken result)
                        (l_pollCount l + 1)
                        (Qmin (l_backoffMs l * (3 # 2)) maxBackoffMs)) ;;
      pollLoop fuel env jobId startTime l'
  else ret l.
Proof. reflexivity. Qed.

Lemma pollLoop_O env jobId startTime l :
  pollLoop 0 env jobId startTime l =
  if String.eqb (l_status l) "IN_PROGRESS" then outOfFuel else ret l.
Proof. reflexivity. Qed.

Lemma pageLoop_S fuel env jobId l :
  pageLoop (S fuel) env jobId l =
  if truthy (l_nextToken l) then
    getTextractClient env ;;;
    response <- sendGetCommand env jobId (l_nextToken l) ;;
    pageLoop fuel env jobId
      (mkLocals (l_status l)
                (concatBlocks (l_allBlocks l) (Blocks response))
                (NextToken response)
                (l_pollCount l) (l_backoffMs l))
  else ret l.
Proof. reflexivity. Qed.

End MonadFacts.

(** ** The backoff schedule *)

Section Backoff.

Import Textract Spec.
Local Open Scope Q_scope.

Lemma backoffSchedule_bounds (k : nat) :
  2000 # 1 <= backoffSchedule k /\ backoffSchedule k <= 30000 # 1.
Proof.
  induction k as [|k [IHlo IHhi]]; simpl.
  - split; unfold Qle; simpl; lia.
  - split.
    + apply Q.min_glb; [lra | unfold Qle; simpl; lia].
    + apply Q.le_min_r.
Qed.

Lemma backoffSchedule_step (k : nat) :
  backoffSchedule k <= backoffSchedule (S k).
Proof.
  destruct (backoffSchedule_bounds k) as [Hlo Hhi]. simpl.
  apply Q.min_glb; lra.
Qed.

Lemma backoffSchedule_monotone (j k : nat) :
  (j <= k)%nat -> backoffSchedule j <= backoffSchedule k.
Proof.
  induction 1 as [|k _ IH]; [apply Qle_refl|].
  eapply Qle_trans; [exact IH | apply backoffSchedule_step].
Qed.

(** The schedule in full: seven growing delays, then the cap. *)
Lemma backoffSchedule_values :
  backoffSchedule 0 == 2000 # 1
  /\ backoffSchedule 1 == 3000 # 1
  /\ backoffSchedule 2 == 4500 # 1
  /\ backoffSchedule 3 == 6750 # 1
  /\ backoffSchedule 4 == 10125 # 1
  /\ backoffSchedule 5 == 30375 # 2
  /\ backoffSchedule 6 == 91125 # 4
  /\ forall k, (7 <= k)%nat -> backoffSchedule k == 30000 # 1.
Proof.
  repeat (split; [vm_compute; reflexivity|]).
  intros k Hk. induction Hk as [|k Hk IH]; [vm_compute; reflexivity|].
  simpl. rewrite IH. vm_compute. reflexivity.
Qed.





End Backoff.

(** ** Fuel and the client singleton *)

Section Fuel.

Import Textract.

Lemma bind_ok {A B} (m : M A) (k : A -> M B) w a w1 :
  m w = Some (Ok a, w1) -> bind m k w = k a w1.
Proof. intros H. unfold bind. now rewrite H. Qed.

Lemma bind_throw {A B} (m : M A) (k : A -> M B) w e w1 :
  m w = Some (Throw e, w1) -> bind m k w = Some (Throw e, w1).
Proof. intros H. unfold bind. now rewrite H. Qed.

Lemma tryCatch_ok {A} (m : M A) (h : Error -> M A) w a w1 :
  m w = Some (Ok a, w1) -> tryCatch m h w = Some (Ok a, w1).
Proof. intros H. unfold tryCatch. now rewrite H. Qed.

Lemma tryCatch_throw {A} (m : M A) (h : Error -> M A) w e w1 :
  m w = Some (Throw e, w1) -> tryCatch m h w = h e w1.
Proof. intros H. unfold tryCatch. now rewrite H. Qed.

(** More fuel never changes the outcome of a loop that ended. *)
Lemma pageLoop_mono env jobId :
  forall f f' l w x,
    (f <= f')%nat ->
    pageLoop f env jobId l w = Some x -> pageLoop f' env jobId l w = Some x.
Proof.
  induction f as [|f IH]; intros f' l w x Hle.
  - simpl. destruct (truthy (l_nextToken l)) eqn:Ht; [discriminate|].
    intros H. destruct f'; simpl; now rewrite Ht.
  - destruct f' as [|f']; [lia|].
    rewrite !pageLoop_S. destruct (truthy (l_nextToken l)); [|trivial].
    unfold bind.
    destruct (getTextractClient env w) as [[[u|e] w1]|]; [|trivial|trivial].
    destruct (sendGetCommand env jobId (l_nextToken l) w1) as [[[resp|e] w2]|];
      [|trivial|trivial].
    apply IH. lia.
Qed.

Lemma pollLoop_mono env jobId startTime :
  forall f f' l w x,
    (f <= f')%nat ->
    pollLoop f env jobId startTime l w = Some x ->
    pollLoop f' env jobId startTime l w = Some x.
Proof.
  induction f as [|f IH]; intros f' l w [r w'] Hle.
  - rewrite pollLoop_O.
    destruct (String.eqb (l_status l) "IN_PROGRESS") eqn:Hs; [discriminate|].
    intros H. destruct f'; [rewrite pollLoop_O | rewrite pollLoop_S];
      now rewrite Hs.
  - destruct f' as [|f']; [lia|].
    rewrite !pollLoop_S.
    destruct (String.eqb (l_status l) "IN_PROGRESS"); [|trivial].
    intros H.
    destruct (bind_Some _ _ _ _ _ H) as [(t & w1 & H1 & H2) | (e & H1 & _)];
      [|discriminate].
    rewrite (bind_ok _ _ _ _ _ H1).
    destruct (t - startTime >? timeoutMs); [exact H2|].
    destruct (bind_Some _ _ _ _ _ H2) as [(u & w2 & H3 & H4) | (e & H3 & _)];
      [|discriminate].
    rewrite (bind_ok _ _ _ _ _ H3).
    destruct (bind_Some _ _ _ _ _ H4) as [(res & w3 & H5 & H6) | (e & H5 & ->)].
    2:{ now rewrite (bind_throw _ _ _ _ _ H5). }
    rewrite (bind_ok _ _ _ _ _ H5).
    destruct (bind_Some _ _ _ _ _ H6) as [(l1 & w4 & H7 & H8) | (e & H7 & ->)].
    + apply (pageLoop_mono env jobId (S f) (S f')) in H7; [|lia].
      rewrite (bind_ok _ _ _ _ _ H7). apply IH; [lia | exact H8].
    + apply (pageLoop_mono env jobId (S f) (S f')) in H7; [|lia].
      now rewrite (bind_throw _ _ _ _ _ H7).
Qed.

Lemma processDocument_mono env s3Key :
  forall f f' w x,
    (f <= f')%nat ->
    processDocument f env s3Key w = Some x ->
    processDocument f' env s3Key w = Some x.
Proof.
  intros f f' w x Hle. unfold processDocument.
  set (h := fun error : Error =>
              throw (newError ("Failed to process document: " ++ message error))).
  assert (Hbody : forall r w',
    (jobId <- startTextExtraction env s3Key ;;
     startTime <- dateNow ;;
     l <- pollLoop f env jobId startTime
            (mkLocals "IN_PROGRESS" [] None 0 (2000 # 1)) ;;
     if String.eqb (l_status l) "FAILED" then
       throw (newError "Textract job failed. Please check the PDF and try again.")
     else
       ret (extractTextFromBlocks (Some (l_allBlocks l)))) w = Some (r, w') ->
    (jobId <- startTextExtraction env s3Key ;;
     startTime <- dateNow ;;
     l <- pollLoop f' env jobId startTime
            (mkLocals "IN_PROGRESS" [] None 0 (2000 # 1)) ;;
     if String.eqb (l_status l) "FAILED" then
       throw (newError "Textract job failed. Please check the PDF and try again.")
     else
       ret (extractTextFromBlocks (Some (l_allBlocks l)))) w = Some (r, w')).
  { intros r w' H.
    destruct (bind_Some _ _ _ _ _ H) as [(jobId & w1 & H1 & H2) | (e & H1 & ->)].
    2:{ now rewrite (bind_throw _ _ _ _ _ H1). }
    rewrite (bind_ok _ _ _ _ _ H1).
    destruct (bind_Some _ _ _ _ _ H2) as [(t & w2 & H3 & H4) | (e & H3 & _)];
      [|discriminate].
    rewrite (bind_ok _ _ _ _ _ H3).
    destruct (bind_Some _ _ _ _ _ H4) as [(l & w3 & H5 & H6) | (e & H5 & ->)].
    - apply (pollLoop_mono env jobId t f f' _ _ _ Hle) in H5.
      now rewrite (bind_ok _ _ _ _ _ H5).
    - apply (pollLoop_mono env jobId t f f' _ _ _ Hle) in H5.
      now rewrite (bind_throw _ _ _ _ _ H5). }
  destruct x as [r w']. intros H.
  destruct (tryCatch_Some _ _ _ _ _ H) as [(a & H1 & ->) | (e & w1 & H1 & H2)].
  - apply Hbody in H1. now rewrite (tryCatch_ok _ _ _ _ _ H1).
  - apply Hbody in H1. now rewrite (tryCatch_throw _ _ _ _ _ H1).
Qed.

Lemma getTextractClient_ready env w :
  textractClient w = true -> getTextractClient env w = Some (Ok tt, w).
Proof. intros H. unfold getTextractClient. now rewrite H. Qed.

Lemma getTextractClient_sets env w w1 :
  getTextractClient env w = Some (Ok tt, w1) -> textractClient w1 = true.
Proof.
  unfold getTextractClient. destruct (textractClient w) eqn:Hc.
  - intros H. inversion H; subst. exact Hc.
  - destruct (_ || _); intros H; inversion H; reflexivity.
Qed.

(** A job that was submitted leaves the client initialised. *)
Lemma startTextExtraction_client env s3Key w jobId w1 :
  startTextExtraction env s3Key w = Some (Ok jobId, w1) ->
  textractClient w1 = true.
Proof.
  unfold startTextExtraction. intros H.
  destruct (tryCatch_Some _ _ _ _ _ H) as [(a & H1 & Ha) | (e & w2 & _ & H2)].
  - destruct (bind_Some _ _ _ _ _ H1) as [(u & w2 & H2 & H3) | (e & _ & He)];
      [|discriminate].
    assert (w2 = w) as ->.
    { destruct (truthy (AWS_S3_BUCKET_NAME env)); inversion H2; reflexivity. }
    destruct (bind_Some _ _ _ _ _ H3) as [([] & w3 & H4 & H5) | (e & _ & He)];
      [|discriminate].
    apply getTextractClient_sets in H4.
    destruct (bind_Some _ _ _ _ _ H5) as [(j & w4 & H6 & H7) | (e & _ & He)];
      [|discriminate].
    inversion H6; subst w4. 
    destruct (truthy j); inversion H7; subst. exact H4.
  - repeat (destruct (String.eqb _ _)); discriminate.
Qed.

(** The two ways a turn of the poll loop can start. *)
Lemma pollLoop_over fuel env jobId startTime l w :
  l_status l = "IN_PROGRESS" ->
  timeoutMs < now w - startTime ->
  pollLoop (S fuel) env jobId startTime l w = Some (Throw Spec.timedOut, w).
Proof.
  intros Hs Hover. rewrite pollLoop_S, Hs, String.eqb_refl.
  unfold bind, dateNow.
  replace (now w - startTime >? timeoutMs) with true
    by (symmetry; apply Z.gtb_lt; lia).
  reflexivity.
Qed.

Lemma pollLoop_poll fuel env jobId startTime l w :
  l_status l = "IN_PROGRESS" ->
  now w - startTime <= timeoutMs ->
  pollLoop (S fuel) env jobId startTime l w
  = (result <- getTextExtractionStatus env jobId ;;
     l' <- pageLoop (S fuel) env jobId
             (mkLocals (status result)
                       (concatBlocks (l_allBlocks l) (blocks result))
                       (nextToken result)
                       (l_pollCount l + 1)
                       (Qmin (l_backoffMs l * (3 # 2)) maxBackoffMs)) ;;
     pollLoop fuel env jobId startTime l')
      (mkWorld (now w + Qfloor (l_backoffMs l) + timerLag env (length (waits w)))
               (textractClient w) (calls w) (waits w ++ [l_backoffMs l])).
Proof.
  intros Hs Hin. rewrite pollLoop_S, Hs, String.eqb_refl.
  unfold bind at 1. unfold dateNow.
  replace (now w - startTime >? timeoutMs) with false
    by (symmetry; rewrite Z.gtb_ltb; apply Z.ltb_ge; lia).
  reflexivity.
Qed.

Lemma pollLoop_done fuel env jobId startTime l w :
  l_status l <> "IN_PROGRESS" ->
  pollLoop fuel env jobId startTime l w = Some (Ok l, w).
Proof.
  intros Hs. apply String.eqb_neq in Hs.
  destruct fuel; [rewrite pollLoop_O | rewrite pollLoop_S]; now rewrite Hs.
Qed.

End Fuel.

(** ** The timeout *)

Section Timeout.

Import Textract Spec Transcript.

Variable env : Env.
Variable jobId : string.

(** The service answers every call, [reply n] to the [n]-th. *)
Variable reply : nat -> GetResponse.
Hypothesis answered : forall n tok, sendGet env n jobId tok = Ok (reply n).

(** Every chain of pages ends. *)
Hypothesis pagesEnd : forall n, exists k, truthy (NextToken (reply (n + k))) = false.

(** Time does not run backwards. *)
Hypothesis latency : forall n, 0 <= getLatency env n.
Hypothesis lag : forall n, 0 <= timerLag env n.

Lemma sendGetCommand_answered tok w :
  sendGetCommand env jobId tok w
  = Some (Ok (reply (calls w)),
          mkWorld (now w + getLatency env (calls w)) (textractClient w)
                  (S (calls w)) (waits w)).
Proof. unfold sendGetCommand. now rewrite answered. Qed.

Lemma getTextExtractionStatus_answered w :
  textractClient w = true ->
  getTextExtractionStatus env jobId w
  = Some (Ok (mkStatusResult (orElse (JobStatus (reply (calls w))) "UNKNOWN")
                             (Blocks (reply (calls w)))
                             (NextToken (reply (calls w)))),
          mkWorld (now w + getLatency env (calls w)) true (S (calls w)) (waits w)).
Proof.
  intros Hc. unfold getTextExtractionStatus.
  apply tryCatch_ok.
  rewrite (bind_ok _ _ _ _ _ (getTextractClient_ready env w Hc)).
  rewrite (bind_ok _ _ _ _ _ (sendGetCommand_answered _ w)).
  now rewrite Hc.
Qed.

Lemma Qfloor_backoff (b : Q) : (2000 # 1 <= b)%Q -> 2000 <= Qfloor b.
Proof.
  intros H. apply Qfloor_resp_le in H.
  change (2000 # 1)%Q with (inject_Z 2000) in H.
  now rewrite Qfloor_Z in H.
Qed.

(** The status the code reads is [IN_PROGRESS] only when the answer says
    so. *)
Lemma orElse_inProgress (x : option string) :
  orElse x "UNKNOWN" = "IN_PROGRESS" <-> x = Some "IN_PROGRESS".
Proof.
  destruct x as [[|c s]|]; cbn; split; intros H;
    try discriminate; congruence.
Qed.

(** A chain of pages that ends has one last answer. *)
Lemma chain_exists :
  forall k n,
    truthy (NextToken (reply (n + k))) = false -> exists m, chain reply n m.
Proof.
  induction k as [|k IH]; intros n Hk.
  - exists n. rewrite Nat.add_0_r in Hk.
    split; [lia|]. split; [intros i Hi; lia | exact Hk].
  - destruct (truthy (NextToken (reply n))) eqn:Hn.
    + destruct (IH (S n)) as (m & Hle & Hall & Hend).
      { now replace (S n + k)%nat with (n + S k)%nat by lia. }
      exists m. split; [lia|]. split; [|exact Hend].
      intros i Hi. destruct (Nat.eq_dec i n) as [->|Hne];
        [exact Hn | apply Hall; lia].
    + exists n. split; [lia|]. split; [intros i Hi; lia | exact Hn].
Qed.

Lemma chain_unique n m m' :
  chain reply n m -> chain reply n m' -> m = m'.
Proof.
  intros (Hle & Hall & Hend) (Hle' & Hall' & Hend').
  destruct (Nat.lt_trichotomy m m') as [Hlt | [Heq | Hgt]]; [|exact Heq|].
  - rewrite (Hall' m) in Hend by lia. discriminate.
  - rewrite (Hall m') in Hend' by lia. discriminate.
Qed.

Lemma pollAt_ge first n : pollAt reply first n -> (first <= n)%nat.
Proof.
  induction 1 as [|n m _ IH (Hle & _)]; lia.
Qed.

(** The status polls after the first are those that follow its pages. *)
Lemma pollAt_step first m n :
  chain reply first m -> pollAt reply first n ->
  n = first \/ pollAt reply (S m) n.
Proof.
  intros Hchain. induction 1 as [|n0 m0 _ IH Hchain0]; [now left|].
  right. destruct IH as [-> | IH].
  - rewrite (chain_unique _ _ _ Hchain0 Hchain). constructor.
  - econstructor; eassumption.
Qed.

Lemma pollAt_shift first m n :
  chain reply first m -> pollAt reply (S m) n -> pollAt reply first n.
Proof.
  intros Hchain. induction 1 as [|n0 m0 _ IH Hchain0].
  - econstructor; [constructor | exact Hchain].
  - econstructor; eassumption.
Qed.

(** The inner loop follows a chain of pages to its last answer. *)
Lemma pageLoop_chain :
  forall (d q m : nat) l w,
    m = (q + d)%nat -> chain reply q m ->
    calls w = S q -> l_nextToken l = NextToken (reply q) ->
    textractClient w = true ->
    exists f l' w',
      pageLoop f env jobId l w = Some (Ok l', w')
      /\ calls w' = S m /\ now w <= now w' /\ textractClient w' = true
      /\ l_status l' = l_status l /\ l_backoffMs l' = l_backoffMs l.
Proof.
  induction d as [|d IH]; intros q m l w Hm (Hle & Hall & Hend) Hcalls Htok Hc.
  - rewrite Nat.add_0_r in Hm. subst m.
    assert (Ht : truthy (l_nextToken l) = false) by now rewrite Htok.
    exists 0%nat, l, w. simpl. rewrite Ht.
    repeat split; try assumption; try reflexivity; lia.
  - assert (Ht : truthy (l_nextToken l) = true)
      by (rewrite Htok; apply Hall; lia).
    set (w1 := mkWorld (now w + getLatency env (calls w)) (textractClient w)
                       (S (calls w)) (waits w)).
    set (l1 := mkLocals (l_status l)
                 (concatBlocks (l_allBlocks l) (Blocks (reply (calls w))))
                 (NextToken (reply (calls w))) (l_pollCount l) (l_backoffMs l)).
    destruct (IH (S q) m l1 w1) as (f & l' & w' & Hrun & Hcalls' & Hnow & Hc' & Hs & Hb).
    { lia. }
    { split; [lia|]. split; [|exact Hend]. intros i Hi. apply Hall. lia. }
    { unfold w1. simpl. now rewrite Hcalls. }
    { unfold l1. simpl. now rewrite Hcalls. }
    { exact Hc. }
    exists (S f), l', w'. rewrite pageLoop_S, Ht.
    rewrite (bind_ok _ _ _ _ _ (getTextractClient_ready env w Hc)).
    rewrite (bind_ok _ _ _ _ _ (sendGetCommand_answered _ w)).
    fold w1 l1. split; [exact Hrun|].
    pose proof (latency (calls w)). simpl in Hnow, Hs, Hb.
    repeat split; try assumption; try reflexivity; lia.
Qed.

(** How the poll loop ends: by the timeout when every status poll it made
    reported the job as in progress, and normally as soon as one of them
    reported anything else. *)
Lemma pollLoop_outcome startTime :
  forall (budget : nat) l w,
    l_status l = "IN_PROGRESS" ->
    (2000 # 1 <= l_backoffMs l)%Q ->
    textractClient w = true ->
    timeoutMs - (now w - startTime) < 2000 * Z.of_nat budget ->
    exists f r w',
      pollLoop f env jobId startTime l w = Some (r, w')
      /\ (calls w <= calls w')%nat
      /\ match r with
         | Throw e =>
             e = timedOut /\ timeoutMs < now w' - startTime
             /\ forall n, pollAt reply (calls w) n -> (n < calls w')%nat ->
                          JobStatus (reply n) = Some "IN_PROGRESS"
         | Ok l' =>
             l_status l' <> "IN_PROGRESS"
             /\ exists n, pollAt reply (calls w) n /\ (n < calls w')%nat
                          /\ JobStatus (reply n) <> Some "IN_PROGRESS"
         end.
Proof.
  assert (Hover : forall l w,
    l_status l = "IN_PROGRESS" -> timeoutMs < now w - startTime ->
    exists f r w',
      pollLoop f env jobId startTime l w = Some (r, w')
      /\ (calls w <= calls w')%nat
      /\ match r with
         | Throw e =>
             e = timedOut /\ timeoutMs < now w' - startTime
             /\ forall n, pollAt reply (calls w) n -> (n < calls w')%nat ->
                          JobStatus (reply n) = Some "IN_PROGRESS"
         | Ok l' =>
             l_status l' <> "IN_PROGRESS"
             /\ exists n, pollAt reply (calls w) n /\ (n < calls w')%nat
                          /\ JobStatus (reply n) <> Some "IN_PROGRESS"
         end).
  { intros l w Hs Hlate. exists 1%nat, (Throw timedOut), w.
    split; [now apply pollLoop_over|]. split; [lia|].
    split; [reflexivity|]. split; [exact Hlate|].
    intros n Hn Hlt. apply pollAt_ge in Hn. lia. }
  induction budget as [|budget IH]; intros l w Hs Hb Hc Hbudget.
  - apply Hover; [exact Hs | lia].
  - destruct (Z_lt_le_dec timeoutMs (now w - startTime)) as [Hlate|Hin].
    + now apply Hover.
    + set (ws := mkWorld (now w + Qfloor (l_backoffMs l)
                          + timerLag env (length (waits w)))
                         (textractClient w) (calls w)
                         (waits w ++ [l_backoffMs l])).
      set (wg := mkWorld (now ws + getLatency env (calls ws)) true
                         (S (calls ws)) (waits ws)).
      set (l0 := mkLocals (orElse (JobStatus (reply (calls ws))) "UNKNOWN")
                   (concatBlocks (l_allBlocks l) (Blocks (reply (calls ws))))
                   (NextToken (reply (calls ws))) (l_pollCount l + 1)
                   (Qmin (l_backoffMs l * (3 # 2)) maxBackoffMs)).
      destruct (pagesEnd (calls w)) as [k Hk].
      destruct (chain_exists k (calls w) Hk) as (m & Hchain).
      assert (Hle : (calls w <= m)%nat) by (destruct Hchain; assumption).
      destruct (pageLoop_chain (m - calls w) (calls w) m l0 wg)
        as (f1 & l1 & w1 & Hpage & Hcalls1 & Hnow1 & Hc1 & Hs1 & Hb1);
        [lia | exact Hchain | reflexivity | reflexivity | reflexivity |].
      pose proof (Qfloor_backoff _ Hb) as Hfloor.
      pose proof (latency (calls ws)) as Hlat.
      pose proof (lag (length (waits w))) as Hlag.
      assert (Hstep : forall F, (f1 <= S F)%nat ->
                pollLoop (S F) env jobId startTime l w
                = pollLoop F env jobId startTime l1 w1).
      { intros F HF. rewrite (pollLoop_poll _ _ _ _ _ _ Hs Hin). fold ws.
        rewrite (bind_ok _ _ _ _ _ (getTextExtractionStatus_answered ws Hc)).
        fold wg. cbn [status blocks nextToken]. fold l0.
        apply (pageLoop_mono env jobId f1 (S F)) in Hpage; [|exact HF].
        now rewrite (bind_ok _ _ _ _ _ Hpage). }
      destruct (String.eqb (l_status l0) "IN_PROGRESS") eqn:Hs0.
      * apply String.eqb_eq in Hs0.
        destruct (IH l1 w1) as (f2 & r & w' & Hloop & Hcalls' & Hr).
        { now rewrite Hs1. }
        { rewrite Hb1. simpl. apply Q.min_glb; [lra | unfold Qle; simpl; lia]. }
        { exact Hc1. }
        { unfold wg, ws in Hnow1. unfold ws in Hlat. simpl in Hnow1, Hlat. lia. }
        exists (S (Nat.max f1 f2)), r, w'. split.
        { rewrite Hstep by lia.
          apply (pollLoop_mono env jobId startTime f2 (Nat.max f1 f2)); [lia|].
          exact Hloop. }
        split; [lia|]. rewrite Hcalls1 in Hr.
        destruct r as [l'|e].
        -- destruct Hr as (Hne & n & Hp & Hlt & Hnot). split; [exact Hne|].
           exists n. split; [now apply (pollAt_shift _ m)|]. now split.
        -- destruct Hr as (He & Hlate & Hall). split; [exact He|].
           split; [exact Hlate|]. intros n Hp Hlt.
           destruct (pollAt_step _ _ _ Hchain Hp) as [-> | Hp'].
           ++ now apply orElse_inProgress.
           ++ now apply Hall.
      * apply String.eqb_neq in Hs0.
        exists (S f1), (Ok l1), w1. split.
        { rewrite Hstep by lia. apply pollLoop_done. now rewrite Hs1. }
        split; [lia|]. split; [now rewrite Hs1|].
        exists (calls w). split; [constructor|]. split; [lia|].
        intros Hx. apply Hs0. now apply orElse_inProgress.
Qed.

(** C4, as the code has it. When the service answers every call and every
    chain of pages ends, the run ends, and it ends with the timeout error
    exactly when every status poll it made reported the job as in
    progress; more than five minutes have then passed since the submission
    returned, and the outcome is that error alone: the fragments
    accumulated by the polls are not part of it. *)
Theorem processDocument_times_out (s3Key : string) (w w1 : World) :
  startTextExtraction env s3Key w = Some (Ok jobId, w1) ->
  exists fuel0 r w',
    (forall fuel, (fuel0 <= fuel)%nat ->
       processDocument fuel env s3Key w = Some (r, w'))
    /\ ((forall n, pollAt reply (calls w1) n -> (n < calls w')%nat ->
                   JobStatus (reply n) = Some "IN_PROGRESS")
        <-> r = Throw (newError "Failed to process document: Text extraction timed out after 5 minutes. Document may be too large."))
    /\ (r = Throw (newError "Failed to process document: Text extraction timed out after 5 minutes. Document may be too large.") ->
        timeoutMs < now w' - now w1).
Proof.
  intros Hstart.
  destruct (pollLoop_outcome (now w1) 151
              (mkLocals "IN_PROGRESS" [] None 0 (2000 # 1)) w1)
    as (f & r0 & w' & Hloop & _ & Hr).
  { reflexivity. }
  { apply Qle_refl. }
  { eapply startTextExtraction_client; eauto. }
  { unfold timeoutMs. lia. }
  assert (Hrun : forall r,
    (match r0 with
     | Ok l =>
         if String.eqb (l_status l) "FAILED" then
           throw (newError "Textract job failed. Please check the PDF and try again.")
         else ret (extractTextFromBlocks (Some (l_allBlocks l)))
     | Throw e => throw e
     end) w' = Some (r, w') ->
    forall fuel, (f <= fuel)%nat ->
      processDocument fuel env s3Key w
      = Some (match r with
              | Ok text => Ok text
              | Throw e => Throw (newError ("Failed to process document: " ++ message e))
              end, w')).
  { intros r Hend fuel Hfuel.
    apply (processDocument_mono env s3Key f fuel); [exact Hfuel|].
    unfold processDocument.
    match goal with
    | |- tryCatch ?m ?h ?w0 = _ => assert (Hbody : m w0 = Some (r, w'))
    end.
    { rewrite (bind_ok _ _ _ _ _ Hstart).
      unfold bind at 1. unfold dateNow.
      destruct r0 as [l|e].
      - now rewrite (bind_ok _ _ _ _ _ Hloop).
      - rewrite (bind_throw _ _ _ _ _ Hloop). exact Hend. }
    destruct r as [text|e].
    - now rewrite (tryCatch_ok _ _ _ _ _ Hbody).
    - now rewrite (tryCatch_throw _ _ _ _ _ Hbody). }
  destruct r0 as [l|e].
  - destruct Hr as (_ & n & Hp & Hlt & Hnot).
    destruct (String.eqb (l_status l) "FAILED").
    + exists f. eexists. exists w'. split; [exact (Hrun _ eq_refl)|].
      split; [|discriminate]. split; [|discriminate].
      intros Hall. now destruct (Hnot (Hall n Hp Hlt)).
    + exists f. eexists. exists w'. split; [exact (Hrun _ eq_refl)|].
      split; [|discriminate]. split; [|discriminate].
      intros Hall. now destruct (Hnot (Hall n Hp Hlt)).
  - destruct Hr as (-> & Hlate & Hall).
    exists f. eexists. exists w'. split; [exact (Hrun _ eq_refl)|].
    split; [split; [reflexivity | intros _; exact Hall]|].
    intros _. exact Hlate.
Qed.

End Timeout.

Lemma processDocument_times_out_witness :
  exists fuel0 w',
    (forall fuel, (fuel0 <= fuel)%nat ->
       Textract.processDocument fuel Sample.stuck "H1" Sample.world0
       = Some (Throw (newError "Failed to process document: Text extraction timed out after 5 minutes. Document may be too large."), w'))
    /\ Textract.timeoutMs < Textract.now w' - 1120.
Proof.
  destruct (processDocument_times_out Sample.stuck "job-1"
              Scenario.partialAnswers
              (fun _ _ => eq_refl)
              (fun _ => ex_intro _ 0%nat eq_refl)
              (fun _ => ltac:(simpl; lia))
              (fun _ => ltac:(simpl; lia))
              "H1" Sample.world0 (Textract.mkWorld 1120 true 0 []))
    as (fuel0 & r & w' & Hrun & Hiff & Hlate).
  { vm_compute. reflexivity. }
  assert (Hr : r = Throw (newError "Failed to process document: Text extraction timed out after 5 minutes. Document may be too large."))
    by (apply Hiff; intros n _ _; reflexivity).
  exists fuel0, w'. split.
  - intros fuel Hfuel. rewrite <- Hr. now apply Hrun.
  - change 1120 with (Textract.now (Textract.mkWorld 1120 true 0 [])).
    now apply Hlate.
Defined.

(** C4 as stated fails. The ceiling is tested only before a wait: here
    fourteen polls report the job as in progress, the last of them 274343 ms
    after the submission; the next test finds the ceiling not yet passed,
    the wait of 30000 ms follows, and the fifteenth poll, made 304343 ms
    after the submission, reports SUCCEEDED. The run then returns the text,
    the fourteen fragments of the polls in progress included, although the
    job was still in progress when the ceiling passed. *)
Lemma processDocument_late_success :
  exists w',
    Textract.processDocument 16 Scenario.lateSuccess "H1" Sample.world0
    = Some (Ok (join LF (repeat "partial" 14 ++ ["last"])), w')
    /\ (forall n, (n < 14)%nat ->
          exists r, Textract.sendGet Scenario.lateSuccess n "job-1" None = Ok r
                    /\ Textract.JobStatus r = Some "IN_PROGRESS")
    /\ Textract.calls w' = 15%nat
    /\ Textract.waits w' = map Spec.backoffSchedule (seq 0 15)
    /\ Transcript.requested 0 14 = 274343
    /\ Textract.now w' - Textract.now Sample.world0 = 304343
    /\ Textract.timeoutMs < Textract.now w' - Textract.now Sample.world0.
Proof.
  eexists. split; [vm_compute; reflexivity|].
  split.
  { intros n Hn. eexists. split; [reflexivity|].
    replace (n <? 14)%nat with true by (symmetry; apply Nat.ltb_lt; exact Hn).
    reflexivity. }
  repeat split; vm_compute; reflexivity.
Qed.

Section EndlessPages.

Import Textract.

Variable env : Env.
Variable jobId : string.
Variable reply : nat -> GetResponse.
Hypothesis answered : forall n tok, sendGet env n jobId tok = Ok (reply n).

(** Every answer announces a further page. *)
Hypothesis morePages : forall n, truthy (NextToken (reply n)) = true.

Lemma pageLoop_endless :
  forall fuel l w,
    truthy (l_nextToken l) = true -> textractClient w = true ->
    pageLoop fuel env jobId l w = None.
Proof.
  induction fuel as [|fuel IH]; intros l w Ht Hc.
  - simpl. now rewrite Ht.
  - rewrite pageLoop_S, Ht.
    rewrite (bind_ok _ _ _ _ _ (getTextractClient_ready env w Hc)).
    rewrite (bind_ok _ _ _ _ _ (sendGetCommand_answered env jobId reply answered _ w)).
    apply IH; [apply morePages | exact Hc].
Qed.

(** The ceiling does not interrupt the inner loop: while the job is in
    progress and within the ceiling, a chain of pages that does not end
    keeps the run from ever ending, by the timeout or otherwise. *)
Lemma pollLoop_endless fuel startTime l w :
  l_status l = "IN_PROGRESS" ->
  now w - startTime <= timeoutMs ->
  textractClient w = true ->
  pollLoop fuel env jobId startTime l w = None.
Proof.
  intros Hs Hin Hc. destruct fuel as [|fuel].
  - rewrite pollLoop_O, Hs. reflexivity.
  - rewrite (pollLoop_poll _ _ _ _ _ _ Hs Hin).
    match goal with
    | |- bind _ _ ?ws = _ =>
        rewrite (bind_ok _ _ _ _ _
                   (getTextExtractionStatus_answered env jobId reply answered ws Hc))
    end.
    unfold bind at 1. rewrite pageLoop_endless; [reflexivity | apply morePages | reflexivity].
Qed.

End EndlessPages.

(** A run whose pages never end never ends, whatever the fuel. *)
Lemma processDocument_endless_pages :
  forall fuel,
    Textract.processDocument fuel Scenario.endless "H1" Sample.world0 = None.
Proof.
  intros fuel. unfold Textract.processDocument.
  assert (Hstart : Textract.startTextExtraction Scenario.endless "H1" Sample.world0
                   = Some (Ok "job-1", Textract.mkWorld 1000 true 0 []))
    by (vm_compute; reflexivity).
  unfold Textract.tryCatch. rewrite (bind_ok _ _ _ _ _ Hstart).
  unfold Textract.bind at 1. unfold Textract.dateNow.
  unfold Textract.bind at 1.
  rewrite (pollLoop_endless Scenario.endless "job-1"
             (fun _ => Textract.mkGetResponse (Some "IN_PROGRESS")
                         (Some [Sample.line "page"]) (Some "more")));
    [reflexivity | intros; reflexivity | intros; reflexivity | reflexivity
    | vm_compute; discriminate | reflexivity].
Qed.

(** ** Terminal statuses *)

Section TerminalStatus.

Import Textract Spec.




End TerminalStatus.

(** ** The metadata store *)

Section StoreFacts.

Import Store.

(** Connecting changes the singletons only. *)
Lemma getMetadataCollection_frame d r d' :
  getMetadataCollection d = (r, d') ->
  documents d' = documents d /\ textIndex d' = textIndex d
  /\ connectOutcome d' = connectOutcome d.
Proof.
  unfold getMetadataCollection, getDatabase, getMongoClient.
  destruct (db d); [intros H; inversion H; auto|].
  destruct (client d); [intros H; inversion H; auto|].
  destruct (getConnectionString d); [|intros H; inversion H; auto].
  destruct (constructOutcome d); [|intros H; inversion H; auto].
  destruct (connectOutcome d) eqn:Hc; intros H; inversion H; simpl; auto.
Qed.

Lemma Status_eqb_eq a b : Status_eqb a b = true <-> a = b.
Proof. destruct a, b; simpl; split; congruence. Qed.

Lemma find_completed (test : PDFMetadataDocument -> bool) docs m :
  In m (map fields (filter (fun doc => isCompleted doc && test doc) docs)) ->
  status m = completed
  /\ exists doc, In doc docs /\ fields doc = m /\ test doc = true.
Proof.
  intros Hin. apply in_map_iff in Hin. destruct Hin as (doc & <- & Hdoc).
  apply filter_In in Hdoc. destruct Hdoc as (Hdoc & Hok).
  apply andb_true_iff in Hok. destruct Hok as (Hc & Ht).
  split; [now apply Status_eqb_eq | eauto].
Qed.

(** What [searchMetadata] returns comes from one of its two queries. *)
Lemma searchMetadata_source eng query d results d' :
  searchMetadata eng query d = (Ok results, d') ->
  documents d' = documents d /\ textIndex d' = textIndex d
  /\ (findText eng query d' = Ok (filter (fun doc => isCompleted doc
                 && textMatch eng query (extractedText (fields doc))) (documents d))
      /\ results = map fields (filter (fun doc => isCompleted doc
                 && textMatch eng query (extractedText (fields doc))) (documents d))
      /\ results <> []
      \/ (forall docs, findText eng query d' = Ok docs -> docs = [])
         /\ exists test, regexCompile eng query = Some test
            /\ results = map fields (filter (fun doc => isCompleted doc
                 && test (extractedText (fields doc))) (documents d))).
Proof.
  unfold searchMetadata.
  destruct (getMetadataCollection d) as [[u|e] d1] eqn:Hconn; [|discriminate].
  destruct (getMetadataCollection_frame _ _ _ Hconn) as (Hdocs & Hidx & Hco).
  assert (Hregex : forall r,
    match findRegex eng query d1 with
    | Ok docs => (Ok (map fields docs), d1)
    | Throw e => (wrap "Failed to search metadata in MongoDB: " (Throw e), d1)
    end = (Ok r, d') ->
    d1 = d' /\ exists test, regexCompile eng query = Some test
      /\ r = map fields (filter (fun doc => isCompleted doc
                 && test (extractedText (fields doc))) (documents d))).
  { intros r. unfold findRegex.
    destruct (serverReached d1); [|discriminate].
    destruct (regexCompile eng query) as [test|]; [|discriminate].
    intros H. inversion H; subst. rewrite Hdocs. eauto. }
  intros H.
  assert (Hd : d' = d1).
  { revert H. destruct (findText eng query d1) as [[|x xs]|]; simpl;
      try (intros H; inversion H; reflexivity);
      destruct (findRegex eng query d1); simpl; intros H; inversion H;
      reflexivity. }
  subst d'. split; [exact Hdocs|]. split; [exact Hidx|].
  clear Hidx Hco. revert H.
  unfold findText at 1.
  destruct (serverReached d1) eqn:Hreach.
  2:{ simpl. intros H. apply Hregex in H. destruct H as (_ & H).
      right. split; [|exact H].
      intros docs. unfold findText. now rewrite Hreach. }
  destruct (textIndex d1) eqn:Hti.
  2:{ simpl. intros H. apply Hregex in H. destruct H as (_ & H).
      right. split; [|exact H].
      intros docs. unfold findText. now rewrite Hreach, Hti. }
  destruct (filter _ (documents d1)) as [|doc docs] eqn:Hf.
  - simpl. intros H. apply Hregex in H. destruct H as (_ & H).
    right. split; [|exact H].
    intros docs. unfold findText. rewrite Hreach, Hti, Hf. congruence.
  - cbn [length Z.of_nat]. change (Z.pos _ =? 0) with false. cbv iota.
    intros H. inversion H; subst results.
    left. unfold findText. rewrite Hreach, Hti, <- Hdocs, Hf.
    repeat split. discriminate.
Qed.

(** C3: every record [searchMetadata] returns is a stored record whose
    status is [completed]; a stored record in state [processing] or [failed]
    is not returned, whatever its text. *)
Theorem searchMetadata_only_completed eng query d results d' :
  searchMetadata eng query d = (Ok results, d') ->
  Forall (fun m => status m = completed) results
  /\ (forall m, In m results -> exists doc, In doc (documents d) /\ fields doc = m)
  /\ (forall doc, In doc (documents d) ->
        status (fields doc) = processing \/ status (fields doc) = failed ->
        ~ In (fields doc) results).
Proof.
  intros H.
  assert (Hall : forall m, In m results ->
            status m = completed
            /\ exists doc, In doc (documents d) /\ fields doc = m).
  { destruct (searchMetadata_source _ _ _ _ _ H)
      as (_ & _ & [(_ & -> & _) | (_ & test & _ & ->)]); intros m Hm.
    - apply (find_completed (fun doc => textMatch eng query (extractedText (fields doc))))
        in Hm. destruct Hm as (Hs & doc & Hd & Hf & _). eauto.
    - apply (find_completed (fun doc => test (extractedText (fields doc)))) in Hm.
      destruct Hm as (Hs & doc & Hd & Hf & _). eauto. }
  split; [|split].
  - apply Forall_forall. intros m Hm. now apply Hall.
  - intros m Hm. now apply Hall.
  - intros doc _ Hst Hin. apply Hall in Hin. destruct Hin as (Hc & _).
    destruct Hst as [Hst|Hst]; congruence.
Qed.

Lemma searchMetadata_only_completed_witness :
  Forall (fun m => status m = completed)
    [fields (Sample.record "d2" "b.pdf" "say Hello World example" completed)]
  /\ (forall m,
        In m [fields (Sample.record "d2" "b.pdf" "say Hello World example" completed)] ->
        exists doc, In doc (documents Sample.library) /\ fields doc = m)
  /\ (forall doc, In doc (documents Sample.library) ->
        status (fields doc) = processing \/ status (fields doc) = failed ->
        ~ In (fields doc)
             [fields (Sample.record "d2" "b.pdf" "say Hello World example" completed)]).
Proof.
  apply (searchMetadata_only_completed Sample.engine "hello" Sample.library _
           Sample.library).
  vm_compute. reflexivity.
Defined.

End StoreFacts.

(** ** Searching in strings *)

Section Occurrences.

Import Spec.

Lemma startsWith_spec (p s : string) :
  startsWith p s = true <-> exists after, s = (p ++ after)%string.
Proof.
  revert s. induction p as [|a p IH]; intros s; simpl.
  - split; [intros _; now exists s | reflexivity].
  - destruct s as [|b s].
    + split; [discriminate | intros (after & H); discriminate].
    + rewrite andb_true_iff, IH. split.
      * intros (Hab & after & ->). apply Ascii.eqb_eq in Hab. subst.
        now exists after.
      * intros (after & H). inversion H; subst.
        split; [apply Ascii.eqb_refl | now exists after].
Qed.

Lemma occursAt_nonneg (p s : string) (i : Z) : occursAt p s i -> 0 <= i.
Proof. intros (before & after & _ & <-). apply len_nonneg. Qed.

Lemma occursAt_bound (p s : string) (i : Z) :
  occursAt p s i -> i + len p <= len s.
Proof.
  intros (before & after & -> & <-). rewrite !len_append.
  pose proof (len_nonneg after). lia.
Qed.

Lemma occursAt_head (p s : string) :
  occursAt p s 0 <-> startsWith p s = true.
Proof.
  rewrite startsWith_spec. split.
  - intros (before & after & -> & Hlen).
    destruct before; [now exists after | rewrite len_cons in Hlen].
    pose proof (len_nonneg before). lia.
  - intros (after & ->). now exists ""%string, after.
Qed.

Lemma occursAt_tail (p s : string) (c : ascii) (i : Z) :
  0 <= i -> (occursAt p (String c s) (i + 1) <-> occursAt p s i).
Proof.
  intros Hi. split.
  - intros (before & after & Heq & Hlen). destruct before as [|b before].
    + change (len "") with 0 in Hlen. lia.
    + simpl in Heq. inversion Heq; subst. rewrite len_cons in Hlen.
      exists before, after. split; [reflexivity | lia].
  - intros (before & after & -> & <-).
    exists (String c before), after. split; [reflexivity|].
    rewrite len_cons. lia.
Qed.

(** [indexOfFrom] finds the first occurrence, counted from [i]. *)
Lemma indexOfFrom_spec (p : string) :
  forall (s : string) (i : Z),
    (indexOfFrom p s i = -1 /\ forall j, ~ occursAt p s j)
    \/ (exists j, indexOfFrom p s i = i + j /\ occursAt p s j
                  /\ forall j', occursAt p s j' -> j <= j').
Proof.
  induction s as [|c s IH]; intros i.
  - simpl. destruct (startsWith p "") eqn:Hp.
    + right. exists 0. split; [lia|]. split; [now apply occursAt_head|].
      intros j' Hj'. now apply occursAt_nonneg in Hj'.
    + left. split; [reflexivity|]. intros j Hj.
      pose proof (occursAt_nonneg _ _ _ Hj) as Hnn.
      pose proof (occursAt_bound _ _ _ Hj) as Hb.
      change (len "") with 0 in Hb. pose proof (len_nonneg p).
      assert (j = 0) by lia. subst j.
      apply occursAt_head in Hj. congruence.
  - cbn [indexOfFrom]. destruct (startsWith p (String c s)) eqn:Hp.
    + right. exists 0. split; [lia|]. split; [now apply occursAt_head|].
      intros j' Hj'. now apply occursAt_nonneg in Hj'.
    + assert (Hshift : forall j, occursAt p (String c s) j ->
                                 occursAt p s (j - 1)).
      { intros j Hj. pose proof (occursAt_nonneg _ _ _ Hj) as Hnn.
        assert (j <> 0).
        { intros ->. apply occursAt_head in Hj. congruence. }
        apply (occursAt_tail p s c (j - 1)); [lia|].
        now replace (j - 1 + 1) with j by lia. }
      destruct (IH (i + 1)) as [(Hnone & Hno) | (j & Hj & Hocc & Hmin)].
      * left. split; [exact Hnone|]. intros j Hj.
        apply Hshift in Hj. now apply (Hno (j - 1)).
      * right. exists (j + 1). split; [lia|]. split.
        -- apply occursAt_tail; [now apply occursAt_nonneg in Hocc | exact Hocc].
        -- intros j' Hj'. apply Hshift in Hj'.
           apply Hmin in Hj'. lia.
Qed.

Lemma indexOf_spec (s p : string) :
  (indexOf s p = -1 /\ forall j, ~ occursAt p s j)
  \/ (0 <= indexOf s p /\ occursAt p s (indexOf s p)
      /\ forall j', occursAt p s j' -> indexOf s p <= j').
Proof.
  unfold indexOf.
  destruct (indexOfFrom_spec p s 0) as [H | (j & Hj & Hocc & Hmin)].
  - now left.
  - right. rewrite Hj. simpl. split; [now apply occursAt_nonneg in Hocc|].
    now split.
Qed.

Lemma includes_spec (s p : string) :
  includes s p = true <-> exists i, occursAt p s i.
Proof.
  unfold includes.
  destruct (indexOf_spec s p) as [(Hm & Hno) | (Hnn & Hocc & _)].
  - rewrite Hm. simpl. split; [discriminate|].
    intros (i & Hi). now apply Hno in Hi.
  - split; [intros _; eauto|]. intros _.
    apply negb_true_iff, Z.eqb_neq. lia.
Qed.

Lemma length_trimStart (s : string) :
  (String.length (trimStart s) <= String.length s)%nat.
Proof.
  induction s as [|c s IH]; simpl; [lia|].
  destruct (isSpace c); simpl; lia.
Qed.

Lemma length_trimEnd (s : string) :
  (String.length (trimEnd s) <= String.length s)%nat.
Proof.
  induction s as [|c s IH]; simpl; [lia|].
  destruct (trimEnd s); [destruct (isSpace c)|]; simpl in *; lia.
Qed.

Lemma len_trim (s : string) : len (trim s) <= len s.
Proof.
  unfold trim, len.
  pose proof (length_trimEnd (trimStart s)). pose proof (length_trimStart s).
  lia.
Qed.

End Occurrences.

(** ** The search handler *)

Section SearchHandler.

Import Spec SearchRoute.

(** The scenario of the specification: the query "wor" in a text that
    contains "Hello World". *)
Lemma previewOf_hello_world :
  previewOf "wor" "say Hello World example" = "say Hello World example"
  /\ previewOf "xyz" "say Hello World example" = "".
Proof. split; reflexivity. Qed.

(** C9: a query of fewer than two characters, the empty one included, is
    answered with the validation error; [searchMetadata] is not called and
    the database is left as it was. *)
Theorem GET_rejects_short_query eng sortResults (query : string) d :
  len query < 2 ->
  GET eng sortResults (Some query) d
  = mkOutcome (BadRequest "Query must be at least 2 characters") [] d
  /\ storeQueries (GET eng sortResults (Some query) d) = [].
Proof.
  intros Hshort.
  assert (Hget : GET eng sortResults (Some query) d
                 = mkOutcome (BadRequest "Query must be at least 2 characters") [] d).
  { unfold GET. destruct query as [|c query]; [reflexivity|].
    cbn [truthy negb orb orElse].
    pose proof (len_trim (String c query)) as Htrim.
    replace (len (trim (String c query)) <? 2) with true
      by (symmetry; apply Z.ltb_lt; lia).
    reflexivity. }
  split; [exact Hget | now rewrite Hget].
Qed.

Lemma GET_rejects_short_query_witness :
  GET Sample.engine (fun _ results => results) (Some "a") Sample.library
  = mkOutcome (BadRequest "Query must be at least 2 characters") [] Sample.library
  /\ storeQueries
       (GET Sample.engine (fun _ results => results) (Some "a") Sample.library)
     = [].
Proof.
  apply (GET_rejects_short_query Sample.engine (fun _ results => results) "a"
           Sample.library).
  vm_compute. reflexivity.
Defined.

(** A query that passes the validation reaches the store exactly once. *)
Lemma GET_long_query_searches eng sortResults (query : string) d :
  2 <= len (trim query) ->
  storeQueries (GET eng sortResults (Some query) d) = [query].
Proof.
  intros Hlong. unfold GET.
  destruct query as [|c query]; [vm_compute in Hlong; congruence|].
  cbn [truthy negb orb orElse].
  replace (len (trim (String c query)) <? 2) with false
    by (symmetry; apply Z.ltb_ge; lia).
  destruct (Store.searchMetadata eng (String c query) d) as [[results|e] d'];
    reflexivity.
Qed.

End SearchHandler.

(** ** The two tiers of the search *)

Section TwoTiers.

Import Spec Store.

Lemma parse_plain (q : string) :
  Regex.plain q = true ->
  Regex.parse q = Some (map Regex.Lit (list_ascii_of_string q)).
Proof.
  induction q as [|c q IH]; simpl; [reflexivity|].
  intros H. apply andb_true_iff in H. destruct H as (Hc & Hq).
  rewrite (IH Hq). apply negb_true_iff in Hc.
  destruct (Ascii.eqb_spec c "."); [subst; discriminate|].
  now rewrite Hc.
Qed.

Lemma matchesHere_literals (q s : string) :
  Regex.matchesHere (map Regex.Lit (list_ascii_of_string q)) s
  = startsWith (toLowerCase q) (toLowerCase s).
Proof.
  revert s. induction q as [|c q IH]; intros s; simpl; [reflexivity|].
  destruct s as [|x s]; simpl; [reflexivity|]. now rewrite IH.
Qed.

Lemma search_literals (q : string) :
  forall (s : string) (i : Z),
    0 <= i ->
    (indexOfFrom (toLowerCase q) (toLowerCase s) i =? -1)
    = negb (Regex.search (map Regex.Lit (list_ascii_of_string q)) s).
Proof.
  induction s as [|x s IH]; intros i Hi.
  - cbn [toLowerCase indexOfFrom Regex.search].
    rewrite matchesHere_literals. cbn [toLowerCase].
    destruct (startsWith (toLowerCase q) ""); simpl; [|reflexivity].
    apply Z.eqb_neq. lia.
  - cbn [toLowerCase indexOfFrom Regex.search].
    rewrite matchesHere_literals. cbn [toLowerCase].
    destruct (startsWith (toLowerCase q) _); simpl.
    + apply Z.eqb_neq. lia.
    + apply IH. lia.
Qed.

(** The fragment obeys the law of literal patterns. *)
Lemma compile_literalOnPlain : Regex.literalOnPlain Regex.compile.
Proof.
  intros q Hq. unfold Regex.compile. rewrite (parse_plain q Hq). simpl.
  eexists. split; [reflexivity|]. intros t.
  unfold occursIgnoringCase. rewrite <- includes_spec.
  unfold includes, indexOf. rewrite (search_literals q t 0) by lia.
  now rewrite negb_involutive.
Qed.

(** C2, as the code has it, for every query and every store: the indexed
    text search comes first and the completed records it matches are
    returned when there are any; exactly when it gives none (or fails) the
    fallback answers, which matches [extractedText] against the query taken
    as a pattern, case ignored, and returns the completed records that
    match. When the query has no special character, and the server's
    pattern language treats such a pattern as a literal, these are exactly
    the completed records whose text contains the query, case ignored. *)
Theorem searchMetadata_text_then_pattern eng query d results d' :
  searchMetadata eng query d = (Ok results, d') ->
  match findText eng query d' with
  | Ok (doc :: docs) =>
      doc :: docs
      = filter (fun doc => isCompleted doc
                           && textMatch eng query (extractedText (fields doc)))
               (documents d)
      /\ results = map fields (doc :: docs)
  | _ =>
      exists test,
        regexCompile eng query = Some test
        /\ results
           = map fields
               (filter (fun doc => isCompleted doc
                                   && test (extractedText (fields doc)))
                       (documents d))
        /\ (Regex.literalOnPlain (regexCompile eng) ->
            Regex.plain query = true ->
            forall m,
              In m results <->
              exists doc, In doc (documents d) /\ fields doc = m
                          /\ status m = completed
                          /\ occursIgnoringCase query (extractedText m))
  end.
Proof.
  intros Hrun.
  destruct (searchMetadata_source _ _ _ _ _ Hrun)
    as (_ & _ & [(Htext & Hres & Hne) | (Hnone & test & Hcompile & Hres)]).
  - rewrite Htext.
    destruct (filter _ (documents d)) as [|doc docs]; [|split; [reflexivity | exact Hres]].
    subst results. now contradiction Hne.
  - assert (Hfallback :
      exists test0,
        regexCompile eng query = Some test0
        /\ results
           = map fields
               (filter (fun doc => isCompleted doc
                                   && test0 (extractedText (fields doc)))
                       (documents d))
        /\ (Regex.literalOnPlain (regexCompile eng) ->
            Regex.plain query = true ->
            forall m,
              In m results <->
              exists doc, In doc (documents d) /\ fields doc = m
                          /\ status m = completed
                          /\ occursIgnoringCase query (extractedText m))).
    { exists test. split; [exact Hcompile|]. split; [exact Hres|].
      intros Hlaw Hplain.
      destruct (Hlaw query Hplain) as (test' & Hcompile' & Htest).
      assert (test' = test) by congruence. subst test'.
      intros m. subst results. split.
      - intros Hin.
        apply (find_completed (fun doc => test (extractedText (fields doc)))) in Hin.
        destruct Hin as (Hs & doc & Hd & <- & Ht).
        exists doc. repeat split; try assumption. now apply Htest.
      - intros (doc & Hd & <- & Hs & Hocc).
        apply in_map, filter_In. split; [exact Hd|].
        apply andb_true_iff. split; [now apply Status_eqb_eq | now apply Htest]. }
    destruct (findText eng query d') as [[|doc docs]|] eqn:Hft;
      try exact Hfallback.
    specialize (Hnone _ eq_refl). discriminate.
Qed.

Lemma searchMetadata_text_then_pattern_witness :
  findText Sample.engine "wor" Sample.library = Ok []
  /\ exists test,
      regexCompile Sample.engine "wor" = Some test
      /\ [fields (Sample.record "d2" "b.pdf" "say Hello World example" completed)]
         = map fields
             (filter (fun doc => isCompleted doc
                                 && test (extractedText (fields doc)))
                     (documents Sample.library))
      /\ (Regex.literalOnPlain (regexCompile Sample.engine) ->
          Regex.plain "wor" = true ->
          forall m,
            In m [fields (Sample.record "d2" "b.pdf" "say Hello World example" completed)]
            <->
            exists doc, In doc (documents Sample.library) /\ fields doc = m
                        /\ status m = completed
                        /\ occursIgnoringCase "wor" (extractedText m)).
Proof.
  assert (Hrun : searchMetadata Sample.engine "wor" Sample.library
                 = (Ok [fields (Sample.record "d2" "b.pdf"
                                  "say Hello World example" completed)],
                    Sample.library))
    by (vm_compute; reflexivity).
  assert (Htext : findText Sample.engine "wor" Sample.library = Ok [])
    by (vm_compute; reflexivity).
  pose proof (searchMetadata_text_then_pattern Sample.engine "wor"
                Sample.library _ Sample.library Hrun) as H.
  rewrite Htext in H. split; [exact Htext | exact H].
Defined.

(** C2 as stated fails: with the query [a.c] the text search finds nothing
    and the fallback returns the completed record whose text is [abc], in
    which the query does not occur. *)
Lemma searchMetadata_pattern_not_literal :
  findText Sample.engine "a.c" Sample.library = Ok []
  /\ fst (searchMetadata Sample.engine "a.c" Sample.library)
     = Ok [fields (Sample.record "d1" "a.pdf" "abc" completed)]
  /\ ~ occursIgnoringCase "a.c" "abc".
Proof.
  split; [vm_compute; reflexivity|].
  split; [vm_compute; reflexivity|].
  unfold occursIgnoringCase. rewrite <- includes_spec.
  vm_compute. discriminate.
Qed.

End TwoTiers.

(** ** Updating a record *)

Section Update.

Import Store.

Lemma findOneAndUpdate_spec (i : string)
  (update : PDFMetadataDocument -> PDFMetadataDocument) :
  forall docs,
    (exists before old after,
        docs = before ++ old :: after
        /\ id (fields old) = i
        /\ Forall (fun doc => id (fields doc) <> i) before
        /\ findOneAndUpdate i update docs
           = (Some (update old), before ++ update old :: after))
    \/ (Forall (fun doc => id (fields doc) <> i) docs
        /\ findOneAndUpdate i update docs = (None, docs)).
Proof.
  induction docs as [|doc docs IH]; simpl.
  - right. split; [constructor | reflexivity].
  - destruct (String.eqb_spec (id (fields doc)) i) as [Heq|Hne].
    + left. exists [], doc, docs. repeat split; auto.
    + destruct IH as [(before & old & after & -> & Hid & Hbefore & Hrun)
                     | (Hnone & Hrun)]; rewrite Hrun.
      * left. exists (doc :: before), old, after.
        repeat split; auto.
      * right. split; [constructor; assumption | reflexivity].
Qed.

(** C8: an update of an existing record changes the first record with that
    id and no other; in it the supplied fields take the new values, the
    others keep theirs, and [id] keeps its value even when the update
    carries one; the updated record is returned. Without such a record the
    result is [null] and the collection is unchanged. *)
Theorem updatePDFMetadata_merges (i : string) (updates : Partial) d r d' :
  updatePDFMetadata i updates d = (Ok r, d') ->
  (exists before old after,
      documents d = before ++ old :: after
      /\ id (fields old) = i
      /\ Forall (fun doc => id (fields doc) <> i) before
      /\ let new :=
           mkDocument (_id old)
             (mkPDFMetadata
                (id (fields old))
                (pick (p_filename updates) (filename (fields old)))
                (pick (p_extractedText updates) (extractedText (fields old)))
                (pick (p_uploadedAt updates) (uploadedAt (fields old)))
                (match p_textractJobId updates with
                 | Some j => Some j
                 | None => textractJobId (fields old)
                 end)
                (pick (p_status updates) (status (fields old)))) in
         documents d' = before ++ new :: after /\ r = Some (fields new))
  \/ (Forall (fun doc => id (fields doc) <> i) (documents d)
      /\ r = None /\ documents d' = documents d).
Proof.
  unfold updatePDFMetadata.
  destruct (getMetadataCollection d) as [[u|e] d1] eqn:Hconn; [|discriminate].
  destruct (getMetadataCollection_frame _ _ _ Hconn) as (Hdocs & _ & _).
  destruct (serverReached d1); [|discriminate].
  destruct (findOneAndUpdate_spec i (applySet (omitId updates)) (documents d1))
    as [(before & old & after & Hsplit & Hid & Hbefore & Hrun) | (Hnone & Hrun)];
    rewrite Hrun; intros H; inversion H; subst r d'; simpl.
  - left. exists before, old, after. rewrite <- Hdocs. auto.
  - right. rewrite <- Hdocs. auto.
Qed.

Lemma updatePDFMetadata_merges_witness :
  let d := Sample.library in
  let updates := mkPartial (Some "other") None (Some "X") None None (Some completed) in
  let expected := Sample.record "d3" "c.pdf" "X" completed in
  let d' := withDocuments d
              [ Sample.record "d1" "a.pdf" "abc" completed;
                Sample.record "d2" "b.pdf" "say Hello World example" completed;
                expected;
                Sample.record "d4" "d.pdf" "" failed ] in
  (exists before old after,
      documents d = before ++ old :: after
      /\ id (fields old) = "d3"
      /\ Forall (fun doc => id (fields doc) <> "d3") before
      /\ let new :=
           mkDocument (_id old)
             (mkPDFMetadata
                (id (fields old))
                (pick (p_filename updates) (filename (fields old)))
                (pick (p_extractedText updates) (extractedText (fields old)))
                (pick (p_uploadedAt updates) (uploadedAt (fields old)))
                (match p_textractJobId updates with
                 | Some j => Some j
                 | None => textractJobId (fields old)
                 end)
                (pick (p_status updates) (status (fields old)))) in
         documents d' = before ++ new :: after
         /\ Some (fields expected) = Some (fields new))
  \/ (Forall (fun doc => id (fields doc) <> "d3") (documents d)
      /\ Some (fields expected) = None /\ documents d' = documents d).
Proof.
  intros d updates expected d'.
  apply (updatePDFMetadata_merges "d3" updates d (Some (fields expected)) d').
  vm_compute. reflexivity.
Defined.

End Update.

(** ** The process handler *)

Section ProcessHandler.

Import ProcessRoute.

(** C1, as the code behaves: when the extraction throws, the [catch] block
    reads the request body a second time; the body has been consumed, so
    that read rejects, the handler's promise rejects with this [TypeError]
    instead of answering with the extraction error, and neither the status
    update nor the clean-up runs. *)
Theorem POST_extraction_failure_rejects env w body e :
  bodyUsed w = false ->
  payload env = Ok body ->
  truthy (b_id body) = true ->
  truthy (b_s3Key body) = true ->
  processDocument env (orElse (b_s3Key body) "") = Throw e ->
  exists w',
    POST env w
    = (Rejected (newTypeError "Body is unusable: Body has already been read"), w')
    /\ db w' = db w /\ deleted w' = deleted w.
Proof.
  intros Hfresh Hbody Hid Hkey Hfail.
  unfold POST, tryBlock, bind at 1, requestJson.
  rewrite Hfresh, Hbody, Hid, Hkey. cbn [negb orb].
  unfold bind at 1, awaitProcessDocument. rewrite Hfail.
  unfold catchBlock, bind, log, requestJson. cbn.
  eexists. split; [reflexivity|]. split; reflexivity.
Qed.

Lemma POST_extraction_failure_rejects_witness :
  exists w',
    POST Sample.failingRequest Sample.freshRequest
    = (Rejected (newTypeError "Body is unusable: Body has already been read"), w')
    /\ db w' = db Sample.freshRequest
    /\ deleted w' = deleted Sample.freshRequest.
Proof.
  apply (POST_extraction_failure_rejects Sample.failingRequest Sample.freshRequest
           (mkBody (Some "d3") (Some "temp-pdfs/1-c.pdf"))
           (newError "Failed to process document: Textract job failed. Please check the PDF and try again."));
    reflexivity.
Defined.

(** What the [catch] block does when the body can be read: it answers with
    the extraction error, whether the status update throws or not. *)
Lemma catchBlock_with_readable_body env w body error :
  bodyUsed w = false ->
  payload env = Ok body ->
  truthy (b_id body) = true ->
  exists w',
    catchBlock env error w = (Ok (ServerError (message error)), w').
Proof.
  intros Hfresh Hbody Hid.
  unfold catchBlock, bind at 1, log. cbn [bodyUsed].
  unfold bind at 1, requestJson. cbn [bodyUsed]. rewrite Hfresh, Hbody, Hid.
  unfold bind at 1, catch at 1, bind at 1, updatePDFMetadata. cbn [db].
  destruct (Store.updatePDFMetadata _ _ _) as [[r|err] d1].
  - cbn. destruct (truthy (b_s3Key body)).
    + unfold bind, catch, deleteFromS3, log. cbn.
      destruct (sendDelete env _); cbn; eexists; reflexivity.
    + cbn. eexists; reflexivity.
  - cbn. destruct (truthy (b_s3Key body)).
    + unfold bind, catch, deleteFromS3, log. cbn.
      destruct (sendDelete env _); cbn; eexists; reflexivity.
    + cbn. eexists; reflexivity.
Qed.

(** On a request whose body has not been read the [catch] block does mark
    the record as failed: the update is reached only then. *)
Lemma catchBlock_marks_failed_example :
  exists w',
    catchBlock Sample.failingRequest (newError "boom") Sample.freshRequest
    = (Ok (ServerError "boom"), w')
    /\ map (fun doc => (Store.id (Store.fields doc),
                        Store.status (Store.fields doc)))
           (Store.documents (db w'))
       = [("d1", Store.completed); ("d2", Store.completed);
          ("d3", Store.failed); ("d4", Store.failed)].
Proof. eexists. split; vm_compute; reflexivity. Qed.

End ProcessHandler.

(** ** Submitting a job *)

Section Submission.

Import Textract Spec.

Lemma truthy_Some (s : option string) :
  truthy s = true -> exists v, s = Some v /\ v <> ""%string /\ orElse s "" = v.
Proof.
  destruct s as [[|c v]|]; try discriminate. intros _.
  exists (String c v). repeat split. discriminate.
Qed.

Lemma startTextExtraction_cases env s3Key w :
  exists r w',
    startTextExtraction env s3Key w = Some (r, w')
    /\ calls w' = calls w /\ waits w' = waits w
    /\ (now w' = now w \/ now w' = now w + startLatency env)
    /\ match r with
       | Ok jobId =>
           jobId <> ""%string
           /\ textractClient w' = true
           /\ exists bucket,
               AWS_S3_BUCKET_NAME env = Some bucket /\ bucket <> ""%string
               /\ sendStart env bucket s3Key = Ok (Some jobId)
       | Throw e => name e = "Error"
       end.
Proof.
  unfold startTextExtraction, tryCatch.
  destruct (truthy (AWS_S3_BUCKET_NAME env)) eqn:Hbucket.
  2:{ unfold bind at 1, throw. cbn. do 2 eexists. split; [reflexivity|]. cbn. auto. }
  destruct (truthy_Some _ Hbucket) as (bucket & Hb & Hne & Hor). rewrite Hor.
  unfold bind at 1, ret.
  unfold bind at 1.
  destruct (getTextractClient env w) as [[[[]|e] w1]|] eqn:Hclient.
  - pose proof (keepsWaits_getTextractClient _ _ _ _ Hclient) as Hw.
    pose proof (getTextractClient_sets _ _ _ Hclient) as Hc.
    assert (Hcalls : calls w1 = calls w /\ now w1 = now w).
    { unfold getTextractClient in Hclient. destruct (textractClient w).
      - inversion Hclient; auto.
      - destruct (_ || _); inversion Hclient; auto. }
    destruct Hcalls as (Hcalls & Hnow).
    unfold bind, sendStartCommand.
    destruct (sendStart env bucket s3Key) as [[[|c j]|]|e] eqn:Hsend;
      cbn [truthy orElse];
      repeat (destruct (String.eqb _ _));
      do 2 eexists; (split; [reflexivity|]); cbn;
      repeat split; try assumption; try (right; lia); try discriminate.
    exists bucket. auto.
  - unfold getTextractClient in Hclient. destruct (textractClient w).
    + inversion Hclient.
    + destruct (_ || _); inversion Hclient; subst. cbn.
      do 2 eexists. split; [reflexivity|]. cbn. auto.
  - unfold getTextractClient in Hclient. destruct (textractClient w).
    + inversion Hclient.
    + destruct (_ || _); inversion Hclient.
Qed.

(** [startTextExtraction] always ends; it asks the service for no status and
    sets no timer; the job id it returns is the non-empty [JobId] of the
    service's answer for the configured bucket; whatever goes wrong is
    thrown as a plain [Error]. *)
Theorem startTextExtraction_result env s3Key w :
  exists r w',
    startTextExtraction env s3Key w = Some (r, w')
    /\ calls w' = calls w /\ waits w' = waits w
    /\ (now w' = now w \/ now w' = now w + startLatency env)
    /\ match r with
       | Ok jobId =>
           jobId <> ""%string
           /\ textractClient w' = true
           /\ exists bucket,
               AWS_S3_BUCKET_NAME env = Some bucket /\ bucket <> ""%string
               /\ sendStart env bucket s3Key = Ok (Some jobId)
       | Throw e => name e = "Error"
       end.
Proof. exact (startTextExtraction_cases env s3Key w). Qed.

(** A failure of the service is reported under one of three fixed messages,
    chosen by the name of the error; any other error keeps its message
    behind the prefix of [startTextExtraction]. *)
Theorem startTextExtraction_service_error env s3Key w bucket e :
  AWS_S3_BUCKET_NAME env = Some bucket -> bucket <> ""%string ->
  textractClient w = true ->
  sendStart env bucket s3Key = Throw e ->
  exists m w',
    startTextExtraction env s3Key w = Some (Throw (newError m), w')
    /\ (name e = "ThrottlingException" ->
        m = "AWS Textract is throttled. Please try again later.")
    /\ (name e = "DocumentTooLargeException" ->
        m = "PDF document is too large for Textract processing.")
    /\ (name e = "InvalidS3ObjectException" ->
        m = "Invalid S3 object. Please check the bucket and key.")
    /\ (name e <> "ThrottlingException" ->
        name e <> "DocumentTooLargeException" ->
        name e <> "InvalidS3ObjectException" ->
        m = ("Failed to start text extraction: " ++ message e)%string).
Proof.
  intros Hb Hne Hc Hsend.
  unfold startTextExtraction, tryCatch. rewrite Hb.
  destruct bucket as [|c bucket]; [congruence|]. cbn [truthy orElse].
  unfold bind at 1, ret.
  rewrite (bind_ok _ _ _ _ _ (getTextractClient_ready env w Hc)).
  unfold bind, sendStartCommand. rewrite Hsend.
  destruct (String.eqb_spec (name e) "ThrottlingException") as [H1|H1];
    [|destruct (String.eqb_spec (name e) "DocumentTooLargeException") as [H2|H2];
      [|destruct (String.eqb_spec (name e) "InvalidS3ObjectException") as [H3|H3]]];
    do 2 eexists; (split; [reflexivity|]);
    repeat split; intros; try reflexivity; congruence.
Qed.

End Submission.

(** ** The errors of a run *)

Section RunErrors.

Import Textract Spec.

Lemma getTextractClient_inv env w r w' :
  getTextractClient env w = Some (r, w') ->
  calls w' = calls w /\ now w' = now w /\ waits w' = waits w
  /\ (textractClient w = true -> r = Ok tt /\ w' = w).
Proof.
  unfold getTextractClient. destruct (textractClient w).
  - intros H. inversion H; subst. auto.
  - destruct (_ || _); intros H; inversion H; subst; cbn;
      repeat split; discriminate.
Qed.

(** A page request that fails does so with the error of the service. *)
Lemma pageLoop_client env jobId :
  forall fuel l w r w',
    textractClient w = true ->
    pageLoop fuel env jobId l w = Some (r, w') ->
    textractClient w' = true
    /\ (calls w <= calls w')%nat
    /\ forall e, r = Throw e ->
         exists n tok, (calls w <= n)%nat /\ sendGet env n jobId tok = Throw e.
Proof.
  induction fuel as [|fuel IH]; intros l w r w' Hc.
  - simpl. destruct (truthy (l_nextToken l)); [discriminate|].
    intros H. inversion H; subst. repeat split; auto. discriminate.
  - rewrite pageLoop_S. destruct (truthy (l_nextToken l)).
    2:{ intros H. inversion H; subst. repeat split; auto. discriminate. }
    rewrite (bind_ok _ _ _ _ _ (getTextractClient_ready env w Hc)).
    unfold bind, sendGetCommand.
    destruct (sendGet env (calls w) jobId (l_nextToken l)) as [resp|e0] eqn:Hsend.
    + intros H. apply IH in H; [|exact Hc].
      destruct H as (Hc' & Hcalls & Herr). cbn in Hcalls.
      repeat split; [exact Hc' | lia |].
      intros e He. destruct (Herr e He) as (n & tok & Hn & Hs).
      exists n, tok. cbn in Hn. split; [lia | exact Hs].
    + intros H. inversion H; subst. cbn. repeat split; [exact Hc | lia |].
      intros e He. inversion He; subst. exists (calls w), (l_nextToken l).
      split; [lia | exact Hsend].
Qed.

Lemma getTextExtractionStatus_inv env jobId w r w' :
  textractClient w = true ->
  getTextExtractionStatus env jobId w = Some (r, w') ->
  textractClient w' = true /\ calls w' = S (calls w)
  /\ now w' = now w + getLatency env (calls w) /\ waits w' = waits w
  /\ match r with
     | Ok res =>
         exists response,
           sendGet env (calls w) jobId None = Ok response
           /\ res = mkStatusResult (orElse (JobStatus response) "UNKNOWN")
                                   (Blocks response) (NextToken response)
     | Throw e =>
         exists e0,
           sendGet env (calls w) jobId None = Throw e0
           /\ e = newError ("Failed to get text extraction status: " ++ message e0)
     end.
Proof.
  intros Hc. unfold getTextExtractionStatus, tryCatch.
  rewrite (bind_ok _ _ _ _ _ (getTextractClient_ready env w Hc)).
  unfold bind, sendGetCommand.
  destruct (sendGet env (calls w) jobId None) as [resp|e0] eqn:Hsend;
    intros H; inversion H; subst; cbn; repeat split; eauto.
Qed.

Lemma pollLoop_errors env jobId startTime :
  forall fuel l w e w',
    textractClient w = true ->
    pollLoop fuel env jobId startTime l w = Some (Throw e, w') ->
    e = timedOut
    \/ (exists e0 n, sendGet env n jobId None = Throw e0
          /\ e = newError ("Failed to get text extraction status: " ++ message e0))
    \/ (exists n tok, sendGet env n jobId tok = Throw e).
Proof.
  induction fuel as [|fuel IH]; intros l w e w' Hc.
  - rewrite pollLoop_O. destruct (String.eqb _ _); discriminate.
  - rewrite pollLoop_S. destruct (String.eqb _ _); [|discriminate].
    intros H.
    destruct (bind_Some _ _ _ _ _ H) as [(t & w1 & H1 & H2) | (e1 & H1 & _)];
      [|discriminate].
    inversion H1; subst t w1. clear H1.
    destruct (_ >? _).
    { inversion H2; subst. now left. }
    destruct (bind_Some _ _ _ _ _ H2) as [(u & w2 & H3 & H4) | (e1 & H3 & _)];
      [|discriminate].
    inversion H3; subst u w2. clear H3.
    destruct (bind_Some _ _ _ _ _ H4) as [(res & w3 & H5 & H6) | (e1 & H5 & He)].
    2:{ inversion He; subst e1.
        apply getTextExtractionStatus_inv in H5; [|exact Hc].
        destruct H5 as (_ & _ & _ & _ & e0 & Hs & ->). right. left. eauto. }
    apply getTextExtractionStatus_inv in H5; [|exact Hc].
    destruct H5 as (Hc3 & _).
    destruct (bind_Some _ _ _ _ _ H6) as [(l1 & w4 & H7 & H8) | (e1 & H7 & He)].
    + apply pageLoop_client in H7; [|exact Hc3]. destruct H7 as (Hc4 & _).
      eapply IH; eauto.
    + inversion He; subst e1.
      apply pageLoop_client in H7; [|exact Hc3]. destruct H7 as (_ & _ & Herr).
      destruct (Herr e eq_refl) as (n & tok & _ & Hs). right. right. eauto.
Qed.

(** Every error of [processDocument] is a plain [Error] whose message is
    the prefix of [processDocument] followed by the message of its cause,
    and the cause is one of five: the submission failed (with the message
    of [startTextExtraction]), the ceiling was exceeded, the job ended
    FAILED, a status request failed (under the prefix of
    [getTextExtractionStatus]), or a page request failed (its raw
    message). *)
Theorem processDocument_error_causes fuel env s3Key w e w' :
  processDocument fuel env s3Key w = Some (Throw e, w') ->
  exists m,
    e = newError ("Failed to process document: " ++ m)
    /\ (startTextExtraction env s3Key w = Some (Throw (newError m), w')
        \/ m = message timedOut
        \/ m = "Textract job failed. Please check the PDF and try again."%string
        \/ (exists e0 n j, sendGet env n j None = Throw e0
              /\ m = ("Failed to get text extraction status: " ++ message e0)%string)
        \/ (exists e0 n j tok, sendGet env n j tok = Throw e0 /\ m = message e0)).
Proof.
  unfold processDocument. intros H.
  destruct (tryCatch_Some _ _ _ _ _ H) as [(a & _ & Ha) | (e1 & w1 & H1 & H2)];
    [discriminate|].
  inversion H2; subst e w1. clear H2.
  exists (message e1). split; [reflexivity|].
  destruct (bind_Some _ _ _ _ _ H1) as [(jobId & w2 & H3 & H4) | (e2 & H3 & He)].
  2:{ left. inversion He; subst e2.
      destruct (startTextExtraction_cases env s3Key w)
        as (r & w3 & Hrun & _ & _ & _ & Hr).
      rewrite Hrun in H3. inversion H3; subst r w3.
      destruct e1 as [n m]. cbn in Hr. subst n. exact Hrun. }
  right.
  pose proof (startTextExtraction_client _ _ _ _ _ H3) as Hc.
  destruct (bind_Some _ _ _ _ _ H4) as [(t & w3 & H5 & H6) | (e2 & H5 & _)];
    [|discriminate].
  inversion H5; subst t w3. clear H5.
  destruct (bind_Some _ _ _ _ _ H6) as [(l & w4 & H7 & H8) | (e2 & H7 & He)].
  - destruct (String.eqb _ _); inversion H8; subst. right. left. reflexivity.
  - inversion He; subst e2.
    apply pollLoop_errors in H7; [|exact Hc].
    destruct H7 as [-> | [(e0 & n & Hs & ->) | (n & tok & Hs)]].
    + left. reflexivity.
    + right. right. left. exists e0, n, jobId. auto.
    + right. right. right. exists e1, n, jobId, tok. auto.
Qed.

(** A submission that fails ends the run at once: the error of
    [startTextExtraction] is rethrown behind the prefix of
    [processDocument], no status is requested and no timer is set. *)
Theorem processDocument_submission_failure fuel env s3Key w e w1 :
  startTextExtraction env s3Key w = Some (Throw e, w1) ->
  processDocument fuel env s3Key w
  = Some (Throw (newError ("Failed to process document: " ++ message e)), w1)
  /\ calls w1 = calls w /\ waits w1 = waits w.
Proof.
  intros Hstart. split.
  - unfold processDocument.
    match goal with
    | |- tryCatch ?m ?h ?w0 = _ =>
        assert (Hbody : m w0 = Some (Throw e, w1))
          by exact (bind_throw _ _ _ _ _ Hstart)
    end.
    now rewrite (tryCatch_throw _ _ _ _ _ Hbody).
  - destruct (startTextExtraction_cases env s3Key w)
      as (r & w2 & Hrun & Hcalls & Hwaits & _).
    rewrite Hrun in Hstart. inversion Hstart; subst. auto.
Qed.

(** A run whose loop ends on the status FAILED throws the job-failed error,
    whatever blocks were received. *)
Theorem processDocument_job_failed fuel env s3Key w jobId w1 l w2 :
  startTextExtraction env s3Key w = Some (Ok jobId, w1) ->
  pollLoop fuel env jobId (now w1)
    (mkLocals "IN_PROGRESS" [] None 0 (2000 # 1)) w1 = Some (Ok l, w2) ->
  l_status l = "FAILED"%string ->
  processDocument fuel env s3Key w
  = Some (Throw (newError "Failed to process document: Textract job failed. Please check the PDF and try again."), w2).
Proof.
  intros Hstart Hloop Hfailed. unfold processDocument.
  match goal with
  | |- tryCatch ?m ?h ?w0 = _ =>
      assert (Hbody : m w0 = Some (Throw (newError "Textract job failed. Please check the PDF and try again."), w2))
  end.
  { rewrite (bind_ok _ _ _ _ _ Hstart). unfold bind at 1. unfold dateNow.
    rewrite (bind_ok _ _ _ _ _ Hloop). now rewrite Hfailed. }
  now rewrite (tryCatch_throw _ _ _ _ _ Hbody).
Qed.

End RunErrors.

(** ** What a run returns and how long it waits *)

Section Transcripts.

Import Textract Spec Transcript.

Variable env : Env.

(** The service answers every call, [reply n] to the [n]-th. *)
Variable reply : nat -> GetResponse.
Hypothesis answered : forall n j tok, sendGet env n j tok = Ok (reply n).

Lemma received_nil (a : nat) : received reply a a = [].
Proof. unfold received. now rewrite Nat.sub_diag. Qed.

Lemma received_cons (a b : nat) :
  (a < b)%nat ->
  received reply a b
  = concatBlocks [] (Blocks (reply a)) ++ received reply (S a) b.
Proof.
  intros Hab. unfold received.
  replace (b - a)%nat with (S (b - S a)) by lia. reflexivity.
Qed.

Lemma concatBlocks_app (acc : list Block) (bs : option (list Block)) :
  concatBlocks acc bs = acc ++ concatBlocks [] bs.
Proof. destruct bs; simpl; [reflexivity | now rewrite app_nil_r]. Qed.

Lemma pageLoop_received jobId :
  forall fuel l w l' w',
    pageLoop fuel env jobId l w = Some (Ok l', w') ->
    (calls w <= calls w')%nat
    /\ l_allBlocks l' = l_allBlocks l ++ received reply (calls w) (calls w').
Proof.
  induction fuel as [|fuel IH]; intros l w l' w'.
  - simpl. destruct (truthy (l_nextToken l)); [discriminate|].
    intros H. inversion H; subst. split; [lia|].
    now rewrite received_nil, app_nil_r.
  - rewrite pageLoop_S. destruct (truthy (l_nextToken l)).
    2:{ intros H. inversion H; subst. split; [lia|].
        now rewrite received_nil, app_nil_r. }
    intros H.
    destruct (bind_Some _ _ _ _ _ H) as [(u & w1 & H1 & H2) | (e & _ & He)];
      [|discriminate].
    destruct (getTextractClient_inv _ _ _ _ H1) as (Hcalls & _).
    unfold bind, sendGetCommand in H2. rewrite answered in H2.
    apply IH in H2. cbn in H2. destruct H2 as (Hle & Hblocks).
    rewrite Hcalls in *. split; [lia|].
    rewrite Hblocks, (received_cons (calls w) (calls w')) by lia.
    now rewrite concatBlocks_app, app_assoc.
Qed.

Lemma pollLoop_received jobId startTime :
  forall fuel l w l' w',
    pollLoop fuel env jobId startTime l w = Some (Ok l', w') ->
    (calls w <= calls w')%nat
    /\ l_allBlocks l' = l_allBlocks l ++ received reply (calls w) (calls w').
Proof.
  induction fuel as [|fuel IH]; intros l w l' w'.
  - rewrite pollLoop_O. destruct (String.eqb _ _); [discriminate|].
    intros H. inversion H; subst. split; [lia|].
    now rewrite received_nil, app_nil_r.
  - rewrite pollLoop_S. destruct (String.eqb _ _).
    2:{ intros H. inversion H; subst. split; [lia|].
        now rewrite received_nil, app_nil_r. }
    intros H.
    destruct (bind_Some _ _ _ _ _ H) as [(t & w1 & H1 & H2) | (e & _ & He)];
      [|discriminate].
    inversion H1; subst t w1. clear H1.
    destruct (_ >? _); [discriminate|].
    destruct (bind_Some _ _ _ _ _ H2) as [(u & w2 & H3 & H4) | (e & _ & He)];
      [|discriminate].
    inversion H3; subst u w2. clear H3.
    destruct (bind_Some _ _ _ _ _ H4) as [(res & w3 & H5 & H6) | (e & _ & He)];
      [|discriminate].
    destruct (bind_Some _ _ _ _ _ H6) as [(l1 & w4 & H7 & H8) | (e & _ & He)];
      [|discriminate].
    unfold getTextExtractionStatus in H5.
    destruct (tryCatch_Some _ _ _ _ _ H5) as [(a & H9 & Ha) | (e & w5 & _ & H9)];
      [|discriminate].
    inversion Ha; subst a. clear Ha.
    destruct (bind_Some _ _ _ _ _ H9) as [(u & w5 & H10 & H11) | (e & _ & He)];
      [|discriminate].
    destruct (getTextractClient_inv _ _ _ _ H10) as (Hcalls & _).
    unfold bind, sendGetCommand in H11. rewrite answered in H11.
    inversion H11; subst res w3. clear H11.
    apply pageLoop_received in H7. cbn in H7. destruct H7 as (Hle1 & Hb1).
    apply IH in H8. destruct H8 as (Hle2 & Hb2).
    cbn in Hcalls. rewrite Hcalls in Hle1, Hb1. split; [lia|].
    rewrite Hb2, Hb1, concatBlocks_app.
    rewrite (received_cons (calls w) (calls w')) by lia.
    rewrite <- !app_assoc. do 2 f_equal.
    unfold received.
    replace (calls w' - S (calls w))%nat
      with ((calls w4 - S (calls w)) + (calls w' - calls w4))%nat by lia.
    rewrite seq_app, flat_map_app.
    now replace (S (calls w) + (calls w4 - S (calls w)))%nat with (calls w4) by lia.
Qed.

(** The text of a successful run is assembled from the blocks of every
    answer the run received, status polls and pages alike, in the order of
    the calls: the blocks that came with IN_PROGRESS polls are part of it,
    and nothing else is. *)
Theorem processDocument_text_of_answers fuel s3Key w text w' :
  processDocument fuel env s3Key w = Some (Ok text, w') ->
  (calls w <= calls w')%nat
  /\ text = extractTextFromBlocks (Some (received reply (calls w) (calls w'))).
Proof.
  unfold processDocument. intros H.
  destruct (tryCatch_Some _ _ _ _ _ H) as [(a & H1 & Ha) | (e & w1 & _ & H2)];
    [|discriminate].
  inversion Ha; subst a. clear Ha.
  destruct (bind_Some _ _ _ _ _ H1) as [(jobId & w2 & H3 & H4) | (e & _ & He)];
    [|discriminate].
  destruct (startTextExtraction_cases env s3Key w)
    as (r & w3 & Hrun & Hcalls & _).
  rewrite Hrun in H3. inversion H3; subst r w3. clear H3.
  destruct (bind_Some _ _ _ _ _ H4) as [(t & w3 & H5 & H6) | (e & _ & He)];
    [|discriminate].
  inversion H5; subst t w3. clear H5.
  destruct (bind_Some _ _ _ _ _ H6) as [(l & w4 & H7 & H8) | (e & _ & He)];
    [|discriminate].
  apply pollLoop_received in H7. cbn in H7. destruct H7 as (Hle & Hblocks).
  destruct (String.eqb _ _); inversion H8; subst.
  rewrite <- Hcalls. split; [exact Hle | now rewrite Hblocks].
Qed.

End Transcripts.

Lemma processDocument_text_of_answers_witness :
  (Textract.calls Scenario.ready
   <= Textract.calls (Textract.mkWorld 6362 true 3 [2000 # 1; Qmin ((2000 # 1) * (3 # 2)) Textract.maxBackoffMs]))%nat
  /\ ("one" ++ LF ++ "two" ++ LF ++ "three")%string
     = Textract.extractTextFromBlocks
         (Some (Transcript.received
                  (fun n =>
                     match n with
                     | 0%nat => Textract.mkGetResponse (Some "IN_PROGRESS")
                                  (Some [Sample.line "one"]) None
                     | 1%nat => Textract.mkGetResponse (Some "SUCCEEDED")
                                  (Some [Sample.page; Sample.line "two"]) (Some "t1")
                     | _ => Textract.mkGetResponse None (Some [Sample.line "three"]) None
                     end)
                  (Textract.calls Scenario.ready) 3)).
Proof.
  apply (processDocument_text_of_answers Scenario.paged _ (fun n j tok => eq_refl)
           5%nat "H1" Scenario.ready).
  vm_compute. reflexivity.
Defined.

Section WaitBudget.

Import Textract Spec Transcript.

Variable env : Env.

(** Time does not run backwards. *)
Hypothesis latency : forall n, 0 <= getLatency env n.
Hypothesis lag : forall n, 0 <= timerLag env n.

Lemma requested_nonneg : forall m k, 0 <= requested k m.
Proof.
  induction m as [|m IH]; intros k; cbn [requested]; [lia|].
  pose proof (Qfloor_backoff _ (proj1 (backoffSchedule_bounds k))).
  specialize (IH (S k)). lia.
Qed.

Lemma requested_app : forall m m' k,
  requested k (m + m') = requested k m + requested (m + k) m'.
Proof.
  induction m as [|m IH]; intros m' k; cbn [requested Nat.add]; [lia|].
  rewrite IH. replace (m + S k)%nat with (S (m + k)) by lia. lia.
Qed.

Lemma requested_monotone (k m m' : nat) :
  (m <= m')%nat -> requested k m <= requested k m'.
Proof.
  intros Hle. replace m' with (m + (m' - m))%nat by lia.
  rewrite requested_app. pose proof (requested_nonneg (m' - m) (m + k)). lia.
Qed.

Lemma getTextExtractionStatus_now jobId w r w' :
  getTextExtractionStatus env jobId w = Some (r, w') -> now w <= now w'.
Proof.
  unfold getTextExtractionStatus. intros H.
  assert (Hbody : forall r1 w1,
    (getTextractClient env ;;;
     response <- sendGetCommand env jobId None ;;
     ret (mkStatusResult (orElse (JobStatus response) "UNKNOWN")
                         (Blocks response) (NextToken response))) w
    = Some (r1, w1) -> now w <= now w1).
  { intros r1 w1 Hb.
    destruct (bind_Some _ _ _ _ _ Hb) as [(u & w2 & H1 & H2) | (e & H1 & _)].
    - destruct (getTextractClient_inv _ _ _ _ H1) as (Hcalls & Hnow & _).
      unfold bind, sendGetCommand in H2. pose proof (latency (calls w2)).
      destruct (sendGet env (calls w2) jobId None); inversion H2; subst; cbn; lia.
    - destruct (getTextractClient_inv _ _ _ _ H1) as (_ & Hnow & _). lia. }
  destruct (tryCatch_Some _ _ _ _ _ H) as [(a & H1 & _) | (e & w1 & H1 & H2)].
  - eapply Hbody; eauto.
  - inversion H2; subst. eapply Hbody; eauto.
Qed.

Lemma pageLoop_now jobId :
  forall fuel l w r w',
    pageLoop fuel env jobId l w = Some (r, w') -> now w <= now w'.
Proof.
  induction fuel as [|fuel IH]; intros l w r w'.
  - simpl. destruct (truthy (l_nextToken l)); [discriminate|].
    intros H. inversion H; subst. lia.
  - rewrite pageLoop_S. destruct (truthy (l_nextToken l)).
    2:{ intros H. inversion H; subst. lia. }
    intros H.
    destruct (bind_Some _ _ _ _ _ H) as [(u & w1 & H1 & H2) | (e & H1 & _)].
    + destruct (getTextractClient_inv _ _ _ _ H1) as (_ & Hnow & _).
      unfold bind, sendGetCommand in H2. pose proof (latency (calls w1)).
      destruct (sendGet env (calls w1) jobId (l_nextToken l)).
      * apply IH in H2. cbn in H2. lia.
      * inversion H2; subst. cbn. lia.
    + destruct (getTextractClient_inv _ _ _ _ H1) as (_ & Hnow & _). lia.
Qed.

(** A wait is started only while the ceiling is not exceeded, and the time
    that has passed is at least what the earlier waits requested. *)
Lemma pollLoop_wait_budget jobId startTime :
  forall fuel l w r w' k,
    l_backoffMs l = backoffSchedule k ->
    pollLoop fuel env jobId startTime l w = Some (r, w') ->
    exists n,
      waits w' = (waits w ++ map backoffSchedule (seq k n))%list
      /\ (n = 0%nat \/ now w - startTime + requested k (n - 1) <= timeoutMs).
Proof.
  induction fuel as [|fuel IH]; intros l w r w' k Hk.
  - rewrite pollLoop_O. destruct (String.eqb _ _); [discriminate|].
    intros H. inversion H; subst. exists 0%nat. simpl.
    rewrite app_nil_r. auto.
  - rewrite pollLoop_S. destruct (String.eqb _ _).
    2:{ intros H. inversion H; subst. exists 0%nat. simpl.
        rewrite app_nil_r. auto. }
    intros H.
    destruct (bind_Some _ _ _ _ _ H) as [(t & w1 & H1 & H2) | (e & H1 & _)];
      [|discriminate].
    inversion H1; subst t w1. clear H1.
    destruct (now w - startTime >? timeoutMs) eqn:Hover.
    { inversion H2; subst. exists 0%nat. simpl. rewrite app_nil_r. auto. }
    assert (Hin : now w - startTime <= timeoutMs).
    { rewrite Z.gtb_ltb in Hover. now apply Z.ltb_ge in Hover. }
    destruct (bind_Some _ _ _ _ _ H2) as [(u & w2 & H3 & H4) | (e & H3 & _)];
      [|discriminate].
    inversion H3; subst u w2. clear H3.
    assert (Hone : forall (rest : list Q),
               ((waits w ++ [l_backoffMs l]) ++ rest
                = waits w ++ backoffSchedule k :: rest)%list).
    { intros rest. now rewrite <- app_assoc, Hk. }
    assert (Hfirst : exists n,
               (waits w ++ [l_backoffMs l])%list
               = (waits w ++ map backoffSchedule (seq k n))%list
               /\ (n = 0%nat \/ now w - startTime + requested k (n - 1) <= timeoutMs)).
    { exists 1%nat. simpl. rewrite Hk. split; [reflexivity|]. right. lia. }
    destruct (bind_Some _ _ _ _ _ H4) as [(res & w3 & H5 & H6) | (e & H5 & _)].
    2:{ apply keepsWaits_getTextExtractionStatus in H5. simpl in H5.
        now rewrite H5. }
    pose proof (getTextExtractionStatus_now _ _ _ _ H5) as Hnow3.
    apply keepsWaits_getTextExtractionStatus in H5. simpl in H5, Hnow3.
    destruct (bind_Some _ _ _ _ _ H6) as [(l1 & w4 & H7 & H8) | (e & H7 & _)].
    2:{ apply keepsWaits_pageLoop in H7. now rewrite H7, H5. }
    pose proof (pageLoop_now _ _ _ _ _ _ H7) as Hnow4.
    pose proof (keepsWaits_pageLoop _ _ _ _ _ _ _ H7) as Hw4.
    apply pageLoop_locals in H7. simpl in H7. destruct H7 as (_ & Hb & _).
    apply (IH _ _ _ _ (S k)) in H8; [|rewrite Hb, Hk; reflexivity].
    destruct H8 as (n & Hn & Hbudget).
    exists (S n). split.
    { simpl. rewrite Hn, Hw4, H5. apply Hone. }
    right. simpl. rewrite Nat.sub_0_r.
    pose proof (Qfloor_backoff _ (proj1 (backoffSchedule_bounds k))) as Hfloor.
    pose proof (lag (length (waits w))) as Hlag. rewrite Hk in Hnow3.
    destruct Hbudget as [-> | Hbudget]; [simpl; lia|].
    destruct n as [|n]; [simpl; lia|].
    simpl in Hbudget. rewrite Nat.sub_0_r in Hbudget. simpl. lia.
Qed.

(** Whatever the service answers, a run sets at most fifteen timers. *)
Theorem processDocument_at_most_15_waits fuel s3Key w r w' :
  processDocument fuel env s3Key w = Some (r, w') ->
  (length (waits w') <= length (waits w) + 15)%nat.
Proof.
  unfold processDocument. intros H.
  assert (Hbody : forall r1 w1,
    (jobId <- startTextExtraction env s3Key ;;
     startTime <- dateNow ;;
     l <- pollLoop fuel env jobId startTime
            (mkLocals "IN_PROGRESS" [] None 0 (2000 # 1)) ;;
     if String.eqb (l_status l) "FAILED" then
       throw (newError "Textract job failed. Please check the PDF and try again.")
     else
       ret (extractTextFromBlocks (Some (l_allBlocks l)))) w = Some (r1, w1) ->
    (length (waits w1) <= length (waits w) + 15)%nat).
  { intros r1 w1 Hb.
    destruct (bind_Some _ _ _ _ _ Hb) as [(jobId & w2 & H1 & H2) | (e & H1 & _)].
    2:{ apply keepsWaits_startTextExtraction in H1. rewrite H1. lia. }
    apply keepsWaits_startTextExtraction in H1.
    destruct (bind_Some _ _ _ _ _ H2) as [(t & w3 & H3 & H4) | (e & H3 & _)];
      [|discriminate].
    inversion H3; subst t w3. clear H3.
    assert (Hloop : forall r2 w4,
      pollLoop fuel env jobId (now w2)
        (mkLocals "IN_PROGRESS" [] None 0 (2000 # 1)) w2 = Some (r2, w4) ->
      (length (waits w4) <= length (waits w) + 15)%nat).
    { intros r2 w4 Hp.
      apply (pollLoop_wait_budget _ _ _ _ _ _ _ 0%nat) in Hp; [|reflexivity].
      destruct Hp as (n & Hn & Hbudget).
      rewrite Hn, H1, length_app, length_map, length_seq.
      destruct Hbudget as [-> | Hbudget]; [lia|].
      destruct (Nat.le_gt_cases n 15) as [Hle|Hgt]; [lia|].
      pose proof (requested_monotone 0 15 (n - 1) ltac:(lia)) as Hmono.
      assert (Hsum : requested 0 15 = 304343) by (vm_compute; reflexivity).
      unfold timeoutMs in Hbudget. lia. }
    destruct (bind_Some _ _ _ _ _ H4) as [(l & w4 & H5 & H6) | (e & H5 & _)].
    - apply Hloop in H5.
      destruct (String.eqb _ _); inversion H6; subst; exact H5.
    - now apply Hloop in H5. }
  destruct (tryCatch_Some _ _ _ _ _ H) as [(a & H1 & _) | (e & w1 & H1 & H2)].
  - eapply Hbody; eauto.
  - inversion H2; subst. eapply Hbody; eauto.
Qed.

End WaitBudget.

Lemma processDocument_at_most_15_waits_witness :
  exists r w',
    Textract.processDocument 20 Sample.stuck "H1" Sample.world0 = Some (r, w')
    /\ (length (Textract.waits w') <= length (Textract.waits Sample.world0) + 15)%nat
    /\ length (Textract.waits w') = 15%nat.
Proof.
  eexists. eexists. split; [vm_compute; reflexivity|]. split.
  - eapply (processDocument_at_most_15_waits Sample.stuck
              ltac:(intros; simpl; lia) ltac:(intros; simpl; lia)
              20%nat "H1" Sample.world0).
    vm_compute. reflexivity.
  - reflexivity.
Defined.

Section RunWitnesses.

Import Textract Spec.

Lemma startTextExtraction_service_error_witness :
  let e := mkError "ThrottlingException" "Rate exceeded" in
  exists m w',
    startTextExtraction Scenario.throttled "H1" Scenario.ready
    = Some (Throw (newError m), w')
    /\ (name e = "ThrottlingException" ->
        m = "AWS Textract is throttled. Please try again later.")
    /\ (name e = "DocumentTooLargeException" ->
        m = "PDF document is too large for Textract processing.")
    /\ (name e = "InvalidS3ObjectException" ->
        m = "Invalid S3 object. Please check the bucket and key.")
    /\ (name e <> "ThrottlingException" ->
        name e <> "DocumentTooLargeException" ->
        name e <> "InvalidS3ObjectException" ->
        m = ("Failed to start text extraction: " ++ message e)%string).
Proof.
  intros e.
  apply (startTextExtraction_service_error Scenario.throttled "H1"
           Scenario.ready "bucket" e); try reflexivity.
  discriminate.
Defined.

Lemma processDocument_error_causes_witness :
  exists e w',
    processDocument 5 Scenario.failing "H1" Sample.world0 = Some (Throw e, w')
    /\ exists m,
        e = newError ("Failed to process document: " ++ m)
        /\ (startTextExtraction Scenario.failing "H1" Sample.world0
            = Some (Throw (newError m), w')
            \/ m = message timedOut
            \/ m = "Textract job failed. Please check the PDF and try again."%string
            \/ (exists e0 n j, sendGet Scenario.failing n j None = Throw e0
                  /\ m = ("Failed to get text extraction status: " ++ message e0)%string)
            \/ (exists e0 n j tok, sendGet Scenario.failing n j tok = Throw e0
                  /\ m = message e0)).
Proof.
  do 2 eexists. split; [vm_compute; reflexivity|].
  eapply (processDocument_error_causes 5 Scenario.failing "H1" Sample.world0).
  vm_compute. reflexivity.
Defined.

Lemma processDocument_submission_failure_witness :
  exists e w1,
    startTextExtraction Scenario.throttled "H1" Sample.world0 = Some (Throw e, w1)
    /\ processDocument 5 Scenario.throttled "H1" Sample.world0
       = Some (Throw (newError ("Failed to process document: " ++ message e)), w1)
    /\ calls w1 = calls Sample.world0 /\ waits w1 = waits Sample.world0.
Proof.
  do 2 eexists. split; [vm_compute; reflexivity|].
  eapply (processDocument_submission_failure 5 Scenario.throttled "H1"
            Sample.world0).
  vm_compute. reflexivity.
Defined.

Lemma processDocument_job_failed_witness :
  exists jobId w1 l w2,
    startTextExtraction Scenario.failing "H1" Sample.world0 = Some (Ok jobId, w1)
    /\ pollLoop 5 Scenario.failing jobId (now w1)
         (mkLocals "IN_PROGRESS" [] None 0 (2000 # 1)) w1 = Some (Ok l, w2)
    /\ l_allBlocks l = [Sample.line "half"]
    /\ processDocument 5 Scenario.failing "H1" Sample.world0
       = Some (Throw (newError "Failed to process document: Textract job failed. Please check the PDF and try again."), w2).
Proof.
  do 4 eexists. split; [vm_compute; reflexivity|].
  split; [vm_compute; reflexivity|]. split; [reflexivity|].
  eapply (processDocument_job_failed 5 Scenario.failing "H1" Sample.world0);
    vm_compute; reflexivity.
Defined.

End RunWitnesses.

(** ** More on the metadata store *)

Section StoreInvariants.

Import Store.

Lemma findOneAndUpdate_at (i : string)
  (update : PDFMetadataDocument -> PDFMetadataDocument) before old after :
  id (fields old) = i ->
  Forall (fun doc => id (fields doc) <> i) before ->
  findOneAndUpdate i update (before ++ old :: after)
  = (Some (update old), before ++ update old :: after).
Proof.
  intros Hid Hbefore. induction Hbefore as [|doc before Hdoc _ IH]; simpl.
  - apply String.eqb_eq in Hid. now rewrite Hid.
  - apply String.eqb_neq in Hdoc. now rewrite Hdoc, IH.
Qed.

Lemma applySet_keeps_id updates doc :
  id (fields (applySet (omitId updates) doc)) = id (fields doc)
  /\ _id (applySet (omitId updates) doc) = _id doc.
Proof. split; reflexivity. Qed.

Lemma applySet_idempotent updates doc :
  applySet (omitId updates) (applySet (omitId updates) doc)
  = applySet (omitId updates) doc.
Proof.
  unfold applySet, omitId, pick. cbn.
  destruct (p_filename updates), (p_extractedText updates),
    (p_uploadedAt updates), (p_textractJobId updates), (p_status updates);
    reflexivity.
Qed.

Lemma getMetadataCollection_db d d1 :
  getMetadataCollection d = (Ok tt, d1) -> db d1 = true.
Proof.
  unfold getMetadataCollection, getDatabase, getMongoClient.
  destruct (db d) eqn:Hdb.
  - intros H. inversion H; subst. exact Hdb.
  - destruct (client d).
    + intros H. inversion H; subst. reflexivity.
    + destruct (getConnectionString d); [|discriminate].
      destruct (constructOutcome d); [|discriminate].
      destruct (connectOutcome d); [|discriminate].
      intros H. inversion H; subst. reflexivity.
Qed.

Lemma getMetadataCollection_connected d d1 :
  getMetadataCollection d = (Ok tt, d1) ->
  getMetadataCollection d1 = (Ok tt, d1).
Proof.
  unfold getMetadataCollection, getDatabase, getMongoClient.
  destruct (db d) eqn:Hdb.
  - intros H. inversion H; subst. now rewrite Hdb.
  - destruct (client d).
    + intros H. inversion H; subst. reflexivity.
    + destruct (getConnectionString d); [|discriminate].
      destruct (constructOutcome d); [|discriminate].
      destruct (connectOutcome d); [|discriminate].
      intros H. inversion H; subst. reflexivity.
Qed.

(** An update, whether it succeeds or throws, adds no record, removes
    none, keeps their order, and changes neither an [id] nor an [_id]; so
    ids that were distinct stay distinct. *)
Theorem updatePDFMetadata_keeps_ids (i : string) (updates : Partial) d :
  let d' := snd (updatePDFMetadata i updates d) in
  map (fun doc => id (fields doc)) (documents d')
  = map (fun doc => id (fields doc)) (documents d)
  /\ map _id (documents d') = map _id (documents d)
  /\ (NoDup (map (fun doc => id (fields doc)) (documents d)) ->
      NoDup (map (fun doc => id (fields doc)) (documents d'))).
Proof.
  cbv zeta.
  assert (Hids : map (fun doc => id (fields doc))
                     (documents (snd (updatePDFMetadata i updates d)))
                 = map (fun doc => id (fields doc)) (documents d)
                 /\ map _id (documents (snd (updatePDFMetadata i updates d)))
                    = map _id (documents d)).
  { unfold updatePDFMetadata.
    destruct (getMetadataCollection d) as [[u|e] d1] eqn:Hconn;
      destruct (getMetadataCollection_frame _ _ _ Hconn) as (Hdocs & _ & _);
      [|cbn; now rewrite Hdocs].
    destruct (serverReached d1); [|cbn; now rewrite Hdocs].
    destruct (findOneAndUpdate_spec i (applySet (omitId updates)) (documents d1))
      as [(before & old & after & Hsplit & Hid & Hbefore & Hrun) | (Hnone & Hrun)];
      rewrite Hrun; cbn; rewrite <- Hdocs.
    - rewrite Hsplit, !map_app. cbn. auto.
    - auto. }
  destruct Hids as (Hids & Hoids). repeat split; try assumption.
  now rewrite Hids.
Qed.

(** Applying the same update a second time changes nothing and returns the
    same record. *)
Theorem updatePDFMetadata_idempotent (i : string) (updates : Partial) d r d' :
  updatePDFMetadata i updates d = (Ok r, d') ->
  updatePDFMetadata i updates d' = (Ok r, d').
Proof.
  unfold updatePDFMetadata at 1.
  destruct (getMetadataCollection d) as [[[]|e] d1] eqn:Hconn; [|discriminate].
  pose proof (getMetadataCollection_connected _ _ Hconn) as Hagain.
  destruct (serverReached d1) as [[]|e0] eqn:Hreach; [|discriminate].
  assert (Hstable : forall docs,
            getMetadataCollection (withDocuments d1 docs)
            = (Ok tt, withDocuments d1 docs)
            /\ serverReached (withDocuments d1 docs) = Ok tt).
  { intros docs. split; [|exact Hreach].
    pose proof (getMetadataCollection_db _ _ Hconn) as Hdb.
    unfold getMetadataCollection, getDatabase. cbn. now rewrite Hdb. }
  destruct (findOneAndUpdate_spec i (applySet (omitId updates)) (documents d1))
    as [(before & old & after & Hsplit & Hid & Hbefore & Hrun) | (Hnone & Hrun)];
    rewrite Hrun; intros H; inversion H; subst r d'; clear H;
    unfold updatePDFMetadata.
  - destruct (Hstable (before ++ applySet (omitId updates) old :: after))
      as (Hc1 & Hr1).
    rewrite Hc1, Hr1. cbn [documents withDocuments].
    rewrite findOneAndUpdate_at; [|exact Hid|exact Hbefore].
    now rewrite applySet_idempotent.
  - destruct (Hstable (documents d1)) as (Hc2 & Hr2).
    rewrite Hc2, Hr2. cbn [documents withDocuments]. now rewrite Hrun.
Qed.

Lemma updatePDFMetadata_idempotent_witness :
  let updates := mkPartial None None (Some "X") None None (Some completed) in
  exists r d',
    updatePDFMetadata "d3" updates Sample.library = (Ok r, d')
    /\ updatePDFMetadata "d3" updates d' = (Ok r, d').
Proof.
  intros updates. do 2 eexists. split; [vm_compute; reflexivity|].
  eapply (updatePDFMetadata_idempotent "d3" updates Sample.library).
  vm_compute. reflexivity.
Defined.

(** A search changes no record, whatever its outcome. *)
Lemma searchMetadata_frame eng query d :
  documents (snd (searchMetadata eng query d)) = documents d
  /\ textIndex (snd (searchMetadata eng query d)) = textIndex d.
Proof.
  unfold searchMetadata.
  destruct (getMetadataCollection d) as [[u|e] d1] eqn:Hconn;
    destruct (getMetadataCollection_frame _ _ _ Hconn) as (Hdocs & Hidx & _);
    [|cbn; auto].
  destruct (findText eng query d1) as [[|x xs]|]; cbn;
    try (split; assumption);
    destruct (findRegex eng query d1); cbn; auto.
Qed.

(** A text search that fails, as it does on a collection without text
    index, is never reported: the pattern match answers instead. *)
Theorem searchMetadata_without_text_index eng query d d1 test :
  getMetadataCollection d = (Ok tt, d1) ->
  serverReached d1 = Ok tt ->
  textIndex d = false ->
  regexCompile eng query = Some test ->
  searchMetadata eng query d
  = (Ok (map fields
           (filter (fun doc => isCompleted doc && test (extractedText (fields doc)))
                   (documents d))), d1).
Proof.
  intros Hconn Hreach Hidx Hre.
  destruct (getMetadataCollection_frame _ _ _ Hconn) as (Hdocs & Hidx1 & _).
  unfold searchMetadata. rewrite Hconn.
  unfold findText, findRegex. rewrite Hreach, Hidx1, Hidx, Hre. cbn.
  now rewrite Hdocs.
Qed.

Lemma searchMetadata_without_text_index_witness :
  exists d1,
    getMetadataCollection Scenario.unindexed = (Ok tt, d1)
    /\ searchMetadata Sample.engine "hello" Scenario.unindexed
       = (Ok (map fields
                (filter (fun doc => isCompleted doc
                                    && Regex.search (map Regex.Lit (list_ascii_of_string "hello"))
                                         (extractedText (fields doc)))
                        (documents Scenario.unindexed))), d1).
Proof.
  eexists. split; [vm_compute; reflexivity|].
  apply (searchMetadata_without_text_index Sample.engine "hello"
           Scenario.unindexed); reflexivity.
Defined.

(** A pattern the server refuses makes the search throw, behind the prefix
    of [searchMetadata], whenever the text search brings nothing. *)
Theorem searchMetadata_refused_pattern eng query d d1 :
  getMetadataCollection d = (Ok tt, d1) ->
  serverReached d1 = Ok tt ->
  (forall doc docs, findText eng query d1 <> Ok (doc :: docs)) ->
  regexCompile eng query = None ->
  exists m,
    searchMetadata eng query d
    = (Throw (newError ("Failed to search metadata in MongoDB: " ++ m)), d1).
Proof.
  intros Hconn Hreach Htext Hre.
  unfold searchMetadata. rewrite Hconn.
  destruct (findText eng query d1) as [[|doc docs]|e] eqn:Hft.
  - cbn. unfold findRegex. rewrite Hreach, Hre. cbn. eauto.
  - now contradiction (Htext doc docs).
  - cbn. unfold findRegex. rewrite Hreach, Hre. cbn. eauto.
Qed.

Lemma searchMetadata_refused_pattern_witness :
  exists m,
    searchMetadata Sample.engine "a(" Sample.library
    = (Throw (newError ("Failed to search metadata in MongoDB: " ++ m)),
       Sample.library).
Proof.
  apply (searchMetadata_refused_pattern Sample.engine "a(" Sample.library
           Sample.library); try reflexivity.
  intros doc docs. vm_compute. discriminate.
Defined.

(** A failed connection is reported once, a connection string that is
    missing or that the driver cannot read every time: the client object is
    stored as soon as the constructor has returned, before the connection
    is awaited, so after a failed [connect()] the next call finds it and
    returns it without connecting. When the constructor throws, or the
    connection string is missing, nothing is stored and every call fails
    in the same way. *)
Theorem getMongoClient_failure_reported_once d :
  client d = false ->
  (forall e, truthy (MONGODB_URI d) = true -> constructOutcome d = Ok tt ->
     connectOutcome d = Throw e ->
     exists d1,
       getMongoClient d
       = (Throw (newError ("Failed to connect to MongoDB: " ++ message e)), d1)
       /\ client d1 = true
       /\ getMongoClient d1 = (Ok tt, d1))
  /\ (forall e, truthy (MONGODB_URI d) = true -> constructOutcome d = Throw e ->
       getMongoClient d
       = (Throw (newError ("Failed to connect to MongoDB: " ++ message e)), d))
  /\ (truthy (MONGODB_URI d) = false ->
      exists e, getMongoClient d = (Throw e, d)).
Proof.
  intros Hclient. split; [|split].
  - intros e Huri Hnew Hconn. unfold getMongoClient at 1, getConnectionString.
    rewrite Hclient, Huri, Hnew, Hconn. eexists. split; [reflexivity|].
    split; reflexivity.
  - intros e Huri Hnew. unfold getMongoClient, getConnectionString.
    now rewrite Hclient, Huri, Hnew.
  - intros Huri. unfold getMongoClient, getConnectionString.
    rewrite Hclient, Huri. eauto.
Qed.

Lemma getMongoClient_failure_reported_once_witness :
  (exists d1,
      getMongoClient Scenario.unreachable
      = (Throw (newError "Failed to connect to MongoDB: connect ECONNREFUSED"), d1)
      /\ client d1 = true
      /\ getMongoClient d1 = (Ok tt, d1))
  /\ getMongoClient Scenario.malformed
     = (Throw (newError "Failed to connect to MongoDB: Invalid scheme, expected connection string to start with mongodb:// or mongodb+srv://"),
        Scenario.malformed)
  /\ getMongoClient (snd (getMongoClient Scenario.malformed))
     = getMongoClient Scenario.malformed.
Proof.
  split; [|split].
  - exact (proj1 (getMongoClient_failure_reported_once Scenario.unreachable eq_refl)
             _ eq_refl eq_refl eq_refl).
  - exact (proj1 (proj2 (getMongoClient_failure_reported_once Scenario.malformed eq_refl))
             _ eq_refl eq_refl).
  - reflexivity.
Defined.

End StoreInvariants.

(** ** Strings of all code units *)

Section WideStrings.

Lemma ulen_app (a b : Utf16.ustring) :
  Utf16.len (a ++ b) = Utf16.len a + Utf16.len b.
Proof. unfold Utf16.len. rewrite length_app. lia. Qed.

Lemma ulen_nonneg (a : Utf16.ustring) : 0 <= Utf16.len a.
Proof. unfold Utf16.len. lia. Qed.

Lemma ulen_cons (c : N) (a : Utf16.ustring) :
  Utf16.len (c :: a) = 1 + Utf16.len a.
Proof. unfold Utf16.len. simpl length. lia. Qed.

Lemma ulen_map (f : N -> N) (a : Utf16.ustring) :
  Utf16.len (map f a) = Utf16.len a.
Proof. unfold Utf16.len. now rewrite length_map. Qed.

Lemma ustartsWith_spec (p s : Utf16.ustring) :
  Utf16.startsWith p s = true <-> exists after, s = p ++ after.
Proof.
  revert s. induction p as [|a p IH]; intros s; simpl.
  - split; [intros _; now exists s | reflexivity].
  - destruct s as [|b s].
    + split; [discriminate | intros (after & H); discriminate].
    + rewrite andb_true_iff, IH. split.
      * intros (Hab & after & ->). apply N.eqb_eq in Hab. subst.
        now exists after.
      * intros (after & H). inversion H; subst.
        split; [apply N.eqb_refl | now exists after].
Qed.

Lemma uoccursAt_nonneg (p s : Utf16.ustring) (i : Z) :
  Utf16.occursAt p s i -> 0 <= i.
Proof. intros (before & after & _ & <-). apply ulen_nonneg. Qed.

Lemma uoccursAt_bound (p s : Utf16.ustring) (i : Z) :
  Utf16.occursAt p s i -> i + Utf16.len p <= Utf16.len s.
Proof.
  intros (before & after & -> & <-). rewrite !ulen_app.
  pose proof (ulen_nonneg after). lia.
Qed.

Lemma uoccursAt_head (p s : Utf16.ustring) :
  Utf16.occursAt p s 0 <-> Utf16.startsWith p s = true.
Proof.
  rewrite ustartsWith_spec. split.
  - intros (before & after & -> & Hlen).
    destruct before; [now exists after | rewrite ulen_cons in Hlen].
    pose proof (ulen_nonneg before). lia.
  - intros (after & ->). now exists [], after.
Qed.

Lemma uoccursAt_tail (p s : Utf16.ustring) (c : N) (i : Z) :
  0 <= i -> (Utf16.occursAt p (c :: s) (i + 1) <-> Utf16.occursAt p s i).
Proof.
  intros Hi. split.
  - intros (before & after & Heq & Hlen). destruct before as [|b before].
    + change (Utf16.len []) with 0 in Hlen. lia.
    + simpl in Heq. inversion Heq; subst. rewrite ulen_cons in Hlen.
      exists before, after. split; [reflexivity | lia].
  - intros (before & after & -> & <-).
    exists (c :: before), after. split; [reflexivity|].
    rewrite ulen_cons. lia.
Qed.

(** [indexOfFrom] finds the first occurrence, counted from [i]. *)
Lemma uindexOfFrom_spec (p : Utf16.ustring) :
  forall (s : Utf16.ustring) (i : Z),
    (Utf16.indexOfFrom p s i = -1 /\ forall j, ~ Utf16.occursAt p s j)
    \/ (exists j, Utf16.indexOfFrom p s i = i + j /\ Utf16.occursAt p s j
                  /\ forall j', Utf16.occursAt p s j' -> j <= j').
Proof.
  induction s as [|c s IH]; intros i.
  - simpl. destruct (Utf16.startsWith p []) eqn:Hp.
    + right. exists 0. split; [lia|]. split; [now apply uoccursAt_head|].
      intros j' Hj'. now apply uoccursAt_nonneg in Hj'.
    + left. split; [reflexivity|]. intros j Hj.
      pose proof (uoccursAt_nonneg _ _ _ Hj) as Hnn.
      pose proof (uoccursAt_bound _ _ _ Hj) as Hb.
      change (Utf16.len []) with 0 in Hb. pose proof (ulen_nonneg p).
      assert (j = 0) by lia. subst j.
      apply uoccursAt_head in Hj. congruence.
  - cbn [Utf16.indexOfFrom]. destruct (Utf16.startsWith p (c :: s)) eqn:Hp.
    + right. exists 0. split; [lia|]. split; [now apply uoccursAt_head|].
      intros j' Hj'. now apply uoccursAt_nonneg in Hj'.
    + assert (Hshift : forall j, Utf16.occursAt p (c :: s) j ->
                                 Utf16.occursAt p s (j - 1)).
      { intros j Hj. pose proof (uoccursAt_nonneg _ _ _ Hj) as Hnn.
        assert (j <> 0).
        { intros ->. apply uoccursAt_head in Hj. congruence. }
        apply (uoccursAt_tail p s c (j - 1)); [lia|].
        now replace (j - 1 + 1) with j by lia. }
      destruct (IH (i + 1)) as [(Hnone & Hno) | (j & Hj & Hocc & Hmin)].
      * left. split; [exact Hnone|]. intros j Hj.
        apply Hshift in Hj. now apply (Hno (j - 1)).
      * right. exists (j + 1). split; [lia|]. split.
        -- apply uoccursAt_tail; [now apply uoccursAt_nonneg in Hocc | exact Hocc].
        -- intros j' Hj'. apply Hshift in Hj'.
           apply Hmin in Hj'. lia.
Qed.

Lemma uindexOf_spec (s p : Utf16.ustring) :
  (Utf16.indexOf s p = -1 /\ forall j, ~ Utf16.occursAt p s j)
  \/ (0 <= Utf16.indexOf s p /\ Utf16.occursAt p s (Utf16.indexOf s p)
      /\ forall j', Utf16.occursAt p s j' -> Utf16.indexOf s p <= j').
Proof.
  unfold Utf16.indexOf.
  destruct (uindexOfFrom_spec p s 0) as [H | (j & Hj & Hocc & Hmin)].
  - now left.
  - right. rewrite Hj. simpl. split; [now apply uoccursAt_nonneg in Hocc|].
    now split.
Qed.

(** The part of a string between two positions; when the first position
    lies beyond the second, which is the end of the string, the part is
    empty. *)
Lemma usubstring_sliceOf (s : Utf16.ustring) (a b : Z) :
  0 <= a -> 0 <= b -> b <= Utf16.len s -> (a <= b \/ b = Utf16.len s) ->
  Utf16.sliceOf s (Z.min a (Utf16.len s)) b (Utf16.substring s a b).
Proof.
  intros Ha Hb Hlen Horder. unfold Utf16.substring, Utf16.clamp.
  set (lo := Z.min (Z.max 0 (Z.min a (Utf16.len s)))
                   (Z.max 0 (Z.min b (Utf16.len s)))).
  set (hi := Z.max (Z.max 0 (Z.min a (Utf16.len s)))
                   (Z.max 0 (Z.min b (Utf16.len s)))).
  assert (Hlo : lo = Z.min a (Utf16.len s)) by (unfold lo; lia).
  assert (Hhi : hi = b) by (unfold hi; lia).
  rewrite Hlo, Hhi.
  set (n := Z.to_nat (Z.min a (Utf16.len s))).
  set (m := Z.to_nat (b - Z.min a (Utf16.len s))).
  exists (firstn n s), (skipn m (skipn n s)).
  assert (Hn : (n <= length s)%nat) by (unfold n, Utf16.len in *; lia).
  assert (Hm : (m <= length (skipn n s))%nat).
  { rewrite length_skipn. unfold m, n, Utf16.len in *. lia. }
  split; [now rewrite firstn_skipn, firstn_skipn|].
  unfold Utf16.len. rewrite !length_firstn.
  unfold n, m, Utf16.len in *. lia.
Qed.

Lemma usliceOf_length (s : Utf16.ustring) (a b : Z) (piece : Utf16.ustring) :
  Utf16.sliceOf s a b piece -> Utf16.len piece = b - a.
Proof. intros (before & after & _ & Ha & Hb). lia. Qed.

Lemma uapp_prefix (m : Utf16.ustring) :
  forall y z a : Utf16.ustring,
    y ++ z = m ++ a -> Utf16.len m <= Utf16.len y -> exists v, y = m ++ v.
Proof.
  induction m as [|c m IH]; intros y z a Heq Hlen.
  - now exists y.
  - destruct y as [|c' y].
    + rewrite ulen_cons in Hlen. change (Utf16.len []) with 0 in Hlen.
      pose proof (ulen_nonneg m). lia.
    + simpl in Heq. inversion Heq; subst.
      rewrite !ulen_cons in Hlen.
      destruct (IH y z a) as (v & ->); [assumption | lia |].
      now exists v.
Qed.

(** A part of a string contains every occurrence that lies inside it. *)
Lemma uslice_contains (x : Utf16.ustring) :
  forall s y z b p a : Utf16.ustring,
    s = x ++ y ++ z -> s = b ++ p ++ a ->
    Utf16.len x <= Utf16.len b ->
    Utf16.len b + Utf16.len p <= Utf16.len x + Utf16.len y ->
    exists u v, y = u ++ p ++ v /\ Utf16.len u = Utf16.len b - Utf16.len x.
Proof.
  induction x as [|c x IH]; intros s y z b p a Hs Hs' Hxb Hend.
  - simpl in Hs. subst s. change (Utf16.len []) with 0 in *.
    rewrite app_assoc in Hs'.
    destruct (uapp_prefix (b ++ p) y z a Hs') as (v & Hv).
    { rewrite ulen_app. lia. }
    exists b, v. split; [now rewrite Hv, app_assoc | lia].
  - destruct b as [|c' b].
    + rewrite ulen_cons in Hxb. change (Utf16.len []) with 0 in Hxb.
      pose proof (ulen_nonneg x). lia.
    + subst s. simpl in Hs'. inversion Hs'; subst c'.
      rewrite !ulen_cons in *.
      destruct (IH (x ++ y ++ z) y z b p a eq_refl H1) as (u & v & Hy & Hu);
        try lia.
      exists u, v. split; [exact Hy | lia].
Qed.

(** When lower-casing works code unit by code unit, the occurrences of the
    lower-cased query in the lower-cased text are the occurrences of the
    query in the text, case ignored. *)
Lemma uoccursAt_map (fold : N -> N) (p s : Utf16.ustring) (i : Z) :
  Utf16.occursAt (map fold p) (map fold s) i
  <-> Utf16.occursFoldedAt fold p s i.
Proof.
  split.
  - intros (before & after & Heq & Hlen).
    apply map_eq_app in Heq. destruct Heq as (b & rest & -> & Hb & Hrest).
    apply map_eq_app in Hrest. destruct Hrest as (part & a & -> & Hpart & _).
    exists b, part, a. split; [reflexivity|]. split; [|exact Hpart].
    rewrite <- Hlen, <- Hb. symmetry. apply ulen_map.
  - intros (before & part & after & -> & Hlen & Hpart).
    exists (map fold before), (map fold after).
    rewrite !map_app, Hpart. split; [reflexivity|].
    now rewrite ulen_map.
Qed.

End WideStrings.

(** ** The preview of a match, on any string *)

Section WidePreview.

(** The engine's [String.prototype.toLowerCase]. *)
Variable toLowerCase : Utf16.ustring -> Utf16.ustring.

(** What the code computes, whatever lower-casing does. *)
Lemma previewOf_cases (query text : Utf16.ustring) :
  (exists i,
      Utf16.occursAt (toLowerCase query) (toLowerCase text) i
      /\ (forall j, Utf16.occursAt (toLowerCase query) (toLowerCase text) j ->
                    i <= j)
      /\ Utf16.sliceOf text
           (Z.min (Z.max 0 (i - 50)) (Utf16.len text))
           (Z.min (Utf16.len text) (i + Utf16.len query + 50))
           (Utf16.previewOf toLowerCase query text))
  \/ ((forall i, ~ Utf16.occursAt (toLowerCase query) (toLowerCase text) i)
      /\ Utf16.previewOf toLowerCase query text = []).
Proof.
  unfold Utf16.previewOf.
  destruct (uindexOf_spec (toLowerCase text) (toLowerCase query))
    as [(Hm & Hno) | (Hnn & Hocc & Hmin)].
  - right. rewrite Hm. simpl. split; [exact Hno | reflexivity].
  - left. exists (Utf16.indexOf (toLowerCase text) (toLowerCase query)).
    split; [exact Hocc|]. split; [exact Hmin|].
    replace (negb (Utf16.indexOf (toLowerCase text) (toLowerCase query) =? -1))
      with true by (symmetry; apply negb_true_iff, Z.eqb_neq; lia).
    pose proof (ulen_nonneg query). pose proof (ulen_nonneg text).
    apply usubstring_sliceOf; lia.
Qed.


(** The preview is never longer than the query plus 100 code units,
    whatever lower-casing does; and when lower-casing works code unit by
    code unit on the text and the query, a query that occurs in the text,
    case ignored, occurs in the preview too. *)
Theorem previewOf_keeps_match (query text : Utf16.ustring) :
  Utf16.len (Utf16.previewOf toLowerCase query text) <= Utf16.len query + 100
  /\ forall fold : N -> N,
      toLowerCase text = map fold text ->
      toLowerCase query = map fold query ->
      (exists i, Utf16.occursFoldedAt fold query text i) ->
      exists j,
        Utf16.occursFoldedAt fold query
          (Utf16.previewOf toLowerCase query text) j.
Proof.
  pose proof (ulen_nonneg query) as Hq. pose proof (ulen_nonneg text) as Ht.
  destruct (previewOf_cases query text)
    as [(i & Hocc & Hmin & Hslice) | (Hno & Hempty)].
  - pose proof (uoccursAt_nonneg _ _ _ Hocc) as Hnn.
    split; [rewrite (usliceOf_length _ _ _ _ Hslice); lia|].
    intros fold Htext Hquery _.
    rewrite Htext, Hquery in Hocc.
    pose proof (uoccursAt_bound _ _ _ Hocc) as Hb.
    rewrite !ulen_map in Hb.
    apply uoccursAt_map in Hocc.
    destruct Hocc as (b & part & a & Hsplit & Hblen & Hpart).
    destruct Hslice as (before & after & Hcut & Hbefore & Hpiece).
    assert (Hplen : Utf16.len part = Utf16.len query).
    { rewrite <- (ulen_map fold part), Hpart. apply ulen_map. }
    destruct (uslice_contains before text
                (Utf16.previewOf toLowerCase query text) after b part a
                Hcut Hsplit) as (u & v & Hin & Hu); [lia | lia |].
    exists (Utf16.len u), u, part, v. split; [exact Hin|].
    split; [reflexivity | exact Hpart].
  - rewrite Hempty. split; [change (Utf16.len []) with 0; lia|].
    intros fold Htext Hquery (i & Hi). exfalso. apply (Hno i).
    rewrite Htext, Hquery. now apply uoccursAt_map.
Qed.

End WidePreview.

(** ** The two string models *)

Section Narrowing.

Lemma ofString_append (a b : string) :
  Utf16.ofString (a ++ b) = Utf16.ofString a ++ Utf16.ofString b.
Proof.
  unfold Utf16.ofString.
  induction a as [|c a IH]; simpl; [reflexivity | now rewrite IH].
Qed.

Lemma ofString_cons (c : ascii) (s : string) :
  Utf16.ofString (String c s) = N_of_ascii c :: Utf16.ofString s.
Proof. reflexivity. Qed.

Lemma ulen_ofString (s : string) : Utf16.len (Utf16.ofString s) = len s.
Proof.
  unfold Utf16.len, len, Utf16.ofString. rewrite length_map. f_equal.
  induction s as [|c s IH]; simpl; [reflexivity | now rewrite IH].
Qed.

Lemma N_of_ascii_eqb (a b : ascii) :
  N.eqb (N_of_ascii a) (N_of_ascii b) = Ascii.eqb a b.
Proof.
  destruct (Ascii.eqb_spec a b) as [->|Hne].
  - apply N.eqb_refl.
  - apply N.eqb_neq. intros H. apply Hne.
    rewrite <- (ascii_N_embedding a), <- (ascii_N_embedding b). now rewrite H.
Qed.

Lemma startsWith_ofString (p s : string) :
  Utf16.startsWith (Utf16.ofString p) (Utf16.ofString s) = startsWith p s.
Proof.
  revert s. induction p as [|a p IH]; intros s; [reflexivity|].
  destruct s as [|b s]; [reflexivity|].
  rewrite !ofString_cons. cbn [Utf16.startsWith startsWith].
  now rewrite N_of_ascii_eqb, IH.
Qed.

Lemma indexOfFrom_ofString (p : string) :
  forall (s : string) (i : Z),
    Utf16.indexOfFrom (Utf16.ofString p) (Utf16.ofString s) i
    = indexOfFrom p s i.
Proof.
  induction s as [|c s IH]; intros i.
  - cbn [indexOfFrom]. change (Utf16.ofString "") with (@nil N).
    cbn [Utf16.indexOfFrom].
    change (@nil N) with (Utf16.ofString ""). now rewrite startsWith_ofString.
  - cbn [indexOfFrom]. rewrite ofString_cons. cbn [Utf16.indexOfFrom].
    rewrite <- ofString_cons, startsWith_ofString.
    destruct (startsWith p (String c s)); [reflexivity | apply IH].
Qed.

Lemma ofString_substring (s : string) :
  forall n m : nat,
    Utf16.ofString (String.substring n m s)
    = firstn m (skipn n (Utf16.ofString s)).
Proof.
  induction s as [|c s IH]; intros n m.
  - destruct n, m; reflexivity.
  - destruct n as [|n].
    + destruct m as [|m]; [reflexivity|].
      cbn [String.substring]. rewrite !ofString_cons. cbn [skipn firstn].
      f_equal. exact (IH 0%nat m).
    + cbn [String.substring]. rewrite ofString_cons. cbn [skipn]. apply IH.
Qed.

Lemma substring_ofString (s : string) (a b : Z) :
  Utf16.substring (Utf16.ofString s) a b = Utf16.ofString (substring s a b).
Proof.
  unfold Utf16.substring, substring, Utf16.clamp, clamp.
  rewrite ulen_ofString. symmetry. apply ofString_substring.
Qed.

Lemma lowerUnit_ofChar (c : ascii) :
  Utf16.lowerUnit (N_of_ascii c) = [N_of_ascii (lowerChar c)].
Proof. destruct c as [[] [] [] [] [] [] [] []]; reflexivity. Qed.

(** On the strings of [Js] the two lower-casings agree. *)
Lemma toLowerCaseLatin_agrees : Utf16.agreesBelow256 Utf16.toLowerCaseLatin.
Proof.
  intros s. unfold Utf16.toLowerCaseLatin.
  induction s as [|c s IH]; [reflexivity|].
  cbn [toLowerCase]. rewrite !ofString_cons. cbn [flat_map].
  now rewrite lowerUnit_ofChar, IH.
Qed.

Lemma isSpace_ofChar (c : ascii) :
  Utf16.isSpace (N_of_ascii c) = isSpace c.
Proof. destruct c as [[] [] [] [] [] [] [] []]; reflexivity. Qed.

Lemma trimStart_ofString (s : string) :
  Utf16.trimStart (Utf16.ofString s) = Utf16.ofString (trimStart s).
Proof.
  induction s as [|c s IH]; [reflexivity|].
  rewrite ofString_cons. cbn [Utf16.trimStart trimStart].
  rewrite isSpace_ofChar. destruct (isSpace c); [exact IH | reflexivity].
Qed.

Lemma trimEnd_ofString (s : string) :
  Utf16.trimEnd (Utf16.ofString s) = Utf16.ofString (trimEnd s).
Proof.
  induction s as [|c s IH]; [reflexivity|].
  rewrite ofString_cons. cbn [Utf16.trimEnd trimEnd].
  rewrite IH, isSpace_ofChar.
  destruct (trimEnd s); [destruct (isSpace c)|]; reflexivity.
Qed.

(** On the strings of [Js], trimming is the trimming of [Js]: the no-break
    space is the one white space above the ASCII range and below 256. *)
Lemma trim_ofString (s : string) :
  Utf16.trim (Utf16.ofString s) = Utf16.ofString (trim s).
Proof.
  unfold Utf16.trim, trim. now rewrite trimStart_ofString, trimEnd_ofString.
Qed.

(** On the strings of [Js], the preview is the preview of the handler of
    [SearchRoute], for every engine. *)
Lemma previewOf_ofString toLowerCase (query text : string) :
  Utf16.agreesBelow256 toLowerCase ->
  Utf16.previewOf toLowerCase (Utf16.ofString query) (Utf16.ofString text)
  = Utf16.ofString (SearchRoute.previewOf query text).
Proof.
  intros Hagree. unfold Utf16.previewOf, SearchRoute.previewOf.
  rewrite !Hagree. unfold Utf16.indexOf, indexOf.
  rewrite indexOfFrom_ofString, !ulen_ofString.
  destruct (negb (indexOfFrom (Js.toLowerCase query) (Js.toLowerCase text) 0 =? -1));
    [apply substring_ofString | reflexivity].
Qed.

Lemma toLowerCase_map (s : string) :
  Utf16.toLowerCaseLatin (Utf16.ofString s)
  = map Utf16.foldBelow256 (Utf16.ofString s).
Proof.
  unfold Utf16.toLowerCaseLatin.
  induction s as [|c s IH]; [reflexivity|].
  rewrite ofString_cons. cbn [flat_map map]. rewrite IH.
  f_equal. clear. destruct c as [[] [] [] [] [] [] [] []]; reflexivity.
Qed.

(** An engine that lower-cases the strings of [Js] as [Js] does works code
    unit by code unit on them. *)
Lemma agreesBelow256_map toLowerCase (s : string) :
  Utf16.agreesBelow256 toLowerCase ->
  toLowerCase (Utf16.ofString s) = map Utf16.foldBelow256 (Utf16.ofString s).
Proof.
  intros Hagree. rewrite Hagree, <- toLowerCaseLatin_agrees.
  apply toLowerCase_map.
Qed.

End Narrowing.



(** Without that condition the match can be cut: after fifty-one capital I
    with dot above the preview starts inside the query. *)
Lemma previewOf_cuts_match_example :
  Utf16.previewOf Utf16.toLowerCaseLatin (Utf16.ofString "needle")
    (Utf16.dotted 51)
  = Utf16.ofString "eedle".
Proof. vm_compute. reflexivity. Qed.

Lemma previewOf_keeps_match_witness :
  Utf16.len (Utf16.previewOf Utf16.toLowerCaseLatin (Utf16.ofString "wor")
               (Utf16.ofString "say Hello World example"))
  <= Utf16.len (Utf16.ofString "wor") + 100
  /\ exists j,
      Utf16.occursFoldedAt Utf16.foldBelow256 (Utf16.ofString "wor")
        (Utf16.previewOf Utf16.toLowerCaseLatin (Utf16.ofString "wor")
           (Utf16.ofString "say Hello World example")) j.
Proof.
  split.
  - exact (proj1 (previewOf_keeps_match Utf16.toLowerCaseLatin
                    (Utf16.ofString "wor")
                    (Utf16.ofString "say Hello World example"))).
  - apply (proj2 (previewOf_keeps_match Utf16.toLowerCaseLatin
                    (Utf16.ofString "wor")
                    (Utf16.ofString "say Hello World example"))
             Utf16.foldBelow256 (toLowerCase_map _) (toLowerCase_map _)).
    exists 10, (Utf16.ofString "say Hello "), (Utf16.ofString "Wor"),
      (Utf16.ofString "ld example").
    repeat split.
Defined.

(** ** More on the search handler *)

Section PreviewFacts.

Import Spec SearchRoute.

(** A request without query, or whose query has fewer than two characters
    once trimmed, is refused without a search; any other query is searched
    once, as it was given, untrimmed. *)
Theorem GET_validates_trimmed_searches_raw eng sortResults d :
  GET eng sortResults None d
  = mkOutcome (BadRequest "Query must be at least 2 characters") [] d
  /\ forall query : string,
      (len (trim query) < 2 ->
       GET eng sortResults (Some query) d
       = mkOutcome (BadRequest "Query must be at least 2 characters") [] d)
      /\ (2 <= len (trim query) ->
          storeQueries (GET eng sortResults (Some query) d) = [query]
          /\ dbAfter (GET eng sortResults (Some query) d)
             = snd (Store.searchMetadata eng query d)).
Proof.
  split; [reflexivity|]. intros query. split.
  - intros Hshort. unfold GET. destruct query as [|c query]; [reflexivity|].
    cbn [truthy negb orb orElse].
    replace (len (trim (String c query)) <? 2) with true
      by (symmetry; apply Z.ltb_lt; lia).
    reflexivity.
  - intros Hlong. unfold GET.
    destruct query as [|c query]; [vm_compute in Hlong; congruence|].
    cbn [truthy negb orb orElse].
    replace (len (trim (String c query)) <? 2) with false
      by (symmetry; apply Z.ltb_ge; lia).
    destruct (Store.searchMetadata eng (String c query) d) as [[results|e] d'];
      split; reflexivity.
Qed.

(** A letter followed by a no-break space is one character once trimmed:
    the query is refused. *)
Lemma GET_rejects_padded_query_example :
  GET Sample.engine (fun _ results => results)
      (Some (String "a" (String (ascii_of_nat 160) ""))) Sample.library
  = mkOutcome (BadRequest "Query must be at least 2 characters") []
              Sample.library.
Proof. vm_compute. reflexivity. Qed.

(** A query that the server refuses as a pattern is answered with the
    server error, not with an empty result, when the text search brings
    nothing. *)
Theorem GET_refused_pattern eng sortResults (query : string) d d1 :
  2 <= len (trim query) ->
  Store.getMetadataCollection d = (Ok tt, d1) ->
  Store.serverReached d1 = Ok tt ->
  (forall doc docs, Store.findText eng query d1 <> Ok (doc :: docs)) ->
  Store.regexCompile eng query = None ->
  exists m,
    GET eng sortResults (Some query) d
    = mkOutcome (ServerError ("Failed to search metadata in MongoDB: " ++ m))
                [query] d1.
Proof.
  intros Hlong Hconn Hreach Htext Hre.
  assert (Hsearch : exists m,
    Store.searchMetadata eng query d
    = (Throw (newError ("Failed to search metadata in MongoDB: " ++ m)), d1)).
  { unfold Store.searchMetadata. rewrite Hconn.
    destruct (Store.findText eng query d1) as [[|doc docs]|e] eqn:Hft.
    - cbn. unfold Store.findRegex. rewrite Hreach, Hre. cbn. eauto.
    - now contradiction (Htext doc docs).
    - cbn. unfold Store.findRegex. rewrite Hreach, Hre. cbn. eauto. }
  destruct Hsearch as (m & Hsearch). exists m.
  unfold GET. destruct query as [|c query]; [vm_compute in Hlong; congruence|].
  cbn [truthy negb orb orElse].
  replace (len (trim (String c query)) <? 2) with false
    by (symmetry; apply Z.ltb_ge; lia).
  now rewrite Hsearch.
Qed.

Lemma GET_refused_pattern_witness :
  exists m,
    GET Sample.engine (fun _ results => results) (Some "a(") Sample.library
    = mkOutcome (ServerError ("Failed to search metadata in MongoDB: " ++ m))
                ["a("] Sample.library.
Proof.
  apply (GET_refused_pattern Sample.engine (fun _ results => results) "a("
           Sample.library Sample.library);
    [ vm_compute; discriminate | reflexivity | reflexivity
    | intros doc docs; vm_compute; discriminate | reflexivity ].
Defined.

End PreviewFacts.

(** ** More on the process handler *)

Section ProcessPaths.

Import ProcessRoute.

(** A request whose body lacks [id] or [s3Key] is refused: nothing is
    extracted, nothing is deleted and the database is not touched. *)
Theorem POST_missing_field env w body :
  bodyUsed w = false ->
  payload env = Ok body ->
  truthy (b_id body) = false \/ truthy (b_s3Key body) = false ->
  POST env w
  = (Resolved (BadRequest "Missing id or s3Key"),
     mkWorld true (db w) (deleted w) (console w)).
Proof.
  intros Hfresh Hbody Hmissing.
  unfold POST, tryBlock, bind at 1, requestJson. rewrite Hfresh, Hbody.
  destruct Hmissing as [-> | ->]; [|rewrite orb_true_r]; reflexivity.
Qed.

Lemma POST_missing_field_witness :
  POST (mkEnv (Ok (mkBody (Some "d3") None)) false (fun _ => Ok "text")
              (fun _ => Ok tt))
       Sample.freshRequest
  = (Resolved (BadRequest "Missing id or s3Key"),
     mkWorld true (db Sample.freshRequest) (deleted Sample.freshRequest)
             (console Sample.freshRequest)).
Proof.
  apply (POST_missing_field _ Sample.freshRequest (mkBody (Some "d3") None));
    [reflexivity | reflexivity | right; reflexivity].
Defined.

(** When the extraction and the update succeed the request succeeds,
    whether the temporary file could be deleted or not: the deletion is
    attempted first, its failure is only logged, and the record is then
    updated with the text and the status [completed]. *)
Theorem POST_success env w body text r d' :
  bodyUsed w = false ->
  payload env = Ok body ->
  truthy (b_id body) = true ->
  truthy (b_s3Key body) = true ->
  processDocument env (orElse (b_s3Key body) "") = Ok text ->
  Store.updatePDFMetadata (orElse (b_id body) "")
    (Store.mkPartial None None (Some text) None None (Some Store.completed))
    (db w) = (Ok r, d') ->
  exists w',
    POST env w = (Resolved (Success (orElse (b_id body) "") (len text)), w')
    /\ db w' = d'
    /\ deleted w'
       = match sendDelete env (orElse (b_s3Key body) "") with
         | Ok _ => deleted w ++ [orElse (b_s3Key body) ""]
         | Throw _ => deleted w
         end.
Proof.
  intros Hfresh Hbody Hid Hkey Hdoc Hupdate.
  unfold POST, tryBlock, bind at 1, requestJson.
  rewrite Hfresh, Hbody, Hid, Hkey. cbn [negb orb].
  unfold bind at 1, awaitProcessDocument. rewrite Hdoc.
  unfold bind at 1, catch, bind at 1, deleteFromS3, log.
  destruct (sendDelete env (orElse (b_s3Key body) "")) as [u|e]; cbn;
    unfold bind, updatePDFMetadata, ret; cbn; rewrite Hupdate;
    eexists; repeat split.
Qed.

Lemma POST_success_witness :
  let env := mkEnv (Ok (mkBody (Some "d3") (Some "temp-pdfs/1-c.pdf"))) false
                   (fun _ => Ok "Hello")
                   (fun _ => Throw (newError "AccessDenied")) in
  exists r d' w',
    Store.updatePDFMetadata "d3"
      (Store.mkPartial None None (Some "Hello") None None (Some Store.completed))
      (db Sample.freshRequest) = (Ok r, d')
    /\ POST env Sample.freshRequest = (Resolved (Success "d3" (len "Hello")), w')
    /\ db w' = d'
    /\ deleted w' = deleted Sample.freshRequest.
Proof.
  intros env. do 2 eexists.
  assert (Hupdate : Store.updatePDFMetadata "d3"
            (Store.mkPartial None None (Some "Hello") None None (Some Store.completed))
            (db Sample.freshRequest)
          = (Ok (Some (Store.fields (Sample.record "d3" "c.pdf" "Hello" Store.completed))),
             Store.withDocuments Sample.library
               [ Sample.record "d1" "a.pdf" "abc" Store.completed;
                 Sample.record "d2" "b.pdf" "say Hello World example" Store.completed;
                 Sample.record "d3" "c.pdf" "Hello" Store.completed;
                 Sample.record "d4" "d.pdf" "" Store.failed ]))
    by (vm_compute; reflexivity).
  destruct (POST_success env Sample.freshRequest
              (mkBody (Some "d3") (Some "temp-pdfs/1-c.pdf")) "Hello" _ _
              eq_refl eq_refl eq_refl eq_refl eq_refl Hupdate)
    as (w' & Hpost & Hdb & Hdeleted).
  exists w'. split; [exact Hupdate|]. split; [exact Hpost|].
  split; [exact Hdb | exact Hdeleted].
Defined.

(** The handler cannot answer with its 500 response: whatever throws in the
    [try] block, be it the parsing of the body, the extraction or the
    update, the [catch] block throws in turn on reading the body again and
    the request is rejected, the database and the object store staying as
    the [try] block left them. The second read rejects with the
    [TypeError] of a consumed body, or, for a request that came without
    body, with the parse error of the first read again. *)
Theorem POST_never_answers_500 env w :
  bodyUsed w = false ->
  (forall error w', POST env w <> (Resolved (ServerError error), w'))
  /\ (forall e w1, tryBlock env w = (Throw e, w1) ->
        exists w',
          POST env w
          = (Rejected
               (if bodyUsed w1
                then newTypeError "Body is unusable: Body has already been read"
                else e), w')
          /\ db w' = db w1 /\ deleted w' = deleted w1
          /\ (bodyUsed w1 = false <->
              bodyless env = true /\ payload env = Throw e)).
Proof.
  intros Hfresh.
  assert (Hused : forall r w1, tryBlock env w = (r, w1) ->
            match r with
            | Ok (ServerError _) => False
            | Ok _ => True
            | Throw e =>
                (bodyUsed w1 = true
                 /\ ~ (bodyless env = true /\ payload env = Throw e))
                \/ (bodyUsed w1 = false /\ bodyless env = true
                    /\ payload env = Throw e)
            end).
  { intros r w1. unfold tryBlock, bind at 1, requestJson. rewrite Hfresh.
    destruct (payload env) as [body|e0] eqn:Hpayload.
    2:{ destruct (bodyless env) eqn:Hbodyless; intros H; inversion H; subst.
        - right. rewrite Hfresh. auto.
        - left. split; [reflexivity|]. intros (Hb & _). discriminate. }
    destruct (negb (truthy (b_id body)) || negb (truthy (b_s3Key body))).
    { intros H. inversion H; subst. exact I. }
    unfold bind at 1, awaitProcessDocument.
    destruct (processDocument env _) as [text|e0].
    2:{ intros H. inversion H; subst. left. split; [reflexivity|].
        intros (_ & Hp). discriminate. }
    unfold bind at 1, catch, bind at 1, deleteFromS3, log.
    destruct (sendDelete env _) as [u|e0]; cbn;
      unfold bind, updatePDFMetadata, ret; cbn;
      destruct (Store.updatePDFMetadata _ _ _) as [[r0|e1] d1];
      intros H; inversion H; subst; try exact I;
      (left; split; [reflexivity|]; intros (_ & Hp); discriminate). }
  assert (Hcatch : forall e w1, bodyUsed w1 = true ->
            catchBlock env e w1
            = (Throw (newTypeError "Body is unusable: Body has already been read"),
               mkWorld true (db w1) (deleted w1)
                       (console w1 ++ ["Error processing document: " ++ message e]%string))).
  { intros e w1 Hb. unfold catchBlock, bind at 1, log.
    unfold bind at 1, requestJson. cbn [bodyUsed db deleted console].
    now rewrite Hb. }
  assert (Hagain : forall e w1, bodyUsed w1 = false -> bodyless env = true ->
            payload env = Throw e ->
            catchBlock env e w1
            = (Throw e,
               mkWorld false (db w1) (deleted w1)
                       (console w1 ++ ["Error processing document: " ++ message e]%string))).
  { intros e w1 Hb Hbodyless Hp. unfold catchBlock, bind at 1, log.
    unfold bind at 1, requestJson. cbn [bodyUsed db deleted console].
    now rewrite Hb, Hp, Hbodyless. }
  split.
  - intros error w' H. unfold POST in H.
    destruct (tryBlock env w) as [[r|e] w1] eqn:Htry.
    + pose proof (Hused _ _ eq_refl) as Hr. inversion H; subst. exact Hr.
    + destruct (Hused _ _ eq_refl) as [(Hb & _) | (Hb & Hbodyless & Hp)].
      * rewrite (Hcatch e w1 Hb) in H. discriminate.
      * rewrite (Hagain e w1 Hb Hbodyless Hp) in H. discriminate.
  - intros e w1 Htry. unfold POST. rewrite Htry.
    destruct (Hused _ _ Htry) as [(Hb & Hnot) | (Hb & Hbodyless & Hp)].
    + rewrite (Hcatch e w1 Hb), Hb.
      eexists. split; [reflexivity|]. split; [reflexivity|].
      split; [reflexivity|]. split; [discriminate|].
      intros Hx. now destruct (Hnot Hx).
    + rewrite (Hagain e w1 Hb Hbodyless Hp), Hb.
      eexists. split; [reflexivity|]. repeat split; auto.
Qed.

Lemma POST_never_answers_500_witness :
  (exists w',
      POST Sample.failingRequest Sample.freshRequest
      = (Rejected (newTypeError "Body is unusable: Body has already been read"), w'))
  /\ (exists w',
        POST Scenario.notJson Sample.freshRequest
        = (Rejected (newTypeError "Body is unusable: Body has already been read"), w'))
  /\ (exists w',
        POST Scenario.withoutBody Sample.freshRequest
        = (Rejected (mkError "SyntaxError" "Unexpected end of JSON input"), w')).
Proof.
  split; [|split].
  - destruct (proj2 (POST_never_answers_500 Sample.failingRequest
                       Sample.freshRequest eq_refl) _ _ eq_refl)
      as (w' & Hpost & _).
    exists w'. exact Hpost.
  - destruct (proj2 (POST_never_answers_500 Scenario.notJson
                       Sample.freshRequest eq_refl) _ _ eq_refl)
      as (w' & Hpost & _).
    exists w'. exact Hpost.
  - destruct (proj2 (POST_never_answers_500 Scenario.withoutBody
                       Sample.freshRequest eq_refl) _ _ eq_refl)
      as (w' & Hpost & _).
    exists w'. exact Hpost.
Defined.

End ProcessPaths.

(** ** The object store client *)

Section ObjectStore.

Import Eff S3.

Lemma getBucket_cases env w :
  (exists b, AWS_S3_BUCKET_NAME env = Some b /\ b <> ""%string
             /\ getBucket env w = (Ok b, w))
  \/ (truthy (AWS_S3_BUCKET_NAME env) = false
      /\ getBucket env w
         = (Throw (newError "AWS_S3_BUCKET_NAME environment variable is not set"), w)).
Proof.
  unfold getBucket. destruct (truthy (AWS_S3_BUCKET_NAME env)) eqn:Hb.
  - left. destruct (truthy_Some _ Hb) as (b & Hsome & Hne & Hor).
    exists b. rewrite Hor. auto.
  - right. auto.
Qed.

Lemma getS3Client_cases env w :
  (exists w', getS3Client env w = (Ok tt, w') /\ events w' = events w
              /\ s3Client w' = true)
  \/ (s3Client w = false
      /\ exists e, getS3Client env w = (Throw e, w) /\ name e = "Error").
Proof.
  unfold getS3Client. destruct (s3Client w) eqn:Hc.
  - left. exists w. repeat split; auto.
  - destruct (_ || _).
    + right. split; [reflexivity|]. eexists. split; reflexivity.
    + left. eexists. repeat split.
Qed.

Lemma deleteFromS3_cases env (key : string) w :
  exists r w',
    deleteFromS3 env key w = (r, w')
    /\ (events w' = events w
        \/ exists bucket,
            AWS_S3_BUCKET_NAME env = Some bucket /\ bucket <> ""%string
            /\ events w' = events w ++ [Sent (DeleteObjectCommand bucket key)]
            /\ (r = Ok tt <-> send env (DeleteObjectCommand bucket key) = Ok tt))
    /\ (r = Ok tt -> events w' <> events w)
    /\ (forall e, r = Throw e ->
          exists m, e = newError ("Failed to delete file from S3: " ++ m)).
Proof.
  unfold deleteFromS3, tryCatch, rethrow, throw.
  destruct (getBucket_cases env w) as [(b & Hb & Hne & Hrun) | (Hb & Hrun)].
  2:{ unfold bind at 1. rewrite Hrun. do 2 eexists. split; [reflexivity|].
      split; [now left|]. split; [discriminate|].
      intros e He. injection He as <-. eexists; reflexivity. }
  unfold bind at 1. rewrite Hrun.
  destruct (getS3Client_cases env w) as [(w1 & Hc & Hev & _) | (_ & e0 & Hc & _)].
  2:{ unfold bind at 1. rewrite Hc. do 2 eexists. split; [reflexivity|].
      split; [now left|]. split; [discriminate|].
      intros e He. injection He as <-. eexists; reflexivity. }
  unfold bind at 1. rewrite Hc. unfold sendCommand.
  destruct (send env (DeleteObjectCommand b key)) as [[]|e0] eqn:Hsend;
    do 2 eexists; (split; [reflexivity|]); cbn [events]; rewrite Hev.
  - split; [right; exists b; repeat split; auto|].
    split; [|discriminate].
    intros _ Heq. apply (f_equal (@length Event)) in Heq.
    rewrite length_app in Heq. simpl in Heq. lia.
  - split.
    { right. exists b. repeat split; auto; intros; congruence. }
    split; [discriminate|]. intros e He. injection He as <-. eexists; reflexivity.
Qed.

(** [deleteFromS3] sends at most one command, the deletion of the given key
    in the configured bucket, and succeeds exactly when that command was
    sent and accepted; every failure carries the prefix of [deleteFromS3].
    Without bucket name nothing is sent. The credentials are looked at only
    when the client is created: while there is no client, missing
    credentials mean that nothing is sent; once the client exists the
    command is sent whatever the environment holds. *)
Theorem deleteFromS3_one_command env (key : string) w :
  exists r w',
    deleteFromS3 env key w = (r, w')
    /\ (events w' = events w
        \/ exists bucket,
            AWS_S3_BUCKET_NAME env = Some bucket /\ bucket <> ""%string
            /\ events w' = events w ++ [Sent (DeleteObjectCommand bucket key)]
            /\ (r = Ok tt <-> send env (DeleteObjectCommand bucket key) = Ok tt))
    /\ (r = Ok tt -> events w' <> events w)
    /\ (forall e, r = Throw e ->
          exists m, e = newError ("Failed to delete file from S3: " ++ m))
    /\ (truthy (AWS_S3_BUCKET_NAME env) = false -> events w' = events w)
    /\ (s3Client w = false ->
        truthy (AWS_REGION env) && truthy (AWS_ACCESS_KEY_ID env)
        && truthy (AWS_SECRET_ACCESS_KEY env) = false ->
        events w' = events w)
    /\ (s3Client w = true -> truthy (AWS_S3_BUCKET_NAME env) = true ->
        events w'
        = events w ++ [Sent (DeleteObjectCommand (orElse (AWS_S3_BUCKET_NAME env) "") key)]).
Proof.
  destruct (deleteFromS3_cases env key w) as (r & w' & Hrun & Hsent & Hok & Hthrow).
  exists r, w'. split; [exact Hrun|]. split; [exact Hsent|].
  split; [exact Hok|]. split; [exact Hthrow|].
  revert Hrun. clear.
  unfold deleteFromS3, tryCatch, rethrow, throw, getBucket, getS3Client, sendCommand.
  intros Hrun. split; [|split].
  - intros Hb. rewrite Hb in Hrun. cbn in Hrun. now inversion Hrun.
  - intros Hc Hcred. unfold bind at 1 in Hrun.
    destruct (truthy (AWS_S3_BUCKET_NAME env)); cbn in Hrun;
      [|now inversion Hrun].
    unfold bind at 1 in Hrun. rewrite Hc in Hrun.
    replace (negb (truthy (AWS_REGION env)) || negb (truthy (AWS_ACCESS_KEY_ID env))
             || negb (truthy (AWS_SECRET_ACCESS_KEY env))) with true in Hrun
      by (destruct (truthy (AWS_REGION env)), (truthy (AWS_ACCESS_KEY_ID env)),
            (truthy (AWS_SECRET_ACCESS_KEY env)); try reflexivity; discriminate).
    cbn in Hrun. now inversion Hrun.
  - intros Hc Hb. unfold bind at 1 in Hrun. rewrite Hb in Hrun. cbn in Hrun.
    unfold bind at 1 in Hrun. rewrite Hc in Hrun. cbn in Hrun.
    destruct (send env _); inversion Hrun; reflexivity.
Qed.

Lemma generatePresignedUploadUrl_cases env (key contentType : string) w :
  exists r w',
    generatePresignedUploadUrl env key contentType w = (r, w')
    /\ Forall (fun ev => match ev with Sent _ => False | Signed _ _ => True end)
              (skipn (length (events w)) (events w'))
    /\ match r with
       | Ok p =>
           S3.key p = key
           /\ AWS_S3_BUCKET_NAME env = Some (bucket p) /\ bucket p <> ""%string
           /\ events w'
              = events w ++ [Signed (PutObjectCommand (bucket p) key None contentType) 300]
           /\ getSignedUrl env (PutObjectCommand (bucket p) key None contentType) 300
              = Ok (url p)
       | Throw e =>
           exists m, e = newError ("Failed to generate presigned upload URL: " ++ m)
       end.
Proof.
  unfold generatePresignedUploadUrl, tryCatch, rethrow, throw.
  assert (Hskip0 : forall l : list Event, skipn (length l) l = [])
    by (intros l; apply skipn_all).
  assert (Hskip1 : forall (l : list Event) x, skipn (length l) (l ++ [x]) = [x]).
  { intros l x. rewrite skipn_app, Hskip0, Nat.sub_diag. reflexivity. }
  destruct (getBucket_cases env w) as [(b & Hb & Hne & Hrun) | (Hb & Hrun)].
  2:{ unfold bind at 1. rewrite Hrun. do 2 eexists. split; [reflexivity|].
      rewrite Hskip0. split; [constructor | eexists; reflexivity]. }
  unfold bind at 1. rewrite Hrun.
  destruct (getS3Client_cases env w) as [(w1 & Hc & Hev & _) | (_ & e0 & Hc & _)].
  2:{ unfold bind at 1. rewrite Hc. do 2 eexists. split; [reflexivity|].
      rewrite Hskip0. split; [constructor | eexists; reflexivity]. }
  unfold bind at 1. rewrite Hc. unfold bind, sign, ret.
  destruct (getSignedUrl env (PutObjectCommand b key None contentType) 300)
    as [u|e0] eqn:Hsign;
    do 2 eexists; (split; [reflexivity|]); cbn [events]; rewrite Hev, Hskip1;
    (split; [repeat constructor|]).
  - cbn. repeat split; auto.
  - eexists; reflexivity.
Qed.

(** A presigned upload URL is made without sending anything: on success the
    presigner was asked once, for a [PutObject] without body of the
    configured bucket, the given key and content type, valid 300 seconds,
    and the answer repeats that key and bucket; every failure carries the
    prefix of [generatePresignedUploadUrl]. *)
Theorem generatePresignedUploadUrl_signs_put env (key contentType : string) w :
  exists r w',
    generatePresignedUploadUrl env key contentType w = (r, w')
    /\ Forall (fun ev => match ev with Sent _ => False | Signed _ _ => True end)
              (skipn (length (events w)) (events w'))
    /\ match r with
       | Ok p =>
           S3.key p = key
           /\ AWS_S3_BUCKET_NAME env = Some (bucket p) /\ bucket p <> ""%string
           /\ events w'
              = events w ++ [Signed (PutObjectCommand (bucket p) key None contentType) 300]
           /\ getSignedUrl env (PutObjectCommand (bucket p) key None contentType) 300
              = Ok (url p)
       | Throw e =>
           exists m, e = newError ("Failed to generate presigned upload URL: " ++ m)
       end.
Proof. exact (generatePresignedUploadUrl_cases env key contentType w). Qed.

End ObjectStore.

(** ** Writing to the store and listing it *)

Section CatalogFacts.

Import Store Catalog.

Lemma leb_refl (s : string) : String.leb s s = true.
Proof.
  unfold String.leb.
  assert (H : String.compare s s = Eq).
  { induction s as [|c s IH]; simpl; [reflexivity|].
    unfold Ascii.compare. now rewrite N.compare_refl. }
  now rewrite H.
Qed.

Lemma leb_trans (a b c : string) :
  String.leb a b = true -> String.leb b c = true -> String.leb a c = true.
Proof.
  unfold String.leb.
  assert (H : forall a b c,
             String.compare a b <> Gt -> String.compare b c <> Gt ->
             String.compare a c <> Gt).
  { clear. induction a as [|x a IH]; intros [|y b] [|z c]; simpl;
      try congruence.
    unfold Ascii.compare.
    destruct (N.compare_spec (N_of_ascii x) (N_of_ascii y)) as [Hxy|Hxy|Hxy];
      destruct (N.compare_spec (N_of_ascii y) (N_of_ascii z)) as [Hyz|Hyz|Hyz];
      try congruence; intros H1 H2.
    - rewrite Hxy, Hyz, N.compare_refl. now apply (IH b c).
    - assert (Hlt : (N_of_ascii x < N_of_ascii z)%N) by lia.
      apply N.compare_lt_iff in Hlt. rewrite Hlt. discriminate.
    - assert (Hlt : (N_of_ascii x < N_of_ascii z)%N) by lia.
      apply N.compare_lt_iff in Hlt. rewrite Hlt. discriminate.
    - assert (Hlt : (N_of_ascii x < N_of_ascii z)%N) by lia.
      apply N.compare_lt_iff in Hlt. rewrite Hlt. discriminate. }
  intros H1 H2.
  specialize (H a b c).
  destruct (String.compare a b); destruct (String.compare b c);
    destruct (String.compare a c); try reflexivity; try discriminate;
    exfalso; apply H; congruence.
Qed.

Lemma existsb_eqb_In (x : string) (l : list string) :
  existsb (String.eqb x) l = true <-> In x l.
Proof.
  rewrite existsb_exists. split.
  - intros (y & Hy & Heq). apply String.eqb_eq in Heq. now subst.
  - intros Hin. exists x. split; [exact Hin | apply String.eqb_refl].
Qed.

Lemma distinct_NoDup (l : list string) : distinct l = true <-> NoDup l.
Proof.
  induction l as [|x l IH]; simpl.
  - split; [constructor | reflexivity].
  - rewrite andb_true_iff, negb_true_iff, IH. split.
    + intros (Hx & Hl). constructor; [|exact Hl].
      intros Hin. apply existsb_eqb_In in Hin. congruence.
    + intros H. inversion H; subst. split; [|assumption].
      destruct (existsb (String.eqb x) l) eqn:He; [|reflexivity].
      apply existsb_eqb_In in He. contradiction.
Qed.

Lemma insertDesc_perm doc sorted :
  Permutation (doc :: sorted) (insertDesc doc sorted).
Proof.
  induction sorted as [|x rest IH]; simpl; [reflexivity|].
  destruct (String.leb _ _); [reflexivity|].
  rewrite perm_swap. now constructor.
Qed.

Lemma insertDesc_sorted doc sorted :
  StronglySorted notAfter sorted -> StronglySorted notAfter (insertDesc doc sorted).
Proof.
  induction 1 as [|x rest Hrest IH Hx]; simpl.
  - repeat constructor.
  - destruct (String.leb (uploadedAt (fields x)) (uploadedAt (fields doc))) eqn:Hle.
    + constructor; [now constructor|].
      constructor; [exact Hle|].
      eapply Forall_impl; [|exact Hx]. intros y Hy. unfold notAfter in *.
      eapply leb_trans; eauto.
    + constructor; [exact IH|].
      assert (Hdoc : notAfter x doc).
      { unfold notAfter.
        destruct (String.leb_total (uploadedAt (fields doc)) (uploadedAt (fields x)));
          congruence. }
      apply (Permutation_Forall (insertDesc_perm doc rest)).
      now constructor.
Qed.

Lemma sortByUploadedAtDesc_spec docs :
  Permutation docs (sortByUploadedAtDesc docs)
  /\ StronglySorted notAfter (sortByUploadedAtDesc docs).
Proof.
  induction docs as [|doc docs (Hperm & Hsorted)]; simpl.
  - split; constructor.
  - split.
    + rewrite <- insertDesc_perm. now constructor.
    + now apply insertDesc_sorted.
Qed.

Lemma ensureIndexes_frame s :
  documents (base (ensureIndexes s)) = documents (base s)
  /\ nextObjectId (ensureIndexes s) = nextObjectId s
  /\ connectOutcome (base (ensureIndexes s)) = connectOutcome (base s)
  /\ (idIndex s = true -> idIndex (ensureIndexes s) = true)
  /\ (db (base s) = true -> db (base (ensureIndexes s)) = true).
Proof.
  unfold ensureIndexes.
  destruct (getMetadataCollection (base s)) as [[u|e] d1] eqn:Hconn;
    destruct (getMetadataCollection_frame _ _ _ Hconn) as (Hdocs & _ & Hco).
  2:{ cbn. repeat split; auto.
      intros Hdb. revert Hconn. unfold getMetadataCollection, getDatabase.
      rewrite Hdb. discriminate. }
  assert (Hdb1 : db d1 = true).
  { destruct u. eapply getMetadataCollection_db; eauto. }
  destruct (serverReached d1); [|cbn; repeat split; auto].
  destruct (idIndex s || distinct (ids (documents d1))) eqn:Hidx; cbn;
    repeat split; auto.
Qed.

(** On a reachable server whose ids are distinct, [ensureIndexes] leaves the
    unique index behind. *)
Lemma ensureIndexes_unique s :
  db (base s) = true ->
  serverReached (base s) = Ok tt ->
  NoDup (ids (documents (base s))) ->
  idIndex (ensureIndexes s) = true.
Proof.
  intros Hdb Hreach Hnodup. unfold ensureIndexes, getMetadataCollection, getDatabase.
  rewrite Hdb, Hreach.
  apply distinct_NoDup in Hnodup. rewrite Hnodup, orb_true_r. reflexivity.
Qed.

Lemma ids_app docs docs' : ids (docs ++ docs') = ids docs ++ ids docs'.
Proof. unfold ids. apply map_app. Qed.

Lemma insertOne_cases document s :
  (exists e, insertOne document s = (Throw e, s))
  \/ (serverReached (base s) = Ok tt
      /\ (idIndex s = true -> ~ In (id document) (ids (documents (base s))))
      /\ insertOne document s
         = (Ok tt,
            mkServer
              (withDocuments (base s)
                 (documents (base s) ++ [mkDocument (Some (nextObjectId s)) document]))
              (idIndex s) (N.succ (nextObjectId s)))).
Proof.
  unfold insertOne. destruct (serverReached (base s)) as [[]|e]; [|eauto].
  destruct (idIndex s); cbn [andb].
  - destruct (existsb _ _) eqn:He; [eauto|].
    right. repeat split. intros _ Hin. apply existsb_eqb_In in Hin. congruence.
  - right. repeat split. discriminate.
Qed.

Lemma metadata_eta (m : PDFMetadata) :
  mkPDFMetadata (id m) (filename m) (extractedText m) (uploadedAt m)
                (textractJobId m) (status m) = m.
Proof. now destruct m. Qed.

(** What a successful [addPDFMetadata] leaves. *)
Lemma addPDFMetadata_Ok metadata s r s' :
  addPDFMetadata metadata s = (Ok r, s') ->
  r = metadata
  /\ db (base s') = true
  /\ serverReached (base s') = Ok tt
  /\ documents (base s')
     = documents (base s) ++ [mkDocument (Some (nextObjectId s)) metadata]
  /\ (NoDup (ids (documents (base s))) ->
      ~ In (id metadata) (ids (documents (base s)))).
Proof.
  unfold addPDFMetadata.
  destruct (getMetadataCollection (base s)) as [[[]|e] d1] eqn:Hconn;
    [|discriminate].
  destruct (getMetadataCollection_frame _ _ _ Hconn) as (Hdocs & _ & Hco).
  pose proof (getMetadataCollection_db _ _ Hconn) as Hdb.
  rewrite metadata_eta.
  destruct (ensureIndexes_frame (withBase s d1)) as (Hd & Hn & Hc & _ & Hdbk).
  cbn [base withBase nextObjectId] in Hd, Hn, Hc, Hdbk.
  destruct (insertOne_cases metadata (ensureIndexes (withBase s d1)))
    as [(e & Hins) | (Hreach & Hfree & Hins)]; rewrite Hins; [discriminate|].
  intros H. inversion H; subst r s'. clear H. cbn.
  rewrite Hd, Hn, Hdocs. repeat split; auto.
  intros Hnodup. rewrite Hd, Hdocs in Hfree. apply Hfree.
  apply ensureIndexes_unique; cbn; [exact Hdb | | now rewrite Hdocs].
  unfold serverReached in *. now rewrite <- Hc.
Qed.

Lemma findAll_Ok s :
  serverReached (base s) = Ok tt -> findAll s = Ok (documents (base s)).
Proof. intros H. unfold findAll. now rewrite H. Qed.

Lemma loadMetadata_connected s :
  db (base s) = true -> serverReached (base s) = Ok tt ->
  fst (loadMetadata s) = Ok (map fields (documents (base s))).
Proof.
  intros Hdb Hreach. unfold loadMetadata, getMetadataCollection, getDatabase.
  rewrite Hdb.
  replace (withBase s (base s)) with s by now destruct s.
  destruct (ensureIndexes_frame s) as (Hd & _ & Hc & _).
  rewrite findAll_Ok; [cbn; now rewrite Hd|].
  unfold serverReached in *. now rewrite Hc.
Qed.

Lemma getAllMetadata_connected s :
  db (base s) = true -> serverReached (base s) = Ok tt ->
  getAllMetadata s
  = (Ok (map fields (sortByUploadedAtDesc (documents (base s)))), s).
Proof.
  intros Hdb Hreach. unfold getAllMetadata, getMetadataCollection, getDatabase.
  rewrite Hdb.
  replace (withBase s (base s)) with s by now destruct s.
  now rewrite findAll_Ok.
Qed.

(** A record that was added is found again: [loadMetadata] then returns the
    earlier records followed by the new one, and [getAllMetadata] contains
    it. *)
Theorem addPDFMetadata_then_read metadata s r s' :
  addPDFMetadata metadata s = (Ok r, s') ->
  r = metadata
  /\ fst (loadMetadata s') = Ok (map fields (documents (base s)) ++ [metadata])
  /\ exists all, fst (getAllMetadata s') = Ok all /\ In metadata all.
Proof.
  intros H. destruct (addPDFMetadata_Ok _ _ _ _ H) as (Hr & Hdb & Hreach & Hdocs & _).
  split; [exact Hr|]. split.
  - rewrite (loadMetadata_connected s' Hdb Hreach), Hdocs, map_app. reflexivity.
  - rewrite (getAllMetadata_connected s' Hdb Hreach). eexists. split; [reflexivity|].
    apply in_map_iff. exists (mkDocument (Some (nextObjectId s)) metadata).
    split; [reflexivity|].
    apply (Permutation_in _ (proj1 (sortByUploadedAtDesc_spec _))).
    rewrite Hdocs. apply in_or_app. right. now left.
Qed.

Lemma addPDFMetadata_then_read_witness :
  exists s',
    addPDFMetadata (Shelf.fresh "n") Shelf.server = (Ok (Shelf.fresh "n"), s')
    /\ Shelf.fresh "n" = Shelf.fresh "n"
    /\ fst (loadMetadata s')
       = Ok (map fields (documents (base Shelf.server)) ++ [Shelf.fresh "n"])
    /\ exists all, fst (getAllMetadata s') = Ok all /\ In (Shelf.fresh "n") all.
Proof.
  eexists. split; [vm_compute; reflexivity|].
  eapply (addPDFMetadata_then_read (Shelf.fresh "n") Shelf.server).
  vm_compute. reflexivity.
Defined.

(** While the ids in the collection are distinct, [addPDFMetadata] keeps
    them so: it creates the unique index before inserting, so a record whose
    id is already there is refused and the collection is left as it was. *)
Theorem addPDFMetadata_keeps_ids_distinct metadata s :
  NoDup (ids (documents (base s))) ->
  NoDup (ids (documents (base (snd (addPDFMetadata metadata s)))))
  /\ (In (id metadata) (ids (documents (base s))) ->
      (exists e, fst (addPDFMetadata metadata s) = Throw e)
      /\ documents (base (snd (addPDFMetadata metadata s))) = documents (base s)).
Proof.
  intros Hnodup.
  destruct (addPDFMetadata metadata s) as [[r|e] s'] eqn:Hrun; cbn [fst snd].
  - destruct (addPDFMetadata_Ok _ _ _ _ Hrun) as (_ & _ & _ & Hdocs & Hfresh).
    specialize (Hfresh Hnodup). split; [|contradiction].
    rewrite Hdocs, ids_app. cbn.
    apply NoDup_app; [exact Hnodup | repeat constructor; auto |].
    intros x Hx [<- | []]. contradiction.
  - assert (Hsame : documents (base s') = documents (base s)).
    { revert Hrun. unfold addPDFMetadata.
      destruct (getMetadataCollection (base s)) as [[[]|e0] d1] eqn:Hconn;
        destruct (getMetadataCollection_frame _ _ _ Hconn) as (Hdocs & _ & _).
      2:{ intros H. inversion H; subst. exact Hdocs. }
      destruct (ensureIndexes_frame (withBase s d1)) as (Hd & _).
      cbn [base withBase] in Hd.
      destruct (insertOne_cases
                  (mkPDFMetadata (id metadata) (filename metadata)
                     (extractedText metadata) (uploadedAt metadata)
                     (textractJobId metadata) (status metadata))
                  (ensureIndexes (withBase s d1)))
        as [(e1 & Hins) | (_ & _ & Hins)]; rewrite Hins; [|discriminate].
      intros H. inversion H; subst. now rewrite Hd. }
    rewrite Hsame. split; [exact Hnodup|]. intros _. split; [eauto | reflexivity].
Qed.

Lemma addPDFMetadata_keeps_ids_distinct_witness :
  NoDup (ids (documents (base (snd (addPDFMetadata (Shelf.fresh "a") Shelf.server)))))
  /\ (In (id (Shelf.fresh "a")) (ids (documents (base Shelf.server))) ->
      (exists e, fst (addPDFMetadata (Shelf.fresh "a") Shelf.server) = Throw e)
      /\ documents (base (snd (addPDFMetadata (Shelf.fresh "a") Shelf.server)))
         = documents (base Shelf.server)).
Proof.
  apply (addPDFMetadata_keeps_ids_distinct (Shelf.fresh "a") Shelf.server).
  apply distinct_NoDup. reflexivity.
Defined.

Lemma getAllMetadata_inv s all s' :
  getAllMetadata s = (Ok all, s') ->
  documents (base s') = documents (base s)
  /\ all = map fields (sortByUploadedAtDesc (documents (base s))).
Proof.
  unfold getAllMetadata.
  destruct (getMetadataCollection (base s)) as [[[]|e] d1] eqn:Hconn;
    [|discriminate].
  destruct (getMetadataCollection_frame _ _ _ Hconn) as (Hdocs & _ & _).
  unfold findAll. cbn [base withBase].
  destruct (serverReached d1); [|discriminate].
  intros H. inversion H; subst. cbn. now rewrite Hdocs.
Qed.

(** [getAllMetadata] returns every stored record once, the most recently
    uploaded first, and changes no record. *)
Theorem getAllMetadata_sorted s all s' :
  getAllMetadata s = (Ok all, s') ->
  documents (base s') = documents (base s)
  /\ exists docs,
      all = map fields docs
      /\ Permutation (documents (base s)) docs
      /\ StronglySorted notAfter docs.
Proof.
  intros H. destruct (getAllMetadata_inv _ _ _ H) as (Hdocs & Hall).
  split; [exact Hdocs|].
  exists (sortByUploadedAtDesc (documents (base s))).
  split; [exact Hall | apply sortByUploadedAtDesc_spec].
Qed.

Lemma getAllMetadata_sorted_witness :
  exists all s',
    getAllMetadata Shelf.server = (Ok all, s')
    /\ documents (base s') = documents (base Shelf.server)
    /\ exists docs,
        all = map fields docs
        /\ Permutation (documents (base Shelf.server)) docs
        /\ StronglySorted notAfter docs.
Proof.
  do 2 eexists. split; [vm_compute; reflexivity|].
  eapply (getAllMetadata_sorted Shelf.server). vm_compute. reflexivity.
Defined.

Lemma insertMany_prefix metadata :
  forall s r s',
    insertMany metadata s = (r, s') ->
    db (base s') = db (base s)
    /\ connectOutcome (base s') = connectOutcome (base s)
    /\ exists done rest,
        metadata = done ++ rest
        /\ map fields (documents (base s'))
           = map fields (documents (base s)) ++ done
        /\ (r = Ok tt <-> rest = []).
Proof.
  induction metadata as [|m metadata IH]; intros s r s'; simpl.
  - intros H. inversion H; subst. repeat split.
    exists [], []. repeat split; auto; now rewrite app_nil_r.
  - destruct (insertOne_cases m s) as [(e & Hins) | (_ & _ & Hins)];
      rewrite Hins.
    + intros H. inversion H; subst. repeat split.
      exists [], (m :: metadata).
      repeat split; try discriminate; now rewrite app_nil_r.
    + intros H. apply IH in H. cbn in H.
      destruct H as (Hdb & Hco & done & rest & -> & Hdocs & Hok).
      repeat split; auto.
      exists (m :: done), rest. rewrite Hdocs, map_app. cbn.
      rewrite <- app_assoc. auto.
Qed.

(** What is saved is what is loaded: after a successful [saveMetadata] the
    collection holds the given records, in the given order, and nothing of
    what it held before; [loadMetadata] returns them. *)
Theorem saveMetadata_then_load metadata s s' :
  saveMetadata metadata s = (Ok tt, s') ->
  map fields (documents (base s')) = metadata
  /\ fst (loadMetadata s') = Ok metadata.
Proof.
  unfold saveMetadata.
  destruct (getMetadataCollection (base s)) as [[[]|e] d1] eqn:Hconn;
    [|discriminate].
  pose proof (getMetadataCollection_db _ _ Hconn) as Hdb.
  destruct (ensureIndexes_frame (withBase s d1)) as (_ & _ & Hc & _ & Hdbk).
  cbn [base withBase] in Hc, Hdbk. specialize (Hdbk Hdb).
  unfold deleteMany.
  destruct (serverReached (base (ensureIndexes (withBase s d1)))) as [[]|e] eqn:Hreach;
    [|discriminate].
  set (s2 := withBase (ensureIndexes (withBase s d1))
               (withDocuments (base (ensureIndexes (withBase s d1))) [])).
  assert (Hs2 : db (base s2) = true /\ serverReached (base s2) = Ok tt
                /\ documents (base s2) = []).
  { subst s2. cbn. auto. }
  destruct Hs2 as (Hdb2 & Hreach2 & Hdocs2).
  assert (Hdone : forall s3,
            db (base s3) = true -> serverReached (base s3) = Ok tt ->
            map fields (documents (base s3)) = metadata ->
            map fields (documents (base s3)) = metadata
            /\ fst (loadMetadata s3) = Ok metadata).
  { intros s3 Hd Hr Hm. split; [exact Hm|].
    now rewrite (loadMetadata_connected s3 Hd Hr), Hm. }
  destruct (0 <? Z.of_nat (length metadata)) eqn:Hlen.
  - destruct (insertMany metadata s2) as [[[]|e] s3] eqn:Hins; [|discriminate].
    intros H. inversion H; subst s'. clear H.
    destruct (insertMany_prefix _ _ _ _ Hins)
      as (Hdb3 & Hco3 & done & rest & Hsplit & Hdocs3 & Hok).
    rewrite (proj1 Hok eq_refl), app_nil_r in Hsplit. subst done.
    apply Hdone.
    + now rewrite Hdb3.
    + unfold serverReached in *. now rewrite Hco3.
    + now rewrite Hdocs3, Hdocs2.
  - intros H. inversion H; subst s'. clear H.
    apply Hdone; auto.
    rewrite Hdocs2. destruct metadata; [reflexivity|].
    cbn in Hlen. discriminate.
Qed.

Lemma saveMetadata_then_load_witness :
  exists s',
    saveMetadata [Shelf.fresh "x"; Shelf.fresh "y"] Shelf.server = (Ok tt, s')
    /\ map fields (documents (base s')) = [Shelf.fresh "x"; Shelf.fresh "y"]
    /\ fst (loadMetadata s') = Ok [Shelf.fresh "x"; Shelf.fresh "y"].
Proof.
  eexists. split; [vm_compute; reflexivity|].
  eapply (saveMetadata_then_load [Shelf.fresh "x"; Shelf.fresh "y"] Shelf.server).
  vm_compute. reflexivity.
Defined.

(** [saveMetadata] is not atomic: once the server is reached the old
    records are deleted first, so whatever the outcome the collection ends
    with a leading part of the given records only, all of them exactly when
    the save succeeds. *)
Theorem saveMetadata_replaces metadata s d1 :
  getMetadataCollection (base s) = (Ok tt, d1) ->
  serverReached d1 = Ok tt ->
  exists done rest,
    metadata = done ++ rest
    /\ map fields (documents (base (snd (saveMetadata metadata s)))) = done
    /\ (fst (saveMetadata metadata s) = Ok tt <-> rest = []).
Proof.
  intros Hconn Hreach0. unfold saveMetadata. rewrite Hconn.
  destruct (ensureIndexes_frame (withBase s d1)) as (_ & _ & Hc & _).
  cbn [base withBase] in Hc.
  unfold deleteMany.
  assert (Hreach : serverReached (base (ensureIndexes (withBase s d1))) = Ok tt)
    by (unfold serverReached in *; now rewrite Hc).
  rewrite Hreach.
  set (s2 := withBase (ensureIndexes (withBase s d1))
               (withDocuments (base (ensureIndexes (withBase s d1))) [])).
  destruct (0 <? Z.of_nat (length metadata)) eqn:Hlen.
  - destruct (insertMany metadata s2) as [r s3] eqn:Hins.
    destruct (insertMany_prefix _ _ _ _ Hins)
      as (_ & _ & done & rest & Hsplit & Hdocs3 & Hok).
    exists done, rest. split; [exact Hsplit|].
    destruct r as [[]|e]; cbn [fst snd]; rewrite Hdocs3; cbn;
      (split; [reflexivity|]).
    + exact Hok.
    + split; [discriminate|]. intros Hrest. apply Hok in Hrest. discriminate.
  - destruct metadata; [|cbn in Hlen; discriminate].
    exists [], []. cbn. repeat split; auto.
Qed.

Lemma saveMetadata_replaces_witness :
  exists done rest,
    [Shelf.fresh "x"; Shelf.fresh "x"] = done ++ rest
    /\ map fields
         (documents (base (snd (saveMetadata [Shelf.fresh "x"; Shelf.fresh "x"]
                                             Shelf.server)))) = done
    /\ (fst (saveMetadata [Shelf.fresh "x"; Shelf.fresh "x"] Shelf.server) = Ok tt
        <-> rest = []).
Proof.
  eapply (saveMetadata_replaces [Shelf.fresh "x"; Shelf.fresh "x"] Shelf.server);
    vm_compute; reflexivity.
Defined.

(** After a save that fails on a repeated id only the records before the
    repetition are left. *)
Lemma saveMetadata_repeated_id_example :
  exists e s',
    saveMetadata [Shelf.fresh "x"; Shelf.fresh "x"] Shelf.server = (Throw e, s')
    /\ map fields (documents (base s')) = [Shelf.fresh "x"].
Proof. do 2 eexists. split; vm_compute; reflexivity. Qed.

Lemma filter_Permutation {A} (f : A -> bool) (l l' : list A) :
  Permutation l l' -> Permutation (filter f l) (filter f l').
Proof.
  induction 1 as [|x l l' _ IH|x y l|l l' l'' _ IH1 _ IH2]; simpl.
  - constructor.
  - destruct (f x); [now constructor | exact IH].
  - destruct (f x), (f y); try reflexivity. apply perm_swap.
  - now transitivity (filter f l').
Qed.

Lemma filter_StronglySorted {A} (R : A -> A -> Prop) (f : A -> bool) (l : list A) :
  StronglySorted R l -> StronglySorted R (filter f l).
Proof.
  induction 1 as [|x l _ IH Hx]; simpl; [constructor|].
  destruct (f x); [|exact IH].
  constructor; [exact IH|].
  apply Forall_forall. intros y Hy. apply filter_In in Hy.
  rewrite Forall_forall in Hx. now apply Hx.
Qed.

(** The listing shows the completed records and no other, each once and
    without its text, the most recently uploaded first; [total] is their
    number; nothing is changed. *)
Theorem ListRoute_GET_lists_completed s pdfs total s' :
  ListRoute.GET s = (ListRoute.Listing pdfs total, s') ->
  total = Z.of_nat (length pdfs)
  /\ Forall (fun p => ListRoute.status p = completed) pdfs
  /\ documents (base s') = documents (base s)
  /\ exists docs,
      pdfs = map (fun doc => Shape.entryOf (fields doc)) docs
      /\ Permutation (filter isCompleted (documents (base s))) docs
      /\ StronglySorted notAfter docs.
Proof.
  unfold ListRoute.GET.
  destruct (getAllMetadata s) as [[all|e] s1] eqn:Hall; [|discriminate].
  destruct (getAllMetadata_inv _ _ _ Hall) as (Hdocs & ->).
  intros H. inversion H; subst. clear H.
  split; [reflexivity|].
  destruct (sortByUploadedAtDesc_spec (documents (base s))) as (Hperm & Hsorted).
  assert (Hfilter : filter (fun pdf => Status_eqb (status pdf) completed)
                      (map fields (sortByUploadedAtDesc (documents (base s))))
                    = map fields
                        (filter isCompleted (sortByUploadedAtDesc (documents (base s))))).
  { generalize (sortByUploadedAtDesc (documents (base s))).
    induction l as [|x l IH]; simpl; [reflexivity|].
    unfold isCompleted at 1. destruct (Status_eqb _ _); simpl; now rewrite IH. }
  rewrite Hfilter, map_map. split.
  - apply Forall_forall. intros p Hp. apply in_map_iff in Hp.
    destruct Hp as (doc & <- & Hdoc). apply filter_In in Hdoc.
    destruct Hdoc as (_ & Hc). now apply Status_eqb_eq.
  - split; [exact Hdocs|].
    exists (filter isCompleted (sortByUploadedAtDesc (documents (base s)))).
    split; [reflexivity|]. split.
    + now apply filter_Permutation.
    + now apply filter_StronglySorted.
Qed.

Lemma ListRoute_GET_lists_completed_witness :
  exists pdfs total s',
    ListRoute.GET Shelf.server = (ListRoute.Listing pdfs total, s')
    /\ total = Z.of_nat (length pdfs)
    /\ Forall (fun p => ListRoute.status p = completed) pdfs
    /\ documents (base s') = documents (base Shelf.server)
    /\ exists docs,
        pdfs = map (fun doc => Shape.entryOf (fields doc)) docs
        /\ Permutation (filter isCompleted (documents (base Shelf.server))) docs
        /\ StronglySorted notAfter docs.
Proof.
  do 3 eexists. split; [vm_compute; reflexivity|].
  eapply (ListRoute_GET_lists_completed Shelf.server). vm_compute. reflexivity.
Defined.

End CatalogFacts.

(** ** The upload handler *)

Section UploadFacts.

Import Store Catalog UploadRoute.

Lemma allChars_append p (a b : string) :
  Shape.allChars p (a ++ b) = Shape.allChars p a && Shape.allChars p b.
Proof.
  induction a as [|c a IH]; simpl; [reflexivity|].
  now rewrite IH, andb_assoc.
Qed.

Lemma isKeyChar_sanitized (c : ascii) :
  Shape.isKeyChar (lowerChar (if isKept c then c else "_"%char)) = true.
Proof. destruct c as [[] [] [] [] [] [] [] []]; reflexivity. Qed.

Lemma isKeyChar_fixed (c : ascii) :
  Shape.isKeyChar c = true -> lowerChar (if isKept c then c else "_"%char) = c.
Proof.
  destruct c as [[] [] [] [] [] [] [] []]; intros H;
    try reflexivity; discriminate H.
Qed.

Lemma sanitize_keyChars (filename : string) :
  Shape.allChars Shape.isKeyChar (sanitize filename) = true.
Proof.
  unfold sanitize. induction filename as [|c r IH]; [reflexivity|].
  cbn [replaceUnsafe toLowerCase Shape.allChars].
  now rewrite isKeyChar_sanitized, IH.
Qed.

Lemma sanitize_fixed (filename : string) :
  Shape.allChars Shape.isKeyChar filename = true -> sanitize filename = filename.
Proof.
  unfold sanitize. induction filename as [|c r IH]; [reflexivity|].
  cbn [replaceUnsafe toLowerCase Shape.allChars].
  intros H. apply andb_true_iff in H. destruct H as (Hc & Hr).
  now rewrite (isKeyChar_fixed c Hc), (IH Hr).
Qed.

Lemma length_sanitize (filename : string) :
  String.length (sanitize filename) = String.length filename.
Proof.
  unfold sanitize. rewrite length_toLowerCase.
  induction filename as [|c r IH]; simpl; [reflexivity | now rewrite IH].
Qed.

Lemma string_of_uint_keyChars (d : Decimal.uint) :
  Shape.allChars Shape.isKeyChar (NilEmpty.string_of_uint d) = true.
Proof. induction d; simpl; auto. Qed.

Lemma decimal_keyChars (n : Z) :
  Shape.allChars Shape.isKeyChar (decimal n) = true.
Proof.
  unfold decimal, NilZero.string_of_int, NilZero.string_of_uint.
  destruct (Z.to_int n) as [d|d]; destruct d;
    try reflexivity; try apply string_of_uint_keyChars;
    cbn [Shape.allChars]; try apply string_of_uint_keyChars.
Qed.

(** Whatever the file name and the clock, the key is [temp-pdfs/] followed
    by lower-case letters, digits, dots, hyphens and underscores only: no
    slash, space or upper-case letter of the file name reaches the key. The
    sanitized name is as long as the file name, and sanitizing it again
    changes nothing. *)
Theorem s3KeyOf_shape (now : Z) (filename : string) :
  exists rest,
    s3KeyOf now filename = ("temp-pdfs/" ++ rest)%string
    /\ Shape.allChars Shape.isKeyChar rest = true
    /\ String.length (sanitize filename) = String.length filename
    /\ sanitize (sanitize filename) = sanitize filename.
Proof.
  exists (decimal now ++ "-" ++ sanitize filename)%string.
  split; [reflexivity|]. split.
  - rewrite !allChars_append, decimal_keyChars, sanitize_keyChars. reflexivity.
  - split; [apply length_sanitize|]. apply sanitize_fixed, sanitize_keyChars.
Qed.

Lemma addPDFMetadata_Throw metadata s e s' :
  addPDFMetadata metadata s = (Throw e, s') ->
  documents (base s') = documents (base s).
Proof.
  unfold addPDFMetadata.
  destruct (getMetadataCollection (base s)) as [[[]|e0] d1] eqn:Hconn;
    destruct (getMetadataCollection_frame _ _ _ Hconn) as (Hdocs & _ & _).
  2:{ intros H. inversion H; subst. exact Hdocs. }
  destruct (ensureIndexes_frame (withBase s d1)) as (Hd & _).
  cbn [base withBase] in Hd.
  destruct (insertOne_cases
              (mkPDFMetadata (id metadata) (filename metadata)
                 (extractedText metadata) (uploadedAt metadata)
                 (textractJobId metadata) (status metadata))
              (ensureIndexes (withBase s d1)))
    as [(e1 & Hins) | (_ & _ & Hins)]; rewrite Hins; [|discriminate].
  intros H. inversion H; subst. now rewrite Hd.
Qed.

(** A request whose body lacks a file name, or whose content type is not
    exactly [application/pdf], is answered as a bad request; nothing is
    signed and no record is created. *)
Theorem UploadRoute_POST_rejects env body w :
  payload env = Ok body ->
  truthy (b_filename body) = false
  \/ b_contentType body <> Some "application/pdf"%string ->
  exists error, POST env w = (BadRequest error, w).
Proof.
  intros Hp Hbad. unfold POST. rewrite Hp.
  destruct (truthy (b_filename body)) eqn:Hf; cbn [negb orb]; [|eauto].
  destruct (truthy (b_contentType body)) eqn:Hc; cbn [negb]; [|eauto].
  destruct (truthy_Some _ Hc) as (v & Hv & _ & Hor). rewrite Hor.
  destruct (String.eqb v "application/pdf") eqn:He; cbn [negb]; [|eauto].
  apply String.eqb_eq in He. subst v.
  destruct Hbad as [Hbad|Hbad]; [discriminate | congruence].
Qed.

Lemma UploadRoute_POST_rejects_witness :
  exists error,
    POST (Shelf.upload (Some "a.pdf") (Some "image/png")) Shelf.world
    = (BadRequest error, Shelf.world).
Proof.
  apply (UploadRoute_POST_rejects (Shelf.upload (Some "a.pdf") (Some "image/png"))
           (mkBody (Some "a.pdf") (Some "image/png")));
    [reflexivity | right; discriminate].
Defined.

(** An accepted upload: the body named a file and the content type
    [application/pdf]; the answer carries the drawn identifier, the key
    built from the clock and the file name, and the configured bucket; one
    URL was signed, for a [PutObject] of that key valid 300 seconds; and the
    collection gained exactly one record, with the unchanged file name, no
    text and the state [processing]. *)
Theorem UploadRoute_POST_created env w id uploadUrl s3Key bucket w' :
  POST env w = (Created id uploadUrl s3Key bucket, w') ->
  exists filename oid,
    payload env = Ok (mkBody (Some filename) (Some "application/pdf"%string))
    /\ filename <> ""%string
    /\ id = randomUUID env
    /\ s3Key = s3KeyOf (dateNow env) filename
    /\ S3.AWS_S3_BUCKET_NAME (s3 env) = Some bucket
    /\ S3.getSignedUrl (s3 env)
         (S3.PutObjectCommand bucket s3Key None "application/pdf") 300
       = Ok uploadUrl
    /\ S3.events (storage w')
       = S3.events (storage w)
         ++ [S3.Signed (S3.PutObjectCommand bucket s3Key None "application/pdf") 300]
    /\ documents (base (server w'))
       = documents (base (server w))
         ++ [mkDocument (Some oid) (Shape.pending id filename (isoNow env))].
Proof.
  unfold POST. destruct (payload env) as [[fn ct]|e] eqn:Hp; [|discriminate].
  cbn [b_filename b_contentType].
  destruct (truthy fn) eqn:Hf; cbn [negb orb]; [|discriminate].
  destruct (truthy ct) eqn:Hc; cbn [negb]; [|discriminate].
  destruct (truthy_Some _ Hf) as (f & -> & Hfne & Hfor).
  destruct (truthy_Some _ Hc) as (c & -> & _ & Hcor).
  rewrite Hfor, Hcor.
  destruct (String.eqb c "application/pdf") eqn:He; cbn [negb]; [|discriminate].
  apply String.eqb_eq in He. subst c.
  destruct (generatePresignedUploadUrl_cases (s3 env)
              (s3KeyOf (dateNow env) f) "application/pdf" (storage w))
    as (r & st & Hrun & _ & Hr).
  rewrite Hrun. destruct r as [p|e]; [|discriminate].
  destruct Hr as (_ & Hb & _ & Hev & Hsign).
  destruct (addPDFMetadata _ (server w)) as [[m|e] sv] eqn:Hadd; [|discriminate].
  destruct (addPDFMetadata_Ok _ _ _ _ Hadd) as (_ & _ & _ & Hdocs & _).
  intros H. inversion H; subst. clear H.
  exists f, (nextObjectId (server w)). cbn [storage server].
  repeat split; auto.
Qed.

Lemma UploadRoute_POST_created_witness :
  exists id uploadUrl s3Key bucket w',
    POST (Shelf.upload (Some "My File (1).pdf") (Some "application/pdf")) Shelf.world
    = (Created id uploadUrl s3Key bucket, w')
    /\ s3Key = "temp-pdfs/1700000000000-my_file__1_.pdf"%string
    /\ exists filename oid,
        payload (Shelf.upload (Some "My File (1).pdf") (Some "application/pdf"))
        = Ok (mkBody (Some filename) (Some "application/pdf"%string))
        /\ filename <> ""%string
        /\ id = randomUUID (Shelf.upload (Some "My File (1).pdf") (Some "application/pdf"))
        /\ s3Key = s3KeyOf (dateNow (Shelf.upload (Some "My File (1).pdf") (Some "application/pdf"))) filename
        /\ S3.AWS_S3_BUCKET_NAME (s3 (Shelf.upload (Some "My File (1).pdf") (Some "application/pdf"))) = Some bucket
        /\ S3.getSignedUrl (s3 (Shelf.upload (Some "My File (1).pdf") (Some "application/pdf")))
             (S3.PutObjectCommand bucket s3Key None "application/pdf") 300
           = Ok uploadUrl
        /\ S3.events (storage w')
           = S3.events (storage Shelf.world)
             ++ [S3.Signed (S3.PutObjectCommand bucket s3Key None "application/pdf") 300]
        /\ documents (base (server w'))
           = documents (base (server Shelf.world))
             ++ [mkDocument (Some oid)
                   (Shape.pending id filename
                      (isoNow (Shelf.upload (Some "My File (1).pdf") (Some "application/pdf"))))].
Proof.
  do 5 eexists. split; [vm_compute; reflexivity|]. split; [reflexivity|].
  eapply (UploadRoute_POST_created
            (Shelf.upload (Some "My File (1).pdf") (Some "application/pdf"))
            Shelf.world).
  vm_compute. reflexivity.
Defined.

(** Unless the answer is the created upload, the handler leaves the
    collection as it was: neither a rejected request nor a failure leaves a
    record behind. *)
Theorem UploadRoute_POST_failure_creates_no_record env w r w' :
  POST env w = (r, w') ->
  (forall id uploadUrl s3Key bucket, r <> Created id uploadUrl s3Key bucket) ->
  documents (base (server w')) = documents (base (server w)).
Proof.
  unfold POST. destruct (payload env) as [[fn ct]|e];
    [|intros H _; now inversion H].
  cbn [b_filename b_contentType].
  destruct (negb (truthy fn) || negb (truthy ct)); [intros H _; now inversion H|].
  destruct (negb (String.eqb (orElse ct "") "application/pdf"));
    [intros H _; now inversion H|].
  destruct (S3.generatePresignedUploadUrl _ _ _ _) as [[p|e] st];
    [|intros H _; now inversion H].
  destruct (addPDFMetadata _ (server w)) as [[m|e] sv] eqn:Hadd.
  - intros H Hnot. inversion H; subst. now destruct (Hnot _ _ _ _ eq_refl).
  - intros H _. inversion H; subst. cbn [server].
    exact (addPDFMetadata_Throw _ _ _ _ Hadd).
Qed.

Lemma UploadRoute_POST_failure_creates_no_record_witness :
  exists r w',
    POST (mkEnv (Ok (mkBody (Some "a.pdf") (Some "application/pdf")))
            1700000000000 "2023-11-14T22:13:20.000Z" "id-1" Shelf.s3NoBucket)
         Shelf.world = (r, w')
    /\ (forall id uploadUrl s3Key bucket, r <> Created id uploadUrl s3Key bucket)
    /\ documents (base (server w')) = documents (base (server Shelf.world)).
Proof.
  do 2 eexists. split; [vm_compute; reflexivity|].
  split; [discriminate|].
  eapply (UploadRoute_POST_failure_creates_no_record
            (mkEnv (Ok (mkBody (Some "a.pdf") (Some "application/pdf")))
               1700000000000 "2023-11-14T22:13:20.000Z" "id-1" Shelf.s3NoBucket)
            Shelf.world);
    [vm_compute; reflexivity | discriminate].
Defined.

End UploadFacts.
